(** * SCIM endpoint server: filter push-down planner and PATCH engines

    A shallow embedding of

    - [apply-scim-filter.ts]       (the push-down planner),
    - [prisma-filter-evaluator.ts] (the in-memory evaluator of storage
                                    predicates),
    - [group-patch-engine.ts]      (the Group PATCH engine),
    - [user-patch-engine.ts]       (the User PATCH engine),

    together with the properties stated about them.

    Conventions of the embedding.

    - A JavaScript value is a [JValue].  Numbers are the integers of JSON
      documents ([Z]); strings are sequences of 8-bit characters and
      [toLowerCase] lowers the letters A-Z.
    - A JavaScript object is an association list in insertion order
      ([Object.entries] order); keys that look like array indices are
      kept in insertion order as well.
    - The values handed to the planner and to the PATCH engines are the
      trees of a parsed request: no object occurs in two places, so two
      objects met in different places are different objects.  Where the
      sharing of objects matters (what the User engine does to the
      payload of its caller), the engine is modelled a second time over
      an explicit store, in [UserPatchHeap].
    - A function that throws returns [Throw] of the error it throws. *)

From Stdlib Require Import ZArith List String Ascii Bool Lia.
From Stdlib Require Import DecimalString.
Import ListNotations.

Local Open Scope string_scope.
Local Open Scope list_scope.

Set Implicit Arguments.

(* ================================================================== *)
(** * JavaScript values                                                *)
(* ================================================================== *)

Module JS.

#[warnings="-register-all"]
Inductive JValue : Type :=
| JUndefined
| JNull
| JBool (b : bool)
| JNum (z : Z)
| JStr (s : string)
| JArr (items : list JValue)
| JObj (fields : list (string * JValue)).

(** An object's entries, in insertion order. *)
Definition Obj := list (string * JValue).

(** ** Strings *)

Definition isUpper (c : ascii) : bool :=
  let n := nat_of_ascii c in (65 <=? n)%nat && (n <=? 90)%nat.

Definition lowerChar (c : ascii) : ascii :=
  if isUpper c then ascii_of_nat (nat_of_ascii c + 32) else c.

(** [s.toLowerCase()] *)
Fixpoint toLowerCase (s : string) : string :=
  match s with
  | EmptyString => EmptyString
  | String c r => String (lowerChar c) (toLowerCase r)
  end.

(** [s.startsWith(t)] *)
Definition startsWith (s t : string) : bool := String.prefix t s.

(** [s.includes(t)]: [t] is a prefix of some suffix of [s]. *)
Fixpoint includes (s t : string) : bool :=
  startsWith s t ||
  match s with
  | EmptyString => false
  | String _ r => includes r t
  end.

(** [s.endsWith(t)]: [t] is a suffix of [s]. *)
Fixpoint endsWith (s t : string) : bool :=
  String.eqb s t ||
  match s with
  | EmptyString => false
  | String _ r => endsWith r t
  end.

(** [s < t], [s <= t], ... on strings: lexicographic on character codes. *)
Definition strLt (s t : string) : bool :=
  match String.compare s t with Lt => true | _ => false end.
Definition strLe (s t : string) : bool :=
  match String.compare s t with Gt => false | _ => true end.

(** [s.indexOf('.')] together with the two [substring] calls around it:
    the text before the first dot and the text after it. *)
Fixpoint splitAtDot (s : string) : option (string * string) :=
  match s with
  | EmptyString => None
  | String c r =>
      if Ascii.eqb c "."%char then Some (EmptyString, r)
      else match splitAtDot r with
           | Some (a, b) => Some (String c a, b)
           | None => None
           end
  end.

(** ** Objects *)

(** [o[k]]: the value under an own key, [undefined] when absent. *)
Fixpoint getProp (o : Obj) (k : string) : JValue :=
  match o with
  | [] => JUndefined
  | (k', v) :: r => if String.eqb k' k then v else getProp r k
  end.

(** [k in o] *)
Fixpoint hasKey (o : Obj) (k : string) : bool :=
  match o with
  | [] => false
  | (k', _) :: r => String.eqb k' k || hasKey r k
  end.

(** [o[k] = v]: an existing key keeps its position, a new key goes last. *)
Fixpoint setProp (o : Obj) (k : string) (v : JValue) : Obj :=
  match o with
  | [] => [(k, v)]
  | (k', v') :: r =>
      if String.eqb k' k then (k', v) :: r else (k', v') :: setProp r k v
  end.

(** [delete o[k]] *)
Definition deleteProp (o : Obj) (k : string) : Obj :=
  filter (fun e => negb (String.eqb (fst e) k)) o.

(** [Object.keys(o)] *)
Definition keys (o : Obj) : list string := map fst o.

(** [{ ...a, ...b }] and [Object.fromEntries]: later entries overwrite. *)
Definition assignAll (a b : Obj) : Obj :=
  fold_left (fun acc e => setProp acc (fst e) (snd e)) b a.

(** ** Coercions and comparisons *)

(** JavaScript truthiness, as used by [!x] and [x && y]. *)
Definition truthy (v : JValue) : bool :=
  match v with
  | JUndefined | JNull => false
  | JBool b => b
  | JNum z => negb (Z.eqb z 0)
  | JStr s => negb (String.eqb s "")
  | JArr _ | JObj _ => true
  end.

Definition stringOfZ (z : Z) : string :=
  NilEmpty.string_of_int (Z.to_int z).

(** [String(v)]. *)
Fixpoint toStr (v : JValue) : string :=
  match v with
  | JUndefined => "undefined"
  | JNull => "null"
  | JBool true => "true"
  | JBool false => "false"
  | JNum z => stringOfZ z
  | JStr s => s
  | JArr items =>
      (fix join (l : list JValue) : string :=
         match l with
         | [] => ""
         | x :: r =>
             let e := match x with
                      | JUndefined | JNull => ""
                      | _ => toStr x
                      end in
             match r with
             | [] => e
             | _ => String.append e (String.append "," (join r))
             end
         end) items
  | JObj _ => "[object Object]"
  end.

(** [a === b] for two values that are not the same object: primitives are
    compared by type and value; two distinct objects or arrays are never
    strictly equal. *)
Definition strictEq (a b : JValue) : bool :=
  match a, b with
  | JUndefined, JUndefined => true
  | JNull, JNull => true
  | JBool x, JBool y => Bool.eqb x y
  | JNum x, JNum y => Z.eqb x y
  | JStr x, JStr y => String.eqb x y
  | _, _ => false
  end.

End JS.
Export JS.

(* ================================================================== *)
(** * Filter push-down planner ([apply-scim-filter.ts])                *)
(* ================================================================== *)

Module Filter.

(** The filter AST produced by the parser ([scim-filter-parser.ts]).
    Operators are kept as the strings the planner switches on. *)
Inductive FilterNode : Type :=
| Compare (attrPath : string) (op : string) (value : JValue)
| Logical (op : string) (left right : FilterNode)
| Not (inner : FilterNode)
| ValuePath (attrPath : string) (inner : FilterNode).

(** ['citext' | 'varchar' | 'boolean' | 'uuid'], and [noType] for the
    [undefined] that is read where a [type] is expected. *)
Inductive ColumnType := citext | varchar | boolean | uuid | noType.

Record ColumnMapping := { column : string; type : ColumnType }.

(** Lowercase SCIM attribute name -> Prisma column + type. *)
Definition ColumnMap := list (string * ColumnMapping).

(** The own properties of a column map. *)
Fixpoint ownColumn (m : ColumnMap) (k : string) : option ColumnMapping :=
  match m with
  | [] => None
  | (k', c) :: r => if String.eqb k' k then Some c else ownColumn r k
  end.

(** The names a column map, an object literal, inherits from
    [Object.prototype] and that a lower-cased attribute path can spell:
    of the inherited names only these two are without a capital. *)
Definition inheritedKey (k : string) : bool :=
  (k =? "constructor") || (k =? "__proto__").

(** What [mapped.column] and [mapped.type] give when [mapped] is the
    function [Object] or the object [Object.prototype]: both are
    [undefined], and as the computed key [[column]] of an object literal
    [undefined] is the string of that name. *)
Definition inheritedMapping : ColumnMapping :=
  {| column := "undefined"; type := noType |}.

(** [columnMap[k]]: an own property, or else one inherited from
    [Object.prototype], which is truthy too. *)
Definition lookupColumn (m : ColumnMap) (k : string) : option ColumnMapping :=
  match ownColumn m k with
  | Some c => Some c
  | None => if inheritedKey k then Some inheritedMapping else None
  end.

Definition USER_DB_COLUMNS : ColumnMap :=
  [ ("username",    {| column := "userName";    type := citext |});
    ("displayname", {| column := "displayName"; type := citext |});
    ("externalid",  {| column := "externalId";  type := varchar |});
    ("id",          {| column := "scimId";      type := uuid |});
    ("active",      {| column := "active";      type := boolean |}) ].

Definition GROUP_DB_COLUMNS : ColumnMap :=
  [ ("displayname", {| column := "displayName"; type := citext |});
    ("externalid",  {| column := "externalId";  type := varchar |});
    ("id",          {| column := "scimId";      type := uuid |});
    ("active",      {| column := "active";      type := boolean |}) ].

(** [UserFilterResult] / [GroupFilterResult].  The closure
    [resource => evaluateFilter(ast, resource)] is represented by the AST
    it captures. *)
Record FilterResult := {
  dbWhere : Obj;
  inMemoryFilter : option FilterNode;
  fetchAll : bool
}.

Definition isTextColumn (t : ColumnType) : bool :=
  match t with citext | varchar => true | _ => false end.

(** [buildColumnFilter]: a SCIM operator and value as a Prisma field-level
    filter; [None] is the source's [null]. *)
Definition buildColumnFilter (column : string) (type : ColumnType)
    (op : string) (value : JValue) : option Obj :=
  if op =? "eq" then Some [(column, value)]
  else if op =? "ne" then Some [(column, JObj [("not", value)])]
  else if op =? "co" then
    if negb (isTextColumn type) then None
    else Some [(column, JObj [("contains", JStr (toStr value));
                              ("mode", JStr "insensitive")])]
  else if op =? "sw" then
    if negb (isTextColumn type) then None
    else Some [(column, JObj [("startsWith", JStr (toStr value));
                              ("mode", JStr "insensitive")])]
  else if op =? "ew" then
    if negb (isTextColumn type) then None
    else Some [(column, JObj [("endsWith", JStr (toStr value));
                              ("mode", JStr "insensitive")])]
  else if op =? "gt" then Some [(column, JObj [("gt", value)])]
  else if op =? "ge" then Some [(column, JObj [("gte", value)])]
  else if op =? "lt" then Some [(column, JObj [("lt", value)])]
  else if op =? "le" then Some [(column, JObj [("lte", value)])]
  else if op =? "pr" then Some [(column, JObj [("not", JNull)])]
  else None.

(** [pushCompareToDb] *)
Definition pushCompareToDb (attrPath op : string) (value : JValue)
    (columnMap : ColumnMap) : option Obj :=
  let attrLower := toLowerCase attrPath in
  match lookupColumn columnMap attrLower with
  | None => None
  | Some mapped => buildColumnFilter (column mapped) (type mapped) op value
  end.

(** [tryPushToDb], with [pushLogicalToDb] inlined as its [Logical] case
    (the two are mutually recursive in the source). *)
Fixpoint tryPushToDb (ast : FilterNode) (columnMap : ColumnMap)
    : option Obj :=
  match ast with
  | Compare attrPath op value => pushCompareToDb attrPath op value columnMap
  | Logical op l r =>
      let left := tryPushToDb l columnMap in
      let right := tryPushToDb r columnMap in
      if op =? "and" then
        match left, right with
        | Some lw, Some rw => Some [("AND", JArr [JObj lw; JObj rw])]
        | _, _ => None
        end
      else if op =? "or" then
        match left, right with
        | Some lw, Some rw => Some [("OR", JArr [JObj lw; JObj rw])]
        | _, _ => None
        end
      else None
  | Not _ | ValuePath _ _ => None
  end.

(** [pushLogicalToDb] as a function of its own. *)
Definition pushLogicalToDb (op : string) (l r : FilterNode)
    (columnMap : ColumnMap) : option Obj :=
  tryPushToDb (Logical op l r) columnMap.

(** [buildFilterResult] *)
Definition buildFilterResult (ast : FilterNode) (columnMap : ColumnMap)
    : FilterResult :=
  match tryPushToDb ast columnMap with
  | Some dbClause =>
      {| dbWhere := dbClause; inMemoryFilter := None; fetchAll := false |}
  | None =>
      {| dbWhere := []; inMemoryFilter := Some ast; fetchAll := true |}
  end.

(** [buildUserFilter] and [buildGroupFilter], from the parsed filter on:
    the argument is [None] when no filter string is given, and the AST
    [parseScimFilter] returns otherwise. *)
Definition buildUserFilter (filter : option FilterNode) : FilterResult :=
  match filter with
  | None => {| dbWhere := []; inMemoryFilter := None; fetchAll := false |}
  | Some ast => buildFilterResult ast USER_DB_COLUMNS
  end.

Definition buildGroupFilter (filter : option FilterNode) : FilterResult :=
  match filter with
  | None => {| dbWhere := []; inMemoryFilter := None; fetchAll := false |}
  | Some ast => buildFilterResult ast GROUP_DB_COLUMNS
  end.

End Filter.

(* ================================================================== *)
(** * In-memory evaluation of storage predicates
      ([prisma-filter-evaluator.ts])                                   *)
(* ================================================================== *)

Module Prisma.

(** [matchEquality] *)
Definition matchEquality (stored expected : JValue) : bool :=
  match stored, expected with
  | JStr s, JStr e => String.eqb (toLowerCase s) (toLowerCase e)
  | _, _ => strictEq stored expected
  end.

Inductive OrdOp := ogt | ogte | olt | olte.

(** [compareOrdered] *)
Definition compareOrdered (stored expected : JValue) (op : OrdOp) : bool :=
  match stored, expected with
  | JNum s, JNum e =>
      match op with
      | ogt => Z.ltb e s
      | ogte => Z.leb e s
      | olt => Z.ltb s e
      | olte => Z.leb s e
      end
  | JStr s0, JStr e0 =>
      let s := toLowerCase s0 in
      let e := toLowerCase e0 in
      match op with
      | ogt => strLt e s
      | ogte => strLe e s
      | olt => strLt s e
      | olte => strLe s e
      end
  | _, _ => false
  end.

(** [matchOperator] *)
Definition matchOperator (stored : JValue) (opObj : Obj) : bool :=
  let caseInsensitive := strictEq (getProp opObj "mode") (JStr "insensitive") in
  if hasKey opObj "not" &&
     negb (hasKey opObj "contains" || hasKey opObj "startsWith" ||
           hasKey opObj "endsWith" || hasKey opObj "gt") then
    let notValue := getProp opObj "not" in
    match notValue with
    | JNull =>
        match stored with
        | JNull | JUndefined => false
        | _ => true
        end
    | _ => negb (matchEquality stored notValue)
    end
  else if hasKey opObj "contains" then
    match stored with
    | JStr s =>
        let search := toStr (getProp opObj "contains") in
        if caseInsensitive then includes (toLowerCase s) (toLowerCase search)
        else includes s search
    | _ => false
    end
  else if hasKey opObj "startsWith" then
    match stored with
    | JStr s =>
        let search := toStr (getProp opObj "startsWith") in
        if caseInsensitive
        then startsWith (toLowerCase s) (toLowerCase search)
        else startsWith s search
    | _ => false
    end
  else if hasKey opObj "endsWith" then
    match stored with
    | JStr s =>
        let search := toStr (getProp opObj "endsWith") in
        if caseInsensitive then endsWith (toLowerCase s) (toLowerCase search)
        else endsWith s search
    | _ => false
    end
  else if hasKey opObj "gt" then compareOrdered stored (getProp opObj "gt") ogt
  else if hasKey opObj "gte" then
    compareOrdered stored (getProp opObj "gte") ogte
  else if hasKey opObj "lt" then compareOrdered stored (getProp opObj "lt") olt
  else if hasKey opObj "lte" then
    compareOrdered stored (getProp opObj "lte") olte
  else false.

(** One iteration of the [for (const [key, condition] of ...)] loop of
    [matchesPrismaFilter]: [Some true] lets the loop continue, [Some false]
    is its [return false].

    The parameters of [matchesPrismaFilter] are declared
    [Record<string, unknown>] and the [AND]/[OR] conditions are cast to
    arrays of such records; [None] stands for a call outside these
    declared types (where the JavaScript code raises a [TypeError] or
    iterates something that is not a where clause).  [every] and [some]
    stop at the first deciding clause, as in JavaScript.  An array met as
    an operator object has none of the operator keys. *)
Fixpoint matchesCondition (record : Obj) (key : string) (condition : JValue)
    {struct condition} : option bool :=
  if key =? "AND" then
    match condition with
    | JArr clauses =>
        (fix every (cs : list JValue) : option bool :=
           match cs with
           | [] => Some true
           | JObj f :: r =>
               match (fix entries (f : Obj) : option bool :=
                        match f with
                        | [] => Some true
                        | (k, c) :: r' =>
                            match matchesCondition record k c with
                            | Some true => entries r'
                            | other => other
                            end
                        end) f with
               | Some true => every r
               | other => other
               end
           | _ :: _ => None
           end) clauses
    | _ => None
    end
  else if key =? "OR" then
    match condition with
    | JArr clauses =>
        (fix some (cs : list JValue) : option bool :=
           match cs with
           | [] => Some false
           | JObj f :: r =>
               match (fix entries (f : Obj) : option bool :=
                        match f with
                        | [] => Some true
                        | (k, c) :: r' =>
                            match matchesCondition record k c with
                            | Some true => entries r'
                            | other => other
                            end
                        end) f with
               | Some false => some r
               | other => other
               end
           | _ :: _ => None
           end) clauses
    | _ => None
    end
  else
    let stored := getProp record key in
    match condition with
    | JObj opObj => Some (matchOperator stored opObj)
    | JArr _ => Some (matchOperator stored [])
    | _ => Some (matchEquality stored condition)
    end.

(** [matchesPrismaFilter] *)
Fixpoint matchesPrismaFilter (record : Obj) (filter : Obj) : option bool :=
  match filter with
  | [] => Some true
  | (key, condition) :: rest =>
      match matchesCondition record key condition with
      | Some true => matchesPrismaFilter record rest
      | other => other
      end
  end.

End Prisma.

(* ================================================================== *)
(** * The in-memory filter evaluator                                   *)
(* ================================================================== *)

Module Evaluator.
Import Filter.

(** The attribute path cut at its dots. *)
Fixpoint splitDots (s : string) : list string :=
  match s with
  | EmptyString => [""]
  | String c r =>
      if Ascii.eqb c "."%char then "" :: splitDots r
      else match splitDots r with
           | h :: t => String c h :: t
           | [] => [String c ""]
           end
  end.

(** Dotted traversal of a record.  An absent parent resolves to an absent
    value.  The specification does not say how a multi-valued parent
    (an array) is traversed: that case has no determined result. *)
Fixpoint resolveSegments (segs : list string) (v : JValue)
    : option JValue :=
  match segs with
  | [] => Some v
  | k :: rest =>
      match v with
      | JObj o => resolveSegments rest (getProp o k)
      | JArr _ => None
      | _ => Some JUndefined
      end
  end.

(** Modelled from the spec: the attribute lookup of [evaluateFilter]
    ([scim-filter-parser.ts] is not among the sources).  "look up attrPath
    in record (supporting dotted traversal)"; how a [urn:] prefixed path
    is resolved is left to the consumer and is not determined here. *)
Definition resolvePath (attrPath : string) (record : JValue)
    : option JValue :=
  if startsWith (toLowerCase attrPath) "urn:" then None
  else resolveSegments (splitDots attrPath) record.

(** Modelled from the spec: the boolean a literal stands for when it is
    compared with a stored boolean.  Section 8: "[active eq "True"] and
    [active eq true] coerce to the same boolean". *)
Definition asBoolean (value : JValue) : option bool :=
  match value with
  | JBool b => Some b
  | JStr s =>
      let word := toLowerCase s in
      if word =? "true" then Some true
      else if word =? "false" then Some false
      else None
  | _ => None
  end.

(** Modelled from the spec: "string comparisons case-insensitive for
    equality/ordering and for substring operators co/sw/ew"; both
    arguments are lower-cased by the caller. *)
Definition compareText (op : string) (s v : string) : bool :=
  if op =? "eq" then String.eqb s v
  else if op =? "ne" then negb (String.eqb s v)
  else if op =? "co" then includes s v
  else if op =? "sw" then startsWith s v
  else if op =? "ew" then endsWith s v
  else if op =? "gt" then strLt v s
  else if op =? "ge" then strLe v s
  else if op =? "lt" then strLt s v
  else if op =? "le" then strLe s v
  else false.

(** Modelled from the spec: "numeric/boolean comparisons structural".
    The substring operators are string comparisons and hold of no
    number; booleans are compared for equality only. *)
Definition compareNumber (op : string) (s v : Z) : bool :=
  if op =? "eq" then Z.eqb s v
  else if op =? "ne" then negb (Z.eqb s v)
  else if op =? "gt" then Z.ltb v s
  else if op =? "ge" then Z.leb v s
  else if op =? "lt" then Z.ltb s v
  else if op =? "le" then Z.leb s v
  else false.

Definition compareBoolean (op : string) (s v : bool) : bool :=
  if op =? "eq" then Bool.eqb s v
  else if op =? "ne" then negb (Bool.eqb s v)
  else false.

(** Two values that are not equal: of the ten operators only [ne]
    holds. *)
Definition unequal (op : string) : bool := op =? "ne".

(** Modelled from the spec: the comparison of [evaluateFilter]
    ([scim-filter-parser.ts] is not among the sources).  "apply operator
    per value class inferred from the stored value's runtime type (string
    comparisons case-insensitive for equality/ordering and for substring
    operators co/sw/ew; numeric/boolean comparisons structural).  pr is
    true iff resolved value is present and not null."

    The class is that of the stored value.  A stored string is compared
    as text with the text of the literal.  A stored number is compared
    structurally: with a number by the numeric operators, and a literal
    that is no number is not equal to it.  A stored boolean is compared
    with the boolean the literal stands for ([asBoolean]), and a literal
    that stands for none is not equal to it.  A value of no class (absent,
    [null], an object, an array) is not equal to any literal. *)
Definition evalCompare (op : string) (stored value : JValue) : bool :=
  if op =? "pr" then
    match stored with JUndefined | JNull => false | _ => true end
  else
    match stored with
    | JStr s => compareText op (toLowerCase s) (toLowerCase (toStr value))
    | JNum s =>
        match value with
        | JNum v => compareNumber op s v
        | _ => unequal op
        end
    | JBool s =>
        match asBoolean value with
        | Some v => compareBoolean op s v
        | None => unequal op
        end
    | _ => unequal op
    end.

(** Modelled from the spec: [evaluateFilter] of [scim-filter-parser.ts],
    which is not among the sources.  Section 4.2: [Compare] as above;
    [Logical] is the short-circuit combination; [Not] negates; [ValuePath]
    is "true iff the attribute resolves to a list and at least one element
    satisfies the inner filter (element-scoped evaluation)". *)
Fixpoint evaluateFilter (node : FilterNode) (record : JValue)
    : option bool :=
  match node with
  | Compare attrPath op value =>
      match resolvePath attrPath record with
      | Some stored => Some (evalCompare op stored value)
      | None => None
      end
  | Logical op l r =>
      if op =? "and" then
        match evaluateFilter l record with
        | Some true => evaluateFilter r record
        | other => other
        end
      else if op =? "or" then
        match evaluateFilter l record with
        | Some false => evaluateFilter r record
        | other => other
        end
      else None
  | Not inner => option_map negb (evaluateFilter inner record)
  | ValuePath attrPath inner =>
      match resolvePath attrPath record with
      | Some (JArr items) =>
          (fix any (l : list JValue) : option bool :=
             match l with
             | [] => Some false
             | x :: r =>
                 match evaluateFilter inner x with
                 | Some false => any r
                 | other => other
                 end
             end) items
      | Some _ => Some false
      | None => None
      end
  end.

(** The records on which the two evaluation paths can be compared: under
    every storage column the planner maps an attribute of the filter to,
    the record holds the value the evaluator resolves for that attribute. *)
Fixpoint columnsMirrorAttributes (columnMap : ColumnMap) (ast : FilterNode)
    (record : Obj) : Prop :=
  match ast with
  | Compare attrPath _ _ =>
      forall mapped,
        lookupColumn columnMap (toLowerCase attrPath) = Some mapped ->
        resolvePath attrPath (JObj record)
        = Some (getProp record (column mapped))
  | Logical _ l r =>
      columnsMirrorAttributes columnMap l record /\
      columnsMirrorAttributes columnMap r record
  | Not _ | ValuePath _ _ => True
  end.

(** The comparisons in which the evaluator does not take the literal as
    it is written: a stored string compared for equality or order with a
    number or a boolean, which it reads as text, and a stored boolean
    compared for equality with a string that spells a boolean. *)
Definition coerces (op : string) (stored value : JValue) : bool :=
  match stored, value with
  | JStr _, (JNum _ | JBool _) =>
      (op =? "eq") || (op =? "ne") || (op =? "gt") || (op =? "ge") ||
      (op =? "lt") || (op =? "le")
  | JBool _, JStr _ =>
      match asBoolean value with
      | Some _ => (op =? "eq") || (op =? "ne")
      | None => false
      end
  | _, _ => false
  end.

(** No comparison of the filter with a mapped attribute coerces its
    literal on the record. *)
Fixpoint literalsAsWritten (columnMap : ColumnMap) (ast : FilterNode)
    (record : Obj) : bool :=
  match ast with
  | Compare attrPath op value =>
      match lookupColumn columnMap (toLowerCase attrPath) with
      | Some mapped => negb (coerces op (getProp record (column mapped)) value)
      | None => true
      end
  | Logical _ l r =>
      literalsAsWritten columnMap l record &&
      literalsAsWritten columnMap r record
  | Not _ | ValuePath _ _ => true
  end.

End Evaluator.

(* ================================================================== *)
(** * PATCH types ([patch-types.ts], [patch-error.ts])                 *)
(* ================================================================== *)

Module PatchTypes.

(** The [scimType] keywords the engines raise. *)
Inductive ScimType := invalidValue | invalidPath | noTarget.

(** [PatchError]: the HTTP status and the SCIM error keyword.  The detail
    text of the message is not kept. *)
Record PatchError := { status : Z; scimType : ScimType }.

(** What a function of the engines can throw: a [PatchError] of its own,
    or the [TypeError] the runtime raises when an expression it
    evaluates cannot be evaluated.  The services catch the former and let
    the latter through. *)
Inductive Exception :=
| Patch (e : PatchError)
| TypeError.

Coercion Patch : PatchError >-> Exception.

(** The outcome of a function that may throw. *)
Inductive Result (A : Type) : Type :=
| Ok (a : A)
| Throw (e : Exception).
Arguments Ok {A} a.
Arguments Throw {A} e.

Definition bind {A B} (r : Result A) (k : A -> Result B) : Result B :=
  match r with
  | Ok a => k a
  | Throw e => Throw e
  end.

Notation "x <- r ;; k" := (bind r (fun x => k))
  (at level 61, r at next level, right associativity).

Definition throw {A} (st : Z) (ty : ScimType) : Result A :=
  Throw {| status := st; scimType := ty |}.

(** [xs.map(f)] for an [f] that may throw: the first failure aborts. *)
Fixpoint mapM {A B} (f : A -> Result B) (xs : list A) : Result (list B) :=
  match xs with
  | [] => Ok []
  | x :: r => y <- f x ;; ys <- mapM f r ;; Ok (y :: ys)
  end.

(** [PatchOperation]: [op] and [path] may be missing; a missing [value]
    is [JUndefined]. *)
Record PatchOperation := {
  op : option string;
  path : option string;
  value : JValue
}.

Record PatchConfig := { verbosePatch : bool }.

Record GroupMemberPatchConfig := {
  allowMultiMemberAdd : bool;
  allowMultiMemberRemove : bool;
  allowRemoveAllMembers : bool
}.

(** [GroupMemberDto].  The fields are declared [string] but are copied
    unchecked from the request, so they hold whatever value it carries
    ([JUndefined] when the property is absent). *)
Module Member.
Record GroupMemberDto := {
  value : JValue;
  display : JValue;
  type : JValue
}.
End Member.
Abbreviation GroupMemberDto := Member.GroupMemberDto.

(** [operation.op?.toLowerCase()] and [operation.path?.toLowerCase()] *)
Definition lowered (s : option string) : option string :=
  option_map toLowerCase s.

(** [!s] for an optional string: missing or empty. *)
Definition missing (s : option string) : bool :=
  match s with
  | None => true
  | Some x => x =? ""
  end.

(** [path === k] for a lowered optional path. *)
Definition pathIs (p : option string) (k : string) : bool :=
  match p with
  | Some x => x =? k
  | None => false
  end.

(** [['add', 'replace', 'remove'].includes(op)] *)
Definition supportedOp (o : string) : bool :=
  (o =? "add") || (o =? "replace") || (o =? "remove").

(** [Object.entries] of an array: its elements under their indices. *)
Fixpoint indexed (i : nat) (items : list JValue) : Obj :=
  match items with
  | [] => []
  | x :: r => (stringOfZ (Z.of_nat i), x) :: indexed (S i) r
  end.

(** A non-null value of [typeof] ['object'] seen as a record of
    properties. *)
Definition asRecord (v : JValue) : option Obj :=
  match v with
  | JObj o => Some o
  | JArr items => Some (indexed 0 items)
  | _ => None
  end.

End PatchTypes.
Export PatchTypes.

(* ================================================================== *)
(** * Group PATCH engine ([group-patch-engine.ts])                     *)
(* ================================================================== *)

Module GroupPatch.

(** ** The member path pattern

    The regular expression [/^members\[value\s+eq\s+Q?([^Q]+)Q?\]$/i],
    where Q stands for the double quote character, matched the way a
    backtracking engine does: every quantifier is greedy and gives back
    what the rest of the pattern needs. *)

Inductive Piece :=
| Lit (s : string)   (* literal text, compared without case *)
| Spaces             (* \s+ *)
| OptQuote           (* an optional double quote *)
| Capture.           (* the group: one or more characters, none a quote *)

Definition quoteChar : ascii := ascii_of_nat 34.

(** [\s] on 8-bit characters. *)
Definition isSpace (c : ascii) : bool :=
  let n := nat_of_ascii c in
  ((9 <=? n)%nat && (n <=? 13)%nat) || (n =? 32)%nat || (n =? 160)%nat.

(** [s] starts with [l] up to case: the rest of [s]. *)
Fixpoint stripLit (l s : string) : option string :=
  match l, s with
  | EmptyString, _ => Some s
  | String a l', String b s' =>
      if Ascii.eqb (lowerChar a) (lowerChar b) then stripLit l' s' else None
  | String _ _, EmptyString => None
  end.

(** [matchPieces p s cap]: [s] matches the pieces [p] up to its end; the
    result is the text of the capture group. *)
Fixpoint matchPieces (p : list Piece) (s : string) (cap : string)
    : option string :=
  match p with
  | [] => if s =? "" then Some cap else None
  | Lit l :: rest =>
      match stripLit l s with
      | Some s' => matchPieces rest s' cap
      | None => None
      end
  | Spaces :: rest =>
      (fix spaces (s : string) : option string :=
         match s with
         | String c r =>
             if isSpace c then
               match spaces r with
               | Some x => Some x
               | None => matchPieces rest r cap
               end
             else None
         | EmptyString => None
         end) s
  | OptQuote :: rest =>
      match s with
      | String c r =>
          if Ascii.eqb c quoteChar then
            match matchPieces rest r cap with
            | Some x => Some x
            | None => matchPieces rest s cap
            end
          else matchPieces rest s cap
      | EmptyString => matchPieces rest s cap
      end
  | Capture :: rest =>
      (fix group (s acc : string) : option string :=
         match s with
         | String c r =>
             if Ascii.eqb c quoteChar then None
             else
               let acc' := String.append acc (String c EmptyString) in
               match group r acc' with
               | Some x => Some x
               | None => matchPieces rest r acc'
               end
         | EmptyString => None
         end) s EmptyString
  end.

Definition memberPathPattern : list Piece :=
  [Lit "members[value"; Spaces; Lit "eq"; Spaces;
   OptQuote; Capture; OptQuote; Lit "]"].

(** [path?.match(...)]: the first capture group of a match. *)
Definition memberPathMatch (path : option string) : option string :=
  match path with
  | Some p => matchPieces memberPathPattern p EmptyString
  | None => None
  end.

(** ** State and result *)

Record GroupPatchState := {
  displayName : string;
  externalId : option string;
  members : list GroupMemberDto;
  rawPayload : Obj
}.

Module Res.
Record GroupPatchResult := {
  displayName : string;
  externalId : option string;
  payload : Obj;
  members : list GroupMemberDto
}.
End Res.

(** ** Member utilities *)

(** Key equality of a JavaScript [Map] or [Set] (SameValueZero).  The
    member values of a request are strings; an object used as a key is
    equal only to itself, and two member entries never share one object. *)
Definition sameValueZero (a b : JValue) : bool := strictEq a b.

(** [toMemberDto] *)
Definition toMemberDto (member : JValue) : Result GroupMemberDto :=
  match member with
  | JObj o =>
      if hasKey o "value" then
        Ok {| Member.value := getProp o "value";
              Member.display := getProp o "display";
              Member.type := getProp o "type" |}
      else throw 400 invalidValue
  | _ => throw 400 invalidValue
  end.

(** [seen.set(member.value, member)] on the entries of a [Map] in
    insertion order: a known key keeps its place and takes the new
    member. *)
Fixpoint mapSet (seen : list GroupMemberDto) (member : GroupMemberDto)
    : list GroupMemberDto :=
  match seen with
  | [] => [member]
  | m :: r =>
      if sameValueZero (Member.value m) (Member.value member) then member :: r
      else m :: mapSet r member
  end.

(** [ensureUniqueMembers] *)
Definition ensureUniqueMembers (members : list GroupMemberDto)
    : list GroupMemberDto :=
  fold_left mapSet members [].

(** ** Replace *)

(** The loop that stores the remaining attributes in [rawPayload]. *)
Definition storeOthers (payload : Obj) (obj : Obj) : Obj :=
  fold_left
    (fun acc e =>
       let key := fst e in
       if negb (key =? "displayName") && negb (key =? "externalId") &&
          negb (key =? "members") && negb (key =? "schemas")
       then setProp acc key (snd e) else acc)
    obj payload.

(** [handleReplace] *)
Definition handleReplace (operation : PatchOperation)
    (currentDisplayName : string) (currentExternalId : option string)
    (members : list GroupMemberDto) (rawPayload : Obj)
    : Result GroupPatchState :=
  let path := lowered (path operation) in
  if missing path then
    match value operation with
    | JStr s =>
        Ok {| displayName := s; externalId := currentExternalId;
              members := members; rawPayload := rawPayload |}
    | v =>
        match asRecord v with
        | Some obj =>
            let newDisplayName :=
              match getProp obj "displayName" with
              | JStr s => s
              | _ => currentDisplayName
              end in
            let newExternalId :=
              if hasKey obj "externalId" then
                match getProp obj "externalId" with
                | JStr s => Some s
                | _ => None
                end
              else currentExternalId in
            newMembers <-
              match getProp obj "members" with
              | JArr ms =>
                  normalized <- mapM toMemberDto ms ;;
                  Ok (ensureUniqueMembers normalized)
              | _ => Ok members
              end ;;
            Ok {| displayName := newDisplayName;
                  externalId := newExternalId;
                  members := newMembers;
                  rawPayload := storeOthers rawPayload obj |}
        | None => throw 400 invalidValue
        end
    end
  else if pathIs path "displayname" then
    match value operation with
    | JStr s =>
        Ok {| displayName := s; externalId := currentExternalId;
              members := members; rawPayload := rawPayload |}
    | _ => throw 400 invalidValue
    end
  else if pathIs path "externalid" then
    let newExtId :=
      match value operation with
      | JStr s => Some s
      | _ => None
      end in
    Ok {| displayName := currentDisplayName; externalId := newExtId;
          members := members; rawPayload := rawPayload |}
  else if pathIs path "members" then
    match value operation with
    | JArr ms =>
        normalized <- mapM toMemberDto ms ;;
        Ok {| displayName := currentDisplayName;
              externalId := currentExternalId;
              members := ensureUniqueMembers normalized;
              rawPayload := rawPayload |}
    | _ => throw 400 invalidValue
    end
  else throw 400 invalidPath.

(** ** Add *)

(** [handleAdd] *)
Definition handleAdd (operation : PatchOperation)
    (members : list GroupMemberDto) (allowMultiMemberAdd : bool)
    : Result (list GroupMemberDto) :=
  let path := lowered (path operation) in
  if negb (missing path) && negb (pathIs path "members") then
    throw 400 invalidPath
  else if negb (truthy (value operation)) then
    throw 400 invalidValue
  else
    let value :=
      match value operation with
      | JArr items => items
      | v => [v]
      end in
    if negb allowMultiMemberAdd && (1 <? List.length value)%nat then
      throw 400 invalidValue
    else
      newMembers <- mapM toMemberDto value ;;
      Ok (ensureUniqueMembers (members ++ newMembers)).

(** ** Remove *)

(** The loop filling [membersToRemove]: the [value] of every item that is
    an object with a [value] property. *)
Fixpoint membersToRemove (items : list JValue) : list JValue :=
  match items with
  | [] => []
  | JObj o :: r =>
      if hasKey o "value" then getProp o "value" :: membersToRemove r
      else membersToRemove r
  | _ :: r => membersToRemove r
  end.

(** [set.has(v)] *)
Definition setHas (s : list JValue) (v : JValue) : bool :=
  existsb (fun k => sameValueZero k v) s.

(** [handleRemove] *)
Definition handleRemove (operation : PatchOperation)
    (members : list GroupMemberDto)
    (allowMultiMemberRemove allowRemoveAllMembers : bool)
    : Result (list GroupMemberDto) :=
  let path := lowered (path operation) in
  match value operation with
  | JArr (item :: others) =>
      let items := item :: others in
      if negb allowMultiMemberRemove && (1 <? List.length items)%nat then
        throw 400 invalidValue
      else
        let toRemove := membersToRemove items in
        Ok (filter (fun m => negb (setHas toRemove (Member.value m))) members)
  | _ =>
      match memberPathMatch path with
      | Some valueToRemove =>
          Ok (filter
                (fun m => negb (strictEq (Member.value m) (JStr valueToRemove)))
                members)
      | None =>
          if pathIs path "members" then
            if negb allowRemoveAllMembers then throw 400 invalidValue
            else Ok []
          else throw 400 invalidPath
      end
  end.

(** ** The engine *)

(** The body of the [for (const operation of operations)] loop, on the
    loop variables [displayName], [externalId], [members], [rawPayload]. *)
Definition applyOperation (config : GroupMemberPatchConfig)
    (st : GroupPatchState) (operation : PatchOperation)
    : Result GroupPatchState :=
  match lowered (op operation) with
  | None => throw 400 invalidValue
  | Some o =>
      if (o =? "") || negb (supportedOp o) then throw 400 invalidValue
      else if o =? "replace" then
        handleReplace operation (displayName st) (externalId st)
                      (members st) (rawPayload st)
      else if o =? "add" then
        ms <- handleAdd operation (members st) (allowMultiMemberAdd config) ;;
        Ok {| displayName := displayName st; externalId := externalId st;
              members := ms; rawPayload := rawPayload st |}
      else
        ms <- handleRemove operation (members st)
                (allowMultiMemberRemove config)
                (allowRemoveAllMembers config) ;;
        Ok {| displayName := displayName st; externalId := externalId st;
              members := ms; rawPayload := rawPayload st |}
  end.

(** The loop itself. *)
Fixpoint applyOperations (config : GroupMemberPatchConfig)
    (operations : list PatchOperation) (st : GroupPatchState)
    : Result GroupPatchState :=
  match operations with
  | [] => Ok st
  | operation :: rest =>
      st' <- applyOperation config st operation ;;
      applyOperations config rest st'
  end.

(** [GroupPatchEngine.apply].  The copies [[...state.members]] and
    [{ ...state.rawPayload }] taken on entry have the contents of their
    originals. *)
Definition apply (operations : list PatchOperation)
    (state : GroupPatchState) (config : GroupMemberPatchConfig)
    : Result Res.GroupPatchResult :=
  st <- applyOperations config operations
          {| displayName := displayName state;
             externalId := externalId state;
             members := members state;
             rawPayload := rawPayload state |} ;;
  Ok {| Res.displayName := displayName st;
        Res.externalId := externalId st;
        Res.payload := rawPayload st;
        Res.members := members st |}.

(** The state a caller builds from a result to patch it again. *)
Definition stateOfResult (r : Res.GroupPatchResult) : GroupPatchState :=
  {| displayName := Res.displayName r;
     externalId := Res.externalId r;
     members := Res.members r;
     rawPayload := Res.payload r |}.

End GroupPatch.

(* ================================================================== *)
(** * User PATCH engine ([user-patch-engine.ts])                       *)
(* ================================================================== *)

Module UserPatch.

(** ** The imported path utilities

    [scim-patch-path.ts] is not among the sources: its ten functions are
    taken as they are imported, as an interface.  The parsed forms of a
    value path and of an extension path are opaque to the engine, which
    only hands them on.  Every function may throw. *)
Record ScimPatchPath := {
  ValuePathExpression : Type;
  ExtensionPathExpression : Type;
  isValuePath : string -> bool;
  parseValuePath : string -> Result (option ValuePathExpression);
  applyValuePathUpdate : Obj -> ValuePathExpression -> JValue -> Result Obj;
  addValuePathEntry : Obj -> ValuePathExpression -> JValue -> Result Obj;
  removeValuePathEntry : Obj -> ValuePathExpression -> Result Obj;
  isExtensionPath : string -> bool;
  parseExtensionPath : string -> Result (option ExtensionPathExpression);
  applyExtensionUpdate :
    Obj -> ExtensionPathExpression -> JValue -> Result Obj;
  removeExtensionAttribute : Obj -> ExtensionPathExpression -> Result Obj;
  resolveNoPathValue : Obj -> Obj -> Result Obj
}.

(** ** State and result *)

Record UserPatchState := {
  userName : string;
  displayName : option string;
  externalId : option string;
  active : bool;
  rawPayload : Obj
}.

Module Res.
Record UserExtractedFields := {
  userName : string;
  displayName : option string;
  externalId : option string;
  active : bool
}.
Record UserPatchResult := {
  payload : Obj;
  extractedFields : UserExtractedFields
}.
End Res.

(** ** Tables *)

Definition CANONICAL_KEY_MAP : list (string * string) :=
  [ ("username", "userName");
    ("externalid", "externalId");
    ("active", "active");
    ("displayname", "displayName");
    ("name", "name");
    ("nickname", "nickName");
    ("profileurl", "profileUrl");
    ("title", "title");
    ("usertype", "userType");
    ("preferredlanguage", "preferredLanguage");
    ("locale", "locale");
    ("timezone", "timezone");
    ("emails", "emails");
    ("phonenumbers", "phoneNumbers");
    ("addresses", "addresses");
    ("photos", "photos");
    ("ims", "ims");
    ("roles", "roles");
    ("entitlements", "entitlements");
    ("x509certificates", "x509Certificates") ].

Fixpoint lookupCanonical (m : list (string * string)) (k : string)
    : option string :=
  match m with
  | [] => None
  | (k', c) :: r => if k' =? k then Some c else lookupCanonical r k
  end.

Definition RESERVED_ATTRIBUTES : list string :=
  ["id"; "username"; "userid"; "userName"; "externalid"; "externalId";
   "active"].

(** [RESERVED_ATTRIBUTES.has(key)] *)
Definition reservedHas (key : string) : bool :=
  existsb (fun r => r =? key) RESERVED_ATTRIBUTES.

(** ** Key normalization *)

(** [normalizeObjectKeys] *)
Definition normalizeObjectKeys (obj : Obj) : Obj :=
  fold_left
    (fun result e =>
       let canonical :=
         match lookupCanonical CANONICAL_KEY_MAP (toLowerCase (fst e)) with
         | Some c => c
         | None => fst e
         end in
       setProp result canonical (snd e))
    obj [].

(** ** Value extraction helpers *)

(** [extractStringValue] *)
Definition extractStringValue (value : JValue) : Result string :=
  match value with
  | JStr s => Ok s
  | _ => throw 400 invalidValue
  end.

(** [extractNullableStringValue] *)
Definition extractNullableStringValue (value : JValue)
    : Result (option string) :=
  match value with
  | JNull | JUndefined => Ok None
  | JStr s => Ok (Some s)
  | _ => throw 400 invalidValue
  end.

(** The words [true] and [false] in any letter case. *)
Definition boolOfString (s : string) : option bool :=
  let lower := toLowerCase s in
  if lower =? "true" then Some true
  else if lower =? "false" then Some false
  else None.

(** [String(value)] on a value of a parsed request raises a [TypeError]
    exactly when it meets an object with an own [toString] property:
    that property is never a function there, and the [valueOf] tried
    next is either an own property, no function either, or the
    inherited one, which returns the object itself.  An array is joined,
    each item other than [null] and [undefined] being converted in
    turn, so it raises the error when one of its items does; an object
    without that property is rendered without a look inside. *)
Fixpoint stringThrows (value : JValue) : bool :=
  match value with
  | JObj fields => hasKey fields "toString"
  | JArr items => existsb stringThrows items
  | _ => false
  end.

(** The [throw] that ends [extractBooleanValue]: its message holds
    [String(value)], evaluated before the [PatchError] is made. *)
Definition notBoolean (value : JValue) : Result bool :=
  if stringThrows value then Throw TypeError else throw 400 invalidValue.

(** [extractBooleanValue] *)
Definition extractBooleanValue (value : JValue) : Result bool :=
  match value with
  | JBool b => Ok b
  | _ =>
      match
        match value with
        | JStr s => boolOfString s
        | _ => None
        end
      with
      | Some b => Ok b
      | None =>
          match asRecord value with
          | Some o =>
              if hasKey o "active" then
                match getProp o "active" with
                | JBool b => Ok b
                | JStr s =>
                    match boolOfString s with
                    | Some b => Ok b
                    | None => notBoolean value
                    end
                | _ => notBoolean value
                end
              else notBoolean value
          | None => notBoolean value
          end
      end
  end.

(** A [string | null] stored as a value. *)
Definition ofNullable (s : option string) : JValue :=
  match s with
  | Some x => JStr x
  | None => JNull
  end.

(** ** Attribute management *)

(** [stripReservedAttributes] *)
Definition stripReservedAttributes (payload : Obj) : Obj :=
  filter
    (fun e => negb (reservedHas (fst e)) &&
              negb (reservedHas (toLowerCase (fst e))))
    payload.

(** [removeAttribute] *)
Definition removeAttribute (payload : Obj) (attribute : string) : Obj :=
  if attribute =? "" then payload
  else
    let target := toLowerCase attribute in
    filter (fun e => negb (toLowerCase (fst e) =? target)) payload.

(** ** Dot-notation helpers *)

(** [Object.keys(rawPayload).find(k => k.toLowerCase() ===
    parentAttr.toLowerCase()) ?? parentAttr] *)
Definition findParentKey (rawPayload : Obj) (parentAttr : string) : string :=
  match find (fun k => toLowerCase k =? toLowerCase parentAttr)
             (keys rawPayload) with
  | Some k => k
  | None => parentAttr
  end.

(** [originalPath.substring(0, dotIndex)] and
    [originalPath.substring(dotIndex + 1)] for
    [dotIndex = originalPath.indexOf('.')]; without a dot the index is -1
    and the two are the empty string and the whole path. *)
Definition splitPath (originalPath : string) : string * string :=
  match splitAtDot originalPath with
  | Some p => p
  | None => ("", originalPath)
  end.

(** [o[k] = v] on a plain object [o].  The name [__proto__], unless [o]
    has it as an own key (a parsed request that spells it does), goes to
    the accessor every object inherits: it replaces the prototype when
    [v] is an object or [null] and does nothing otherwise, and the
    entries of [o] stay as they are either way. *)
Definition assign (o : Obj) (k : string) (v : JValue) : Obj :=
  if (k =? "__proto__") && negb (hasKey o k) then o else setProp o k v.

(** [o[k]] is [Object.prototype]: [k] is [__proto__] and no own key. *)
Definition reachesPrototype (o : Obj) (k : string) : bool :=
  (k =? "__proto__") && negb (hasKey o k).

(** [applyDotNotation].  The assignment into [existing] is seen here
    through the payload that holds it.  When the parent key is
    [__proto__] and the payload has no such key, [existing] is
    [Object.prototype]: the assignment lands there and the payload keeps
    its entries (what later reads then inherit is not described). *)
Definition applyDotNotation (rawPayload : Obj) (originalPath : string)
    (value : JValue) : Obj :=
  let (parentAttr, childAttr) := splitPath originalPath in
  let parentKey := findParentKey rawPayload parentAttr in
  if reachesPrototype rawPayload parentKey then rawPayload
  else
    match getProp rawPayload parentKey with
    | JObj existing =>
        setProp rawPayload parentKey (JObj (assign existing childAttr value))
    | _ => setProp rawPayload parentKey (JObj [(childAttr, value)])
    end.

(** [removeDotNotation].  [delete] removes an own entry only; with the
    parent key [__proto__] and no such key in the payload it is applied
    to [Object.prototype] and the payload keeps its entries. *)
Definition removeDotNotation (rawPayload : Obj) (originalPath : string)
    : Obj :=
  let (parentAttr, childAttr) := splitPath originalPath in
  let parentKey := findParentKey rawPayload parentAttr in
  if reachesPrototype rawPayload parentKey then rawPayload
  else
    match getProp rawPayload parentKey with
    | JObj existing =>
        setProp rawPayload parentKey (JObj (deleteProp existing childAttr))
    | _ => rawPayload
    end.

(** [originalPath.includes('.')] *)
Definition hasDot (s : string) : bool :=
  match splitAtDot s with Some _ => true | None => false end.

(** ** The engine *)

Section Engine.

Variable P : ScimPatchPath.

(** [originalPath && pred(originalPath)] *)
Definition present (originalPath : option string) (pred : string -> bool)
    : option string :=
  match originalPath with
  | Some p => if negb (p =? "") && pred p then Some p else None
  | None => None
  end.

(** The no-path branch of [applyAddOrReplace]: first-class keys are
    extracted from the normalized object, the rest is merged. *)
Definition mergeNoPath (value : Obj) (st : UserPatchState)
    : Result UserPatchState :=
  let updateObj := normalizeObjectKeys value in
  un_obj <-
    (if hasKey updateObj "userName" then
       u <- extractStringValue (getProp updateObj "userName") ;;
       Ok (u, deleteProp updateObj "userName")
     else Ok (userName st, updateObj)) ;;
  let (userName', updateObj1) := un_obj in
  displayName' <-
    (if hasKey updateObj1 "displayName" then
       extractNullableStringValue (getProp updateObj1 "displayName")
     else Ok (displayName st)) ;;
  ex_obj <-
    (if hasKey updateObj1 "externalId" then
       e <- extractNullableStringValue (getProp updateObj1 "externalId") ;;
       Ok (e, deleteProp updateObj1 "externalId")
     else Ok (externalId st, updateObj1)) ;;
  let (externalId', updateObj2) := ex_obj in
  ac_obj <-
    (if hasKey updateObj2 "active" then
       a <- extractBooleanValue (getProp updateObj2 "active") ;;
       Ok (a, deleteProp updateObj2 "active")
     else Ok (active st, updateObj2)) ;;
  let (active', updateObj3) := ac_obj in
  rawPayload' <- resolveNoPathValue P (rawPayload st) updateObj3 ;;
  Ok {| userName := userName'; displayName := displayName';
        externalId := externalId'; active := active';
        rawPayload := rawPayload' |}.

(** [applyAddOrReplace]; [st] holds the five loop variables it receives
    and returns. *)
Definition applyAddOrReplace (op : string) (originalPath path : option string)
    (value : JValue) (st : UserPatchState) (config : PatchConfig)
    : Result UserPatchState :=
  if pathIs path "active" then
    val <- extractBooleanValue value ;;
    Ok {| userName := userName st; displayName := displayName st;
          externalId := externalId st; active := val;
          rawPayload := setProp (rawPayload st) "active" (JBool val) |}
  else if pathIs path "username" then
    u <- extractStringValue value ;;
    Ok {| userName := u; displayName := displayName st;
          externalId := externalId st; active := active st;
          rawPayload := rawPayload st |}
  else if pathIs path "displayname" then
    val <- extractNullableStringValue value ;;
    Ok {| userName := userName st; displayName := val;
          externalId := externalId st; active := active st;
          rawPayload := setProp (rawPayload st) "displayName"
                                (ofNullable val) |}
  else if pathIs path "externalid" then
    e <- extractNullableStringValue value ;;
    Ok {| userName := userName st; displayName := displayName st;
          externalId := e; active := active st;
          rawPayload := rawPayload st |}
  else
    let withPayload (r : Result Obj) : Result UserPatchState :=
      rawPayload' <- r ;;
      Ok {| userName := userName st; displayName := displayName st;
            externalId := externalId st; active := active st;
            rawPayload := rawPayload' |} in
    match present originalPath (isExtensionPath P) with
    | Some p =>
        extParsed <- parseExtensionPath P p ;;
        match extParsed with
        | Some e => withPayload (applyExtensionUpdate P (rawPayload st) e value)
        | None => Ok st
        end
    | None =>
    match present originalPath (isValuePath P) with
    | Some p =>
        vpParsed <- parseValuePath P p ;;
        match vpParsed with
        | Some vp =>
            withPayload
              (if op =? "add"
               then addValuePathEntry P (rawPayload st) vp value
               else applyValuePathUpdate P (rawPayload st) vp value)
        | None => Ok st
        end
    | None =>
    match (if verbosePatch config then present originalPath hasDot
           else None) with
    | Some p => withPayload (Ok (applyDotNotation (rawPayload st) p value))
    | None =>
    match present originalPath (fun _ => true) with
    | Some p => withPayload (Ok (setProp (rawPayload st) p value))
    | None =>
        if missing path then
          match asRecord value with
          | Some obj => mergeNoPath obj st
          | None => Ok st
          end
        else Ok st
    end end end end.

(** [applyRemove]; [st] holds [active] and [rawPayload], the other loop
    variables pass through. *)
Definition applyRemove (originalPath path : option string)
    (st : UserPatchState) (config : PatchConfig) : Result UserPatchState :=
  let withPayload (r : Result Obj) : Result UserPatchState :=
    rawPayload' <- r ;;
    Ok {| userName := userName st; displayName := displayName st;
          externalId := externalId st; active := active st;
          rawPayload := rawPayload' |} in
  if pathIs path "active" then
    Ok {| userName := userName st; displayName := displayName st;
          externalId := externalId st; active := false;
          rawPayload := setProp (rawPayload st) "active" (JBool false) |}
  else
    match present originalPath (isExtensionPath P) with
    | Some p =>
        extParsed <- parseExtensionPath P p ;;
        match extParsed with
        | Some e => withPayload (removeExtensionAttribute P (rawPayload st) e)
        | None => Ok st
        end
    | None =>
    match present originalPath (isValuePath P) with
    | Some p =>
        vpParsed <- parseValuePath P p ;;
        match vpParsed with
        | Some vp => withPayload (removeValuePathEntry P (rawPayload st) vp)
        | None => Ok st
        end
    | None =>
    match (if verbosePatch config then present originalPath hasDot
           else None) with
    | Some p => withPayload (Ok (removeDotNotation (rawPayload st) p))
    | None =>
    match present originalPath (fun _ => true) with
    | Some p => withPayload (Ok (removeAttribute (rawPayload st) p))
    | None => throw 400 noTarget
    end end end end.

(** The body of the [for (const operation of operations)] loop. *)
Definition applyOperation (config : PatchConfig) (st : UserPatchState)
    (operation : PatchOperation) : Result UserPatchState :=
  match lowered (op operation) with
  | None => throw 400 invalidValue
  | Some o =>
      if (o =? "") || negb (supportedOp o) then throw 400 invalidValue
      else
        let originalPath := PatchTypes.path operation in
        let path := lowered originalPath in
        if (o =? "add") || (o =? "replace") then
          applyAddOrReplace o originalPath path (value operation) st config
        else applyRemove originalPath path st config
  end.

Fixpoint applyOperations (config : PatchConfig)
    (operations : list PatchOperation) (st : UserPatchState)
    : Result UserPatchState :=
  match operations with
  | [] => Ok st
  | operation :: rest =>
      st' <- applyOperation config st operation ;;
      applyOperations config rest st'
  end.

(** [UserPatchEngine.apply], on the contents of the state: the copy
    [{ ...state.rawPayload }] has the entries of its original. *)
Definition apply (operations : list PatchOperation) (state : UserPatchState)
    (config : PatchConfig) : Result Res.UserPatchResult :=
  st <- applyOperations config operations state ;;
  Ok {| Res.payload := stripReservedAttributes (rawPayload st);
        Res.extractedFields :=
          {| Res.userName := userName st;
             Res.displayName := displayName st;
             Res.externalId := externalId st;
             Res.active := active st |} |}.

(** The state a caller builds from a result to patch it again. *)
Definition stateOfResult (r : Res.UserPatchResult) : UserPatchState :=
  {| userName := Res.userName (Res.extractedFields r);
     displayName := Res.displayName (Res.extractedFields r);
     externalId := Res.externalId (Res.extractedFields r);
     active := Res.active (Res.extractedFields r);
     rawPayload := Res.payload r |}.

End Engine.

End UserPatch.

(* ================================================================== *)
(** * User PATCH engine over a store of shared objects                 *)
(* ================================================================== *)

(** The same engine with JavaScript's reference semantics made explicit:
    objects and arrays live in a store, a value refers to them by
    address, a spread [{ ...o }] allocates a copy of the top level only,
    and an assignment [o[k] = v] or [delete o[k]] updates the store in
    place.  This is the model in which what the engine does to the
    objects of its caller can be observed. *)

Module UserPatchHeap.

Inductive Val : Type :=
| VUndefined
| VNull
| VBool (b : bool)
| VNum (z : Z)
| VStr (s : string)
| VRef (a : nat).

Definition Fields := list (string * Val).

Inductive Cell : Type :=
| CObj (fields : Fields)
| CArr (items : list Val).

(** The store: the cell of address [a] is the [a]-th one. *)
Definition Heap := list Cell.

(** A computation that reads and updates the store and may throw; the
    store a throwing computation leaves behind stays visible. *)
Definition M (A : Type) : Type := Heap -> Result A * Heap.

Definition ret {A} (a : A) : M A := fun h => (Ok a, h).

Definition fail {A} (st : Z) (ty : ScimType) : M A :=
  fun h => (throw st ty, h).

Definition bindM {A B} (m : M A) (k : A -> M B) : M B :=
  fun h =>
    match m h with
    | (Ok a, h') => k a h'
    | (Throw e, h') => (Throw e, h')
    end.

Notation "x <~ m ;; k" := (bindM m (fun x => k))
  (at level 61, m at next level, right associativity).

(** ** Store operations *)

Fixpoint indexedV (i : nat) (items : list Val) : Fields :=
  match items with
  | [] => []
  | x :: r => (stringOfZ (Z.of_nat i), x) :: indexedV (S i) r
  end.

(** The own enumerable properties of the object at an address. *)
Definition fieldsAt (h : Heap) (a : nat) : Fields :=
  match nth_error h a with
  | Some (CObj f) => f
  | Some (CArr items) => indexedV 0 items
  | None => []
  end.

Definition entries (a : nat) : M Fields := fun h => (Ok (fieldsAt h a), h).

(** A new object with the given properties. *)
Definition alloc (f : Fields) : M nat :=
  fun h => (Ok (List.length h), h ++ [CObj f]).

Fixpoint replaceNth (h : Heap) (a : nat) (c : Cell) : Heap :=
  match h, a with
  | [], _ => []
  | _ :: r, O => c :: r
  | x :: r, S a' => x :: replaceNth r a' c
  end.

(** The properties of a plain object are replaced in place. *)
Definition writeFields (a : nat) (f : Fields) : M unit :=
  fun h => (Ok tt, replaceNth h a (CObj f)).

Fixpoint getF (o : Fields) (k : string) : Val :=
  match o with
  | [] => VUndefined
  | (k', v) :: r => if k' =? k then v else getF r k
  end.

Fixpoint hasF (o : Fields) (k : string) : bool :=
  match o with
  | [] => false
  | (k', _) :: r => (k' =? k) || hasF r k
  end.

Fixpoint setF (o : Fields) (k : string) (v : Val) : Fields :=
  match o with
  | [] => [(k, v)]
  | (k', v') :: r =>
      if k' =? k then (k', v) :: r else (k', v') :: setF r k v
  end.

Definition deleteF (o : Fields) (k : string) : Fields :=
  filter (fun e => negb (fst e =? k)) o.

(** [typeof v === 'object' && v !== null && !Array.isArray(v)] *)
Definition plainObjectAt (h : Heap) (v : Val) : option nat :=
  match v with
  | VRef a =>
      match nth_error h a with
      | Some (CObj _) => Some a
      | _ => None
      end
  | _ => None
  end.

(** [typeof v === 'object' && v !== null] *)
Definition objectAt (v : Val) : option nat :=
  match v with
  | VRef a => Some a
  | _ => None
  end.

(** ** The imported path utilities, working on the store *)

Record ScimPatchPath := {
  ValuePathExpression : Type;
  ExtensionPathExpression : Type;
  isValuePath : string -> bool;
  parseValuePath : string -> M (option ValuePathExpression);
  applyValuePathUpdate : nat -> ValuePathExpression -> Val -> M nat;
  addValuePathEntry : nat -> ValuePathExpression -> Val -> M nat;
  removeValuePathEntry : nat -> ValuePathExpression -> M nat;
  isExtensionPath : string -> bool;
  parseExtensionPath : string -> M (option ExtensionPathExpression);
  applyExtensionUpdate : nat -> ExtensionPathExpression -> Val -> M nat;
  removeExtensionAttribute : nat -> ExtensionPathExpression -> M nat;
  resolveNoPathValue : nat -> nat -> M nat
}.

(** ** State and result: [rawPayload] and [payload] are addresses *)

Record UserPatchState := {
  userName : string;
  displayName : option string;
  externalId : option string;
  active : bool;
  rawPayload : nat
}.

Module Res.
Record UserExtractedFields := {
  userName : string;
  displayName : option string;
  externalId : option string;
  active : bool
}.
Record UserPatchResult := {
  payload : nat;
  extractedFields : UserExtractedFields
}.
End Res.

(** [PatchOperation], its [value] being a value of the store. *)
Record PatchOperation := {
  op : option string;
  path : option string;
  value : Val
}.

(** ** What the caller sees *)

(** The value behind [v], followed through the store down to [depth]
    levels of nesting, as a [JValue]. *)
Fixpoint reify (depth : nat) (h : Heap) (v : Val) : JValue :=
  match v with
  | VUndefined => JUndefined
  | VNull => JNull
  | VBool b => JBool b
  | VNum z => JNum z
  | VStr s => JStr s
  | VRef a =>
      match depth with
      | O => JUndefined
      | S d =>
          match nth_error h a with
          | Some (CObj f) =>
              JObj (map (fun e => (fst e, reify d h (snd e))) f)
          | Some (CArr items) => JArr (map (reify d h) items)
          | None => JUndefined
          end
      end
  end.

(** ** Helpers of the engine *)

Definition normalizedEntries (obj : Fields) : Fields :=
  fold_left
    (fun result e =>
       let canonical :=
         match UserPatch.lookupCanonical UserPatch.CANONICAL_KEY_MAP
                 (toLowerCase (fst e)) with
         | Some c => c
         | None => fst e
         end in
       setF result canonical (snd e))
    obj [].

(** [normalizeObjectKeys]: a new object. *)
Definition normalizeObjectKeys (obj : nat) : M nat :=
  f <~ entries obj ;; alloc (normalizedEntries f).

Definition extractStringValue (value : Val) : M string :=
  match value with
  | VStr s => ret s
  | _ => fail 400 invalidValue
  end.

Definition extractNullableStringValue (value : Val) : M (option string) :=
  match value with
  | VNull | VUndefined => ret None
  | VStr s => ret (Some s)
  | _ => fail 400 invalidValue
  end.

(** The [throw] that ends [extractBooleanValue]: its message holds
    [String(value)], which raises a [TypeError] of its own for some
    values (see [UserPatch.stringThrows]); the value is followed through
    the store as deep as the store is. *)
Definition notBoolean (value : Val) : M bool :=
  fun h =>
    if UserPatch.stringThrows (reify (S (List.length h)) h value)
    then (Throw TypeError, h)
    else (throw 400 invalidValue, h).

Definition extractBooleanValue (value : Val) : M bool :=
  match value with
  | VBool b => ret b
  | _ =>
      match
        match value with
        | VStr s => UserPatch.boolOfString s
        | _ => None
        end
      with
      | Some b => ret b
      | None =>
          match objectAt value with
          | Some a =>
              o <~ entries a ;;
              if hasF o "active" then
                match getF o "active" with
                | VBool b => ret b
                | VStr s =>
                    match UserPatch.boolOfString s with
                    | Some b => ret b
                    | None => notBoolean value
                    end
                | _ => notBoolean value
                end
              else notBoolean value
          | None => notBoolean value
          end
      end
  end.

Definition ofNullable (s : option string) : Val :=
  match s with
  | Some x => VStr x
  | None => VNull
  end.

(** [stripReservedAttributes]: a new object. *)
Definition stripReservedAttributes (payload : nat) : M nat :=
  f <~ entries payload ;;
  alloc (filter
           (fun e => negb (UserPatch.reservedHas (fst e)) &&
                     negb (UserPatch.reservedHas (toLowerCase (fst e))))
           f).

(** [removeAttribute]: a new object. *)
Definition removeAttribute (payload : nat) (attribute : string) : M nat :=
  f <~ entries payload ;;
  if attribute =? "" then alloc f
  else
    let target := toLowerCase attribute in
    alloc (filter (fun e => negb (toLowerCase (fst e) =? target)) f).

Definition findParentKey (f : Fields) (parentAttr : string) : string :=
  match find (fun k => toLowerCase k =? toLowerCase parentAttr)
             (map fst f) with
  | Some k => k
  | None => parentAttr
  end.

(** [o[k]] is [Object.prototype], and [o[k] = v] goes to the inherited
    accessor: [k] is [__proto__] and no own key of [o]. *)
Definition reachesPrototype (o : Fields) (k : string) : bool :=
  (k =? "__proto__") && negb (hasF o k).

(** [applyDotNotation]: assigns into the object found under the parent
    key, or puts a new object there; returns [rawPayload] itself.  An
    assignment that goes to [Object.prototype] or to the inherited
    [__proto__] accessor leaves the objects of the store as they are. *)
Definition applyDotNotation (rawPayload : nat) (originalPath : string)
    (value : Val) : M nat :=
  let (parentAttr, childAttr) := UserPatch.splitPath originalPath in
  f <~ entries rawPayload ;;
  let parentKey := findParentKey f parentAttr in
  if reachesPrototype f parentKey then ret rawPayload
  else
    let existing := getF f parentKey in
    fun h =>
      match plainObjectAt h existing with
      | Some a =>
          (e <~ entries a ;;
           if reachesPrototype e childAttr then ret rawPayload
           else
             _ <~ writeFields a (setF e childAttr value) ;;
             ret rawPayload) h
      | None =>
          (fresh <~ alloc [(childAttr, value)] ;;
           _ <~ writeFields rawPayload (setF f parentKey (VRef fresh)) ;;
           ret rawPayload) h
      end.

(** [removeDotNotation] *)
Definition removeDotNotation (rawPayload : nat) (originalPath : string)
    : M nat :=
  let (parentAttr, childAttr) := UserPatch.splitPath originalPath in
  f <~ entries rawPayload ;;
  let parentKey := findParentKey f parentAttr in
  if reachesPrototype f parentKey then ret rawPayload
  else
    let existing := getF f parentKey in
    fun h =>
      match plainObjectAt h existing with
      | Some a =>
          (e <~ entries a ;;
           _ <~ writeFields a (deleteF e childAttr) ;;
           ret rawPayload) h
      | None => ret rawPayload h
      end.

(** ** The engine *)

Section Engine.

Variable P : ScimPatchPath.

Definition withPayload (st : UserPatchState) (m : M nat)
    : M UserPatchState :=
  rawPayload' <~ m ;;
  ret {| userName := userName st; displayName := displayName st;
         externalId := externalId st; active := active st;
         rawPayload := rawPayload' |}.

(** [{ ...rawPayload, [k]: v }]: a new object. *)
Definition spreadWith (rawPayload : nat) (k : string) (v : Val) : M nat :=
  f <~ entries rawPayload ;; alloc (setF f k v).

(** The no-path branch of [applyAddOrReplace]; [delete] works on the
    object [normalizeObjectKeys] has just created. *)
Definition mergeNoPath (value : nat) (st : UserPatchState)
    : M UserPatchState :=
  updateObj <~ normalizeObjectKeys value ;;
  u0 <~ entries updateObj ;;
  userName' <~
    (if hasF u0 "userName" then
       u <~ extractStringValue (getF u0 "userName") ;;
       _ <~ writeFields updateObj (deleteF u0 "userName") ;;
       ret u
     else ret (userName st)) ;;
  u1 <~ entries updateObj ;;
  displayName' <~
    (if hasF u1 "displayName" then
       extractNullableStringValue (getF u1 "displayName")
     else ret (displayName st)) ;;
  externalId' <~
    (if hasF u1 "externalId" then
       e <~ extractNullableStringValue (getF u1 "externalId") ;;
       _ <~ writeFields updateObj (deleteF u1 "externalId") ;;
       ret e
     else ret (externalId st)) ;;
  u2 <~ entries updateObj ;;
  active' <~
    (if hasF u2 "active" then
       a <~ extractBooleanValue (getF u2 "active") ;;
       _ <~ writeFields updateObj (deleteF u2 "active") ;;
       ret a
     else ret (active st)) ;;
  rawPayload' <~ resolveNoPathValue P (rawPayload st) updateObj ;;
  ret {| userName := userName'; displayName := displayName';
         externalId := externalId'; active := active';
         rawPayload := rawPayload' |}.

(** [applyAddOrReplace] *)
Definition applyAddOrReplace (op : string) (originalPath path : option string)
    (value : Val) (st : UserPatchState) (config : PatchConfig)
    : M UserPatchState :=
  if pathIs path "active" then
    val <~ extractBooleanValue value ;;
    rawPayload' <~ spreadWith (rawPayload st) "active" (VBool val) ;;
    ret {| userName := userName st; displayName := displayName st;
           externalId := externalId st; active := val;
           rawPayload := rawPayload' |}
  else if pathIs path "username" then
    u <~ extractStringValue value ;;
    ret {| userName := u; displayName := displayName st;
           externalId := externalId st; active := active st;
           rawPayload := rawPayload st |}
  else if pathIs path "displayname" then
    val <~ extractNullableStringValue value ;;
    rawPayload' <~ spreadWith (rawPayload st) "displayName" (ofNullable val) ;;
    ret {| userName := userName st; displayName := val;
           externalId := externalId st; active := active st;
           rawPayload := rawPayload' |}
  else if pathIs path "externalid" then
    e <~ extractNullableStringValue value ;;
    ret {| userName := userName st; displayName := displayName st;
           externalId := e; active := active st;
           rawPayload := rawPayload st |}
  else
    match UserPatch.present originalPath (isExtensionPath P) with
    | Some p =>
        extParsed <~ parseExtensionPath P p ;;
        match extParsed with
        | Some e =>
            withPayload st (applyExtensionUpdate P (rawPayload st) e value)
        | None => ret st
        end
    | None =>
    match UserPatch.present originalPath (isValuePath P) with
    | Some p =>
        vpParsed <~ parseValuePath P p ;;
        match vpParsed with
        | Some vp =>
            withPayload st
              (if op =? "add"
               then addValuePathEntry P (rawPayload st) vp value
               else applyValuePathUpdate P (rawPayload st) vp value)
        | None => ret st
        end
    | None =>
    match (if verbosePatch config
           then UserPatch.present originalPath UserPatch.hasDot
           else None) with
    | Some p => withPayload st (applyDotNotation (rawPayload st) p value)
    | None =>
    match UserPatch.present originalPath (fun _ => true) with
    | Some p => withPayload st (spreadWith (rawPayload st) p value)
    | None =>
        if missing path then
          match objectAt value with
          | Some obj => mergeNoPath obj st
          | None => ret st
          end
        else ret st
    end end end end.

(** [applyRemove] *)
Definition applyRemove (originalPath path : option string)
    (st : UserPatchState) (config : PatchConfig) : M UserPatchState :=
  if pathIs path "active" then
    rawPayload' <~ spreadWith (rawPayload st) "active" (VBool false) ;;
    ret {| userName := userName st; displayName := displayName st;
           externalId := externalId st; active := false;
           rawPayload := rawPayload' |}
  else
    match UserPatch.present originalPath (isExtensionPath P) with
    | Some p =>
        extParsed <~ parseExtensionPath P p ;;
        match extParsed with
        | Some e =>
            withPayload st (removeExtensionAttribute P (rawPayload st) e)
        | None => ret st
        end
    | None =>
    match UserPatch.present originalPath (isValuePath P) with
    | Some p =>
        vpParsed <~ parseValuePath P p ;;
        match vpParsed with
        | Some vp => withPayload st (removeValuePathEntry P (rawPayload st) vp)
        | None => ret st
        end
    | None =>
    match (if verbosePatch config
           then UserPatch.present originalPath UserPatch.hasDot
           else None) with
    | Some p => withPayload st (removeDotNotation (rawPayload st) p)
    | None =>
    match UserPatch.present originalPath (fun _ => true) with
    | Some p => withPayload st (removeAttribute (rawPayload st) p)
    | None => fail 400 noTarget
    end end end end.

(** The body of the loop over the operations. *)
Definition applyOperation (config : PatchConfig) (st : UserPatchState)
    (operation : PatchOperation) : M UserPatchState :=
  match lowered (op operation) with
  | None => fail 400 invalidValue
  | Some o =>
      if (o =? "") || negb (supportedOp o) then fail 400 invalidValue
      else
        let originalPath := path operation in
        let path := lowered originalPath in
        if (o =? "add") || (o =? "replace") then
          applyAddOrReplace o originalPath path (value operation) st config
        else applyRemove originalPath path st config
  end.

Fixpoint applyOperations (config : PatchConfig)
    (operations : list PatchOperation) (st : UserPatchState)
    : M UserPatchState :=
  match operations with
  | [] => ret st
  | operation :: rest =>
      st' <~ applyOperation config st operation ;;
      applyOperations config rest st'
  end.

(** [UserPatchEngine.apply]: the loop runs on the copy
    [{ ...state.rawPayload }]. *)
Definition apply (operations : list PatchOperation) (state : UserPatchState)
    (config : PatchConfig) : M Res.UserPatchResult :=
  f <~ entries (rawPayload state) ;;
  copy <~ alloc f ;;
  st <~ applyOperations config operations
          {| userName := userName state; displayName := displayName state;
             externalId := externalId state; active := active state;
             rawPayload := copy |} ;;
  stripped <~ stripReservedAttributes (rawPayload st) ;;
  ret {| Res.payload := stripped;
         Res.extractedFields :=
           {| Res.userName := userName st;
              Res.displayName := displayName st;
              Res.externalId := externalId st;
              Res.active := active st |} |}.

End Engine.

End UserPatchHeap.

(* ================================================================== *)
(** * Notions used to state the properties                             *)
(* ================================================================== *)

Module Statements.
Import Filter.

(** ** Planner *)

(** No storage column is called [AND] or [OR]. *)
Definition plainColumns (columnMap : ColumnMap) : bool :=
  forallb (fun e => negb (column (snd e) =? "AND") &&
                    negb (column (snd e) =? "OR")) columnMap.

(** ** Group members *)

Import GroupPatch.

(** No two entries of the list have the same [value]. *)
Fixpoint distinctValues (l : list GroupMemberDto) : bool :=
  match l with
  | [] => true
  | m :: r =>
      negb (existsb (fun x => sameValueZero (Member.value x) (Member.value m)) r) &&
      distinctValues r
  end.

(** The first entry with the given [value]. *)
Fixpoint findWithValue (v : JValue) (l : list GroupMemberDto)
    : option GroupMemberDto :=
  match l with
  | [] => None
  | m :: r => if sameValueZero (Member.value m) v then Some m else findWithValue v r
  end.

(** The last entry with the given [value]. *)
Fixpoint lastWithValue (v : JValue) (l : list GroupMemberDto)
    : option GroupMemberDto :=
  match l with
  | [] => None
  | m :: r =>
      match lastWithValue v r with
      | Some x => Some x
      | None => if sameValueZero (Member.value m) v then Some m else None
      end
  end.

(** The member entry a request object denotes. *)
Definition memberOf (member : JValue) : GroupMemberDto :=
  match member with
  | JObj o => {| Member.value := getProp o "value";
                 Member.display := getProp o "display";
                 Member.type := getProp o "type" |}
  | _ => {| Member.value := JUndefined; Member.display := JUndefined;
            Member.type := JUndefined |}
  end.

(** The member entries an [add] supplies. *)
Definition addedEntries (operation : PatchOperation) : list JValue :=
  match value operation with
  | JArr items => items
  | v => [v]
  end.

(** The member entries a [replace] supplies, if it supplies a member
    list at all: through [path=members], or through a [members] array in
    a value given without a path. *)
Definition replacedEntries (operation : PatchOperation)
    : option (list JValue) :=
  let path := lowered (path operation) in
  if missing path then
    match value operation with
    | JStr _ => None
    | v =>
        match asRecord v with
        | Some obj =>
            match getProp obj "members" with
            | JArr ms => Some ms
            | _ => None
            end
        | None => None
        end
    end
  else if pathIs path "members" then
    match value operation with
    | JArr ms => Some ms
    | _ => None
    end
  else None.

Definition isOp (operation : PatchOperation) (name : string) : bool :=
  match lowered (op operation) with
  | Some o => o =? name
  | None => false
  end.

(** The operation has a path, and the path names none of the targets of
    the group engine: not [members], [displayName] or [externalId], in
    any letter case, and no [members[value eq ...]] filter. *)
Definition otherTarget (operation : PatchOperation) : bool :=
  let p := lowered (path operation) in
  negb (missing p) &&
  negb (pathIs p "members") &&
  negb (pathIs p "displayname") &&
  negb (pathIs p "externalid") &&
  match memberPathMatch p with
  | Some _ => false
  | None => true
  end.

(** The operation assigns the member list. *)
Definition suppliesMembers (operation : PatchOperation) : bool :=
  isOp operation "add" ||
  (isOp operation "replace" &&
   match replacedEntries operation with Some _ => true | None => false end).

(** The entries supplied so far, in the order they were supplied: an
    [add] appends its entries, a [replace] of the member list starts
    over with its own. *)
Definition suppliedBy (before : list GroupMemberDto)
    (operation : PatchOperation) : list GroupMemberDto :=
  if isOp operation "add" then
    before ++ map memberOf (addedEntries operation)
  else if isOp operation "replace" then
    match replacedEntries operation with
    | Some ms => map memberOf ms
    | None => before
    end
  else before.

Definition suppliedSequence (state : GroupPatchState)
    (operations : list PatchOperation) : list GroupMemberDto :=
  fold_left suppliedBy operations (members state).

(** ** User attributes *)

(** The values section 4.5 accepts for [active], with the boolean each
    one stands for: a boolean, the words true and false in any letter
    case, and an object whose [active] property is one of these. *)
Inductive boolLike : JValue -> bool -> Prop :=
| like_bool b : boolLike (JBool b) b
| like_true s : toLowerCase s = "true" -> boolLike (JStr s) true
| like_false s : toLowerCase s = "false" -> boolLike (JStr s) false.

Inductive coercesTo : JValue -> bool -> Prop :=
| coerces_direct v b : boolLike v b -> coercesTo v b
| coerces_nested o v b :
    hasKey o "active" = true ->
    getProp o "active" = v ->
    boolLike v b ->
    coercesTo (JObj o) b.

(** The server-managed keys, compared without case. *)
Definition serverManaged (key : string) : bool :=
  let k := toLowerCase key in
  (k =? "id") || (k =? "username") || (k =? "externalid") || (k =? "active").

(** An update of the payload that, made again on its own stripped
    outcome, is accepted again and changes nothing that survives the
    stripping. *)
Definition stableUnderStrip (update : Obj -> Result Obj) : Prop :=
  forall p p1,
    update p = Ok p1 ->
    exists p2,
      update (UserPatch.stripReservedAttributes p1) = Ok p2 /\
      UserPatch.stripReservedAttributes p2
      = UserPatch.stripReservedAttributes p1.

(** The structural updates a [replace] delegates to are of that kind. *)
Definition structuralUpdatesStable (P : UserPatch.ScimPatchPath) : Prop :=
  (forall e v,
     stableUnderStrip (fun p => UserPatch.applyExtensionUpdate P p e v)) /\
  (forall vp v,
     stableUnderStrip (fun p => UserPatch.applyValuePathUpdate P p vp v)) /\
  (forall u,
     stableUnderStrip (fun p => UserPatch.resolveNoPathValue P p u)).

End Statements.

(* ================================================================== *)
(** * Sample data                                                      *)
(* ================================================================== *)

(** The fixtures of the engines' test suites and the inputs of the
    scenarios. *)
Module Samples.
Import GroupPatch.

Definition defaultConfig : GroupMemberPatchConfig :=
  {| allowMultiMemberAdd := true;
     allowMultiMemberRemove := true;
     allowRemoveAllMembers := true |}.

Definition strictConfig : GroupMemberPatchConfig :=
  {| allowMultiMemberAdd := false;
     allowMultiMemberRemove := false;
     allowRemoveAllMembers := false |}.

Definition member (id shown : string) : GroupMemberDto :=
  {| Member.value := JStr id; Member.display := JStr shown; Member.type := JUndefined |}.

Definition bare (id : string) : GroupMemberDto :=
  {| Member.value := JStr id; Member.display := JUndefined; Member.type := JUndefined |}.

(** [makeState()] of the Group test suite. *)
Definition engineering : GroupPatchState :=
  {| displayName := "Engineering";
     externalId := Some "grp-001";
     members := [member "user-1" "User user-1"; member "user-2" "User user-2"];
     rawPayload := [] |}.

(** A state whose member list holds the same value twice. *)
Definition doubled : GroupPatchState :=
  {| displayName := "Engineering";
     externalId := None;
     members := [bare "a"; bare "a"];
     rawPayload := [] |}.

Definition emptyGroup : GroupPatchState :=
  {| displayName := "Engineering"; externalId := None;
     members := []; rawPayload := [] |}.

(** [{ value: id }] *)
Definition ref (id : string) : JValue := JObj [("value", JStr id)].

(** [{ value: id, display: shown }] *)
Definition shownRef (id shown : string) : JValue :=
  JObj [("value", JStr id); ("display", JStr shown)].

Definition renameToSales : PatchOperation :=
  {| op := Some "replace"; path := Some "displayName";
     value := JStr "Sales" |}.

(** Scenario 4: [{op:add, path:members, value:[{value:u1},{value:u2}]}] *)
Definition addTwo : PatchOperation :=
  {| op := Some "add"; path := Some "members";
     value := JArr [ref "u1"; ref "u2"] |}.

Definition addFirst : PatchOperation :=
  {| op := Some "add"; path := Some "members";
     value := JArr [shownRef "a" "First"] |}.

Definition addSecond : PatchOperation :=
  {| op := Some "add"; path := None;
     value := JArr [shownRef "a" "Second"] |}.

(** [{op:remove, path:nickName, value:[{value:user-1}]}] *)
Definition removeByValueAtNickName : PatchOperation :=
  {| op := Some "remove"; path := Some "nickName";
     value := JArr [ref "user-1"] |}.

(** [{op:replace, value:{displayName:Platform, team:core}}] *)
Definition replaceWhole : PatchOperation :=
  {| op := Some "replace"; path := None;
     value := JObj [("displayName", JStr "Platform");
                    ("team", JStr "core")] |}.

(** What the engine returns for [addTwo] on [engineering] when several
    members may be added at once. *)
Definition engineeringPlusTwo : Res.GroupPatchResult :=
  {| Res.displayName := "Engineering";
     Res.externalId := Some "grp-001";
     Res.payload := [];
     Res.members := [member "user-1" "User user-1";
                     member "user-2" "User user-2";
                     bare "u1"; bare "u2"] |}.

(** What the engine returns for [addFirst; addSecond] on [emptyGroup]. *)
Definition onceWithSecond : Res.GroupPatchResult :=
  {| Res.displayName := "Engineering";
     Res.externalId := None;
     Res.payload := [];
     Res.members := [member "a" "Second"] |}.

(** What the engine returns for [replaceWhole] on [engineering]. *)
Definition platform : Res.GroupPatchResult :=
  {| Res.displayName := "Platform";
     Res.externalId := Some "grp-001";
     Res.payload := [("team", JStr "core")];
     Res.members := [member "user-1" "User user-1";
                     member "user-2" "User user-2"] |}.

(** ** Users *)

(** Path utilities for the sample runs.  A path is an extension path
    when it starts with [urn:] and a value path when it holds an opening
    bracket; the parsed form is the path itself.  The structural updates
    are not what the samples are about: they hand the payload back, and
    the no-path merge assigns the keys one by one. *)
Definition samplePaths : UserPatch.ScimPatchPath :=
  {| UserPatch.ValuePathExpression := string;
     UserPatch.ExtensionPathExpression := string;
     UserPatch.isValuePath := fun p => includes p "[";
     UserPatch.parseValuePath := fun p => Ok (Some p);
     UserPatch.applyValuePathUpdate := fun raw _ _ => Ok raw;
     UserPatch.addValuePathEntry := fun raw _ _ => Ok raw;
     UserPatch.removeValuePathEntry := fun raw _ => Ok raw;
     UserPatch.isExtensionPath := fun p => startsWith (toLowerCase p) "urn:";
     UserPatch.parseExtensionPath := fun p => Ok (Some p);
     UserPatch.applyExtensionUpdate := fun raw _ _ => Ok raw;
     UserPatch.removeExtensionAttribute := fun raw _ => Ok raw;
     UserPatch.resolveNoPathValue := fun raw upd => Ok (assignAll raw upd) |}.

Definition plainPatch : PatchConfig := {| verbosePatch := false |}.
Definition verbosePatchOn : PatchConfig := {| verbosePatch := true |}.

(** [makeState()] of the User test suite, without the e-mail list. *)
Definition jdoe : UserPatch.UserPatchState :=
  {| UserPatch.userName := "jdoe@example.com";
     UserPatch.displayName := Some "John Doe";
     UserPatch.externalId := Some "ext-001";
     UserPatch.active := true;
     UserPatch.rawPayload :=
       [("displayName", JStr "John Doe");
        ("name", JObj [("givenName", JStr "John");
                       ("familyName", JStr "Doe")])] |}.

(** Scenario 5: [{op:replace, path:active, value:False}] *)
Definition deactivate : PatchOperation :=
  {| op := Some "replace"; path := Some "active"; value := JStr "False" |}.

(** [{op:replace, path:active, value:{toString:x}}] *)
Definition activeFromObject : PatchOperation :=
  {| op := Some "replace"; path := Some "active";
     value := JObj [("toString", JStr "x")] |}.

(** [{op:replace, path:active, value:1}] *)
Definition activeFromNumber : PatchOperation :=
  {| op := Some "replace"; path := Some "active"; value := JNum 1 |}.

(** [{op:add, value:{id:bad, userName:hack, active:true, title:OK}}] *)
Definition addReserved : PatchOperation :=
  {| op := Some "add"; path := None;
     value := JObj [("id", JStr "bad"); ("userName", JStr "hack");
                    ("active", JBool true); ("title", JStr "OK")] |}.

(** What the engine returns for [addReserved] on [jdoe]. *)
Definition jdoeWithTitle : UserPatch.Res.UserPatchResult :=
  {| UserPatch.Res.payload :=
       [("displayName", JStr "John Doe");
        ("name", JObj [("givenName", JStr "John");
                       ("familyName", JStr "Doe")]);
        ("title", JStr "OK")];
     UserPatch.Res.extractedFields :=
       {| UserPatch.Res.userName := "hack";
          UserPatch.Res.displayName := Some "John Doe";
          UserPatch.Res.externalId := Some "ext-001";
          UserPatch.Res.active := true |} |}.

(** [{op:replace, path:title, value:Manager}] *)
Definition retitle : PatchOperation :=
  {| op := Some "replace"; path := Some "title"; value := JStr "Manager" |}.

(** What the engine returns for [retitle] on [jdoe]. *)
Definition jdoeManager : UserPatch.Res.UserPatchResult :=
  {| UserPatch.Res.payload :=
       [("displayName", JStr "John Doe");
        ("name", JObj [("givenName", JStr "John");
                       ("familyName", JStr "Doe")]);
        ("title", JStr "Manager")];
     UserPatch.Res.extractedFields :=
       {| UserPatch.Res.userName := "jdoe@example.com";
          UserPatch.Res.displayName := Some "John Doe";
          UserPatch.Res.externalId := Some "ext-001";
          UserPatch.Res.active := true |} |}.

(** A user whose payload is [{ name: { givenName: John } }]. *)
Definition john : UserPatch.UserPatchState :=
  {| UserPatch.userName := "jdoe@example.com";
     UserPatch.displayName := Some "John Doe";
     UserPatch.externalId := Some "ext-001";
     UserPatch.active := true;
     UserPatch.rawPayload := [("name", JObj [("givenName", JStr "John")])] |}.

(** [{op:replace, path:name.givenName, value:Jane}] *)
Definition renameGiven : PatchOperation :=
  {| op := Some "replace"; path := Some "name.givenName";
     value := JStr "Jane" |}.

(** ** Users, with their payload in the store *)

Import UserPatchHeap.

(** The same path utilities over the store. *)
Definition storePaths : UserPatchHeap.ScimPatchPath :=
  {| ValuePathExpression := string;
     ExtensionPathExpression := string;
     isValuePath := fun p => includes p "[";
     parseValuePath := fun p => ret (Some p);
     applyValuePathUpdate := fun raw _ _ => ret raw;
     addValuePathEntry := fun raw _ _ => ret raw;
     removeValuePathEntry := fun raw _ => ret raw;
     isExtensionPath := fun p => startsWith (toLowerCase p) "urn:";
     parseExtensionPath := fun p => ret (Some p);
     applyExtensionUpdate := fun raw _ _ => ret raw;
     removeExtensionAttribute := fun raw _ => ret raw;
     resolveNoPathValue := fun raw _ => ret raw |}.

(** The caller's objects: at address 0 the payload [{ name: ... }], at
    address 1 the nested object [{ givenName: John }] it refers to. *)
Definition callerHeap : Heap :=
  [ CObj [("name", VRef 1)];
    CObj [("givenName", VStr "John")] ].

Definition storedJdoe : UserPatchHeap.UserPatchState :=
  {| userName := "jdoe@example.com";
     displayName := Some "John Doe";
     externalId := Some "ext-001";
     active := true;
     rawPayload := 0 |}.

(** [renameGiven] for the store. *)
Definition storedRenameGiven : UserPatchHeap.PatchOperation :=
  {| op := Some "replace"; path := Some "name.givenName";
     value := VStr "Jane" |}.

(** [{op:replace, path:name.givenName, value:Jane}] then [{op:remove}] *)
Definition renameThenFail : list UserPatchHeap.PatchOperation :=
  [ storedRenameGiven;
    {| op := Some "remove"; path := None; value := VUndefined |} ].

End Samples.

(* ================================================================== *)
(** * Further notions: relations between inputs                        *)
(* ================================================================== *)

Module Relations.
Import Filter.

(** ** Filters *)

(** Two filters that differ at most in the letter case of their
    attribute paths. *)
Fixpoint sameUpToAttrCase (a b : FilterNode) : Prop :=
  match a, b with
  | Compare p o v, Compare p' o' v' =>
      toLowerCase p = toLowerCase p' /\ o = o' /\ v = v'
  | Logical o l r, Logical o' l' r' =>
      o = o' /\ sameUpToAttrCase l l' /\ sameUpToAttrCase r r'
  | Not i, Not i' => sameUpToAttrCase i i'
  | ValuePath p i, ValuePath p' i' =>
      toLowerCase p = toLowerCase p' /\ sameUpToAttrCase i i'
  | _, _ => False
  end.

(** A node and everything below it. *)
Fixpoint subnodes (ast : FilterNode) : list FilterNode :=
  ast ::
  match ast with
  | Compare _ _ _ => []
  | Logical _ l r => subnodes l ++ subnodes r
  | Not i => subnodes i
  | ValuePath _ i => subnodes i
  end.

(** The literal values of the filter grammar: strings, numbers and
    booleans. *)
Definition isLiteral (v : JValue) : bool :=
  match v with
  | JStr _ | JNum _ | JBool _ => true
  | _ => false
  end.

(** The comparisons the filter grammar can produce: [pr] takes no value,
    every other operator takes one literal. *)
Fixpoint grammatical (ast : FilterNode) : bool :=
  match ast with
  | Compare _ o v => isLiteral v || (o =? "pr")
  | Logical _ l r => grammatical l && grammatical r
  | Not i => grammatical i
  | ValuePath _ i => grammatical i
  end.

(** Two values that are equal, or strings equal up to letter case. *)
Definition sameUpToCase (a b : JValue) : Prop :=
  match a, b with
  | JStr s, JStr s' => toLowerCase s = toLowerCase s'
  | _, _ => a = b
  end.

(** Two records whose columns hold the same values up to the letter case
    of strings. *)
Definition sameRecordUpToCase (r r' : Obj) : Prop :=
  forall k, sameUpToCase (getProp r k) (getProp r' k).

(** Two filters that differ at most in the letter case of their string
    literals. *)
Fixpoint sameUpToLiteralCase (a b : FilterNode) : Prop :=
  match a, b with
  | Compare p o v, Compare p' o' v' =>
      p = p' /\ o = o' /\ sameUpToCase v v'
  | Logical o l r, Logical o' l' r' =>
      o = o' /\ sameUpToLiteralCase l l' /\ sameUpToLiteralCase r r'
  | Not i, Not i' => sameUpToLiteralCase i i'
  | ValuePath p i, ValuePath p' i' => p = p' /\ sameUpToLiteralCase i i'
  | _, _ => False
  end.

(** ** Group members *)

(** A member with the given [value] is in the list. *)
Definition hasValue (v : JValue) (l : list GroupMemberDto) : bool :=
  existsb (fun x => GroupPatch.sameValueZero (Member.value x) v) l.

(** The operation carries a non-empty array as its value. *)
Definition carriesArray (operation : PatchOperation) : bool :=
  match value operation with
  | JArr (_ :: _) => true
  | _ => false
  end.

(** The attributes of a group that are kept outside its payload. *)
Definition ownAttributes : list string :=
  ["displayName"; "externalId"; "members"; "schemas"].

(** The operation names one of the three operations, in any letter
    case. *)
Definition knownOp (operation : PatchOperation) : bool :=
  Statements.isOp operation "add" || Statements.isOp operation "replace" ||
  Statements.isOp operation "remove".

(** A request to add, and one to remove, the single member [entry]. *)
Definition addOne (entry : Obj) : PatchOperation :=
  {| op := Some "add"; path := Some "members";
     value := JArr [JObj entry] |}.

Definition removeOne (entry : Obj) : PatchOperation :=
  {| op := Some "remove"; path := Some "members";
     value := JArr [JObj entry] |}.

(** A request to remove the member [id] through a path filter,
    [members[value eq Q id Q]] with Q the double quote. *)
Definition removeWhere (id : string) : PatchOperation :=
  {| op := Some "remove";
     path := Some (String.append "members[value eq "
                     (String GroupPatch.quoteChar
                        (String.append id
                           (String GroupPatch.quoteChar "]"))));
     value := JUndefined |}.

(** A group with one member. *)
Definition groupOfOne (id : string) : GroupPatch.GroupPatchState :=
  {| GroupPatch.displayName := "Engineering";
     GroupPatch.externalId := None;
     GroupPatch.members :=
       [{| Member.value := JStr id; Member.display := JUndefined;
           Member.type := JUndefined |}];
     GroupPatch.rawPayload := [] |}.

(** ** User attributes *)

(** The operation is addressed to one of the four attributes the user
    engine extracts: [active], [userName], [displayName], [externalId],
    in any letter case. *)
Definition firstClassPath (operation : PatchOperation) : bool :=
  let path := lowered (path operation) in
  pathIs path "active" || pathIs path "username" ||
  pathIs path "displayname" || pathIs path "externalid".

(** The operation has a path, and it is not one of those four. *)
Definition elsewhere (operation : PatchOperation) : bool :=
  negb (missing (path operation)) && negb (firstClassPath operation).

(** A path that the engine treats as the name of a top-level attribute:
    neither an extension path nor a value path, and without a dot when
    dotted paths are resolved. *)
Definition plainPath (P : UserPatch.ScimPatchPath) (config : PatchConfig)
    (p : string) : bool :=
  negb (p =? "") &&
  negb (UserPatch.isExtensionPath P p) && negb (UserPatch.isValuePath P p) &&
  negb (verbosePatch config && UserPatch.hasDot p).

(** A dotted path whose two names are ordinary ones: neither the child
    attribute nor the parent key found for it in the payload is
    [__proto__]. *)
Definition ordinaryNames (rawPayload : Obj) (originalPath : string) : bool :=
  let (parentAttr, childAttr) := UserPatch.splitPath originalPath in
  negb (childAttr =? "__proto__") &&
  negb (UserPatch.findParentKey rawPayload parentAttr =? "__proto__").

(** What the payload holds at a dotted path: the entry of the child
    attribute in the parent object, when the parent holds an object. *)
Definition readDotted (rawPayload : Obj) (originalPath : string) : JValue :=
  let (parentAttr, childAttr) := UserPatch.splitPath originalPath in
  match getProp rawPayload (UserPatch.findParentKey rawPayload parentAttr) with
  | JObj existing => getProp existing childAttr
  | _ => JUndefined
  end.

(** The four extracted attributes of a state. *)
Definition fieldsOf (st : UserPatch.UserPatchState)
    : UserPatch.Res.UserExtractedFields :=
  {| UserPatch.Res.userName := UserPatch.userName st;
     UserPatch.Res.displayName := UserPatch.displayName st;
     UserPatch.Res.externalId := UserPatch.externalId st;
     UserPatch.Res.active := UserPatch.active st |}.

End Relations.

(* ================================================================== *)
(** * The endpoint services ([endpoint-scim-users.service.ts],
      [endpoint-scim-groups.service.ts]): pure parts                   *)
(* ================================================================== *)

Module Service.

(** ** Boolean-like strings of a stored payload *)

(** The assignment made for a string entry: [true] and [false] in any
    letter case become booleans, any other string stays. *)
Definition sanitizedString (value : string) : JValue :=
  let lower := toLowerCase value in
  if lower =? "true" then JBool true
  else if lower =? "false" then JBool false
  else JStr value.

(** [sanitizeBooleanStrings], on the tree of a parsed payload, seen from
    a value inside it.  With [entry] the value is that of an entry of an
    object or array handed to the function: an array has its items looked
    at, an object is handed on, a string is converted.  Without [entry]
    the value is an item of such an array: an object or array is handed
    on, so that its own entries are looked at, and anything else is left
    as it is. *)
Fixpoint sanitizeValue (entry : bool) (v : JValue) : JValue :=
  match v with
  | JArr items => JArr (map (sanitizeValue (negb entry)) items)
  | JObj fields =>
      JObj (map (fun e => (fst e, sanitizeValue true (snd e))) fields)
  | JStr s => if entry then sanitizedString s else JStr s
  | _ => v
  end.

(** [sanitizeBooleanStrings(obj)]: the object as the call leaves it. *)
Definition sanitizeBooleanStrings (obj : Obj) : Obj :=
  map (fun e => (fst e, sanitizeValue true (snd e))) obj.

(** Induction over a value and the values inside it. *)
Section TreeInduction.

Variable Q : JValue -> Prop.
Hypothesis QUndefined : Q JUndefined.
Hypothesis QNull : Q JNull.
Hypothesis QBool : forall b, Q (JBool b).
Hypothesis QNum : forall z, Q (JNum z).
Hypothesis QStr : forall s, Q (JStr s).
Hypothesis QArr : forall items, Forall Q items -> Q (JArr items).
Hypothesis QObj :
  forall fields, Forall (fun e => Q (snd e)) fields -> Q (JObj fields).

Fixpoint JValue_tree_ind (v : JValue) : Q v :=
  match v with
  | JUndefined => QUndefined
  | JNull => QNull
  | JBool b => QBool b
  | JNum z => QNum z
  | JStr s => QStr s
  | JArr items =>
      QArr
        ((fix all (l : list JValue) : Forall Q l :=
            match l with
            | [] => Forall_nil Q
            | x :: r => Forall_cons x (JValue_tree_ind x) (all r)
            end) items)
  | JObj fields =>
      QObj
        ((fix all (l : list (string * JValue))
            : Forall (fun e => Q (snd e)) l :=
            match l with
            | [] => Forall_nil (fun e => Q (snd e))
            | e :: r =>
                Forall_cons (P := fun e => Q (snd e)) e
                  (JValue_tree_ind (snd e)) (all r)
            end) fields)
  end.

End TreeInduction.

(** ** Pages of a listing *)

Section Listing.

(** [MAX_COUNT] and [SCIM_LIST_RESPONSE_SCHEMA] of [scim-constants.ts],
    which is not among the sources. *)
Variable MAX_COUNT : Z.
Variable SCIM_LIST_RESPONSE_SCHEMA : string.

Variable Resource : Type.

(** [array.slice(start, end)] for integers [start] and [end]. *)
Definition slice (array : list Resource) (start end_ : Z) : list Resource :=
  let len := Z.of_nat (List.length array) in
  let k := if (start <? 0)%Z then Z.max (len + start) 0
           else Z.min start len in
  let final := if (end_ <? 0)%Z then Z.max (len + end_) 0
               else Z.min end_ len in
  firstn (Z.to_nat (Z.max (final - k) 0)) (skipn (Z.to_nat k) array).

Record ScimListResponse := {
  schemas : list string;
  totalResults : nat;
  startIndex : Z;
  itemsPerPage : nat;
  Resources : list Resource
}.

(** What [listUsersForEndpoint] and [listGroupsForEndpoint] do with
    [startIndex] and [count], both integers, once the resources are
    fetched and filtered: the cap on [count] at the head of the function
    and the response built at its end. *)
Definition listResponse (startIndex count : Z) (resources : list Resource)
    : ScimListResponse :=
  let count := if (count >? MAX_COUNT)%Z then MAX_COUNT else count in
  let totalResults := List.length resources in
  let skip := Z.max (startIndex - 1) 0 in
  let take := Z.max (Z.min count MAX_COUNT) 0 in
  let paginatedResources := slice resources skip (skip + take) in
  {| schemas := [SCIM_LIST_RESPONSE_SCHEMA];
     totalResults := totalResults;
     startIndex := startIndex;
     itemsPerPage := List.length paginatedResources;
     Resources := paginatedResources |}.

End Listing.

End Service.

Unset Implicit Arguments.

(* ================================================================== *)
(** * Properties of objects                                            *)
(* ================================================================== *)

Module ObjProps.

Lemma setProp_setProp p k v1 v2 :
  setProp (setProp p k v1) k v2 = setProp p k v2.
Proof.
  induction p as [|[k' v'] r IH]; simpl.
  - now rewrite String.eqb_refl.
  - destruct (k' =? k) eqn:E; simpl; rewrite E; [reflexivity|].
    now rewrite IH.
Qed.

Lemma hasKey_setProp p k v k' :
  hasKey (setProp p k v) k' = hasKey p k' || (k =? k').
Proof.
  induction p as [|[k0 v0] r IH]; simpl.
  - now rewrite orb_false_r.
  - destruct (k0 =? k) eqn:E; simpl.
    + apply String.eqb_eq in E. subst k0.
      destruct (k =? k'); simpl; [reflexivity|].
      now rewrite orb_false_r.
    + rewrite IH. now rewrite orb_assoc.
Qed.

Lemma hasKey_setProp_same p k v : hasKey (setProp p k v) k = true.
Proof. rewrite hasKey_setProp, String.eqb_refl. apply orb_true_r. Qed.

(** Two assignAll to different keys commute once the first key is
    there. *)
Lemma setProp_comm p k v k' v' :
  hasKey p k = true -> k <> k' ->
  setProp (setProp p k v) k' v' = setProp (setProp p k' v') k v.
Proof.
  intros Hk Hne.
  induction p as [|[k0 v0] r IH]; simpl in *; [discriminate|].
  destruct (k0 =? k) eqn:E; simpl.
  - apply String.eqb_eq in E. subst k0.
    assert (E' : (k =? k') = false) by now apply String.eqb_neq.
    rewrite E'. simpl. now rewrite String.eqb_refl.
  - simpl in Hk.
    destruct (k0 =? k') eqn:E'; simpl; rewrite E; [reflexivity|].
    now rewrite IH.
Qed.

Lemma getProp_setProp_same p k v : getProp (setProp p k v) k = v.
Proof.
  induction p as [|[k0 v0] r IH]; simpl.
  - now rewrite String.eqb_refl.
  - destruct (k0 =? k) eqn:E; simpl; now rewrite E.
Qed.

Lemma assignAll_overridden us : forall p k v,
  hasKey p k = true -> hasKey us k = true ->
  assignAll (setProp p k v) us = assignAll p us.
Proof.
  induction us as [|[k' v'] r IH]; simpl; intros p k v Hp Hu;
    [discriminate|].
  destruct (k' =? k) eqn:E.
  - apply String.eqb_eq in E. subst k'. now rewrite setProp_setProp.
  - simpl in Hu.
    assert (Hne : k <> k').
    { intros ->. now rewrite String.eqb_refl in E. }
    rewrite (setProp_comm _ _ _ _ _ Hp Hne).
    apply IH; [|assumption].
    rewrite hasKey_setProp, Hp. reflexivity.
Qed.

Lemma assignAll_untouched us : forall p k v,
  hasKey p k = true -> hasKey us k = false ->
  setProp (assignAll p us) k v = assignAll (setProp p k v) us.
Proof.
  induction us as [|[k' v'] r IH]; simpl; intros p k v Hp Hu;
    [reflexivity|].
  apply orb_false_elim in Hu as [E Hr].
  assert (Hne : k <> k').
  { intros ->. now rewrite String.eqb_refl in E. }
  rewrite (setProp_comm _ _ _ _ _ Hp Hne).
  apply IH; [|assumption].
  rewrite hasKey_setProp, Hp. reflexivity.
Qed.

(** Making the same assignAll twice is making them once. *)
Lemma assignAll_idempotent us : forall p,
  assignAll (assignAll p us) us = assignAll p us.
Proof.
  induction us as [|[k v] r IH]; intros p; [reflexivity|].
  change (assignAll p ((k, v) :: r)) with (assignAll (setProp p k v) r).
  set (Q := assignAll (setProp p k v) r).
  change (assignAll Q ((k, v) :: r)) with (assignAll (setProp Q k v) r).
  assert (HQ : assignAll Q r = Q) by apply IH.
  destruct (hasKey r k) eqn:Hr.
  - rewrite assignAll_overridden; try assumption.
    unfold Q. clear. generalize (setProp p k v) (hasKey_setProp_same p k v).
    induction r as [|[k' v'] r IH]; simpl; intros q Hq; [assumption|].
    apply IH. rewrite hasKey_setProp, Hq. reflexivity.
  - rewrite <- HQ at 2. f_equal. unfold Q.
    rewrite assignAll_untouched; try assumption.
    + now rewrite setProp_setProp.
    + apply hasKey_setProp_same.
Qed.

End ObjProps.

(* ================================================================== *)
(** * Properties of the push-down planner                              *)
(* ================================================================== *)

Module FilterProps.
Import Filter Prisma Evaluator Statements.

Lemma ownColumn_plain columnMap k mapped :
  plainColumns columnMap = true ->
  ownColumn columnMap k = Some mapped ->
  (column mapped =? "AND") = false /\ (column mapped =? "OR") = false.
Proof.
  unfold plainColumns. induction columnMap as [|[k' c] m IH]; simpl.
  - discriminate.
  - intros Hp Hl. apply andb_prop in Hp as [Hc Hm].
    destruct (k' =? k).
    + injection Hl as <-. apply andb_prop in Hc as [H1 H2].
      now rewrite (proj1 (negb_true_iff _) H1), (proj1 (negb_true_iff _) H2).
    + auto.
Qed.

Lemma lookupColumn_plain columnMap k mapped :
  plainColumns columnMap = true ->
  lookupColumn columnMap k = Some mapped ->
  (column mapped =? "AND") = false /\ (column mapped =? "OR") = false.
Proof.
  unfold lookupColumn. intros Hp.
  destruct (ownColumn columnMap k) as [c|] eqn:E.
  - intros [= <-]. now apply (ownColumn_plain columnMap k).
  - destruct (inheritedKey k); [|discriminate].
    intros [= <-]. split; reflexivity.
Qed.

(** A one-entry where clause is decided by its entry. *)
Lemma matches_single record key cond :
  matchesPrismaFilter record [(key, cond)] = matchesCondition record key cond.
Proof.
  simpl. now destruct (matchesCondition record key cond) as [[|]|].
Qed.

(** The inner loop of [matchesCondition] over a clause is
    [matchesPrismaFilter] on that clause. *)
Lemma clause_entries record f :
  (fix entries (f : Obj) : option bool :=
     match f with
     | [] => Some true
     | (k, c) :: r' =>
         match matchesCondition record k c with
         | Some true => entries r'
         | other => other
         end
     end) f = matchesPrismaFilter record f.
Proof.
  induction f as [|[k c] r IH]; simpl; [reflexivity|].
  now rewrite IH.
Qed.

Lemma matches_and record lw rw :
  matchesPrismaFilter record [("AND", JArr [JObj lw; JObj rw])]
  = match matchesPrismaFilter record lw with
    | Some true => matchesPrismaFilter record rw
    | other => other
    end.
Proof.
  rewrite matches_single.
  change (matchesCondition record "AND" (JArr [JObj lw; JObj rw]))
    with (match (fix entries (f : Obj) : option bool :=
                   match f with
                   | [] => Some true
                   | (k, c) :: r' =>
                       match matchesCondition record k c with
                       | Some true => entries r'
                       | other => other
                       end
                   end) lw with
          | Some true =>
              match (fix entries (f : Obj) : option bool :=
                       match f with
                       | [] => Some true
                       | (k, c) :: r' =>
                           match matchesCondition record k c with
                           | Some true => entries r'
                           | other => other
                           end
                       end) rw with
              | Some true => Some true
              | other => other
              end
          | other => other
          end).
  rewrite !clause_entries.
  destruct (matchesPrismaFilter record lw) as [[|]|]; try reflexivity.
  now destruct (matchesPrismaFilter record rw) as [[|]|].
Qed.

Lemma matches_or record lw rw :
  matchesPrismaFilter record [("OR", JArr [JObj lw; JObj rw])]
  = match matchesPrismaFilter record lw with
    | Some false => matchesPrismaFilter record rw
    | other => other
    end.
Proof.
  rewrite matches_single.
  change (matchesCondition record "OR" (JArr [JObj lw; JObj rw]))
    with (match (fix entries (f : Obj) : option bool :=
                   match f with
                   | [] => Some true
                   | (k, c) :: r' =>
                       match matchesCondition record k c with
                       | Some true => entries r'
                       | other => other
                       end
                   end) lw with
          | Some false =>
              match (fix entries (f : Obj) : option bool :=
                       match f with
                       | [] => Some true
                       | (k, c) :: r' =>
                           match matchesCondition record k c with
                           | Some true => entries r'
                           | other => other
                           end
                       end) rw with
              | Some false => Some false
              | other => other
              end
          | other => other
          end).
  rewrite !clause_entries.
  destruct (matchesPrismaFilter record lw) as [[|]|]; try reflexivity.
  now destruct (matchesPrismaFilter record rw) as [[|]|].
Qed.

(** On a column that is not [AND]/[OR], an entry is an equality test or an
    operator object. *)
Lemma matchesCondition_column record col cond :
  (col =? "AND") = false -> (col =? "OR") = false ->
  matchesCondition record col cond
  = match cond with
    | JObj opObj => Some (matchOperator (getProp record col) opObj)
    | JArr _ => Some (matchOperator (getProp record col) [])
    | _ => Some (matchEquality (getProp record col) cond)
    end.
Proof.
  intros HA HO. destruct cond; simpl; rewrite HA, HO; reflexivity.
Qed.

(** The case analysis of the planner's [switch (op)]: the first test of
    the cascade in [Hw] is decided. *)
Ltac split_op Hw :=
  match type of Hw with
  | (if String.eqb ?op ?s then _ else _) = _ =>
      let E := fresh "Eop" in
      destruct (String.eqb op s) eqn:E;
      [ apply String.eqb_eq in E; subst op | ]
  end.

Ltac compare_case record col v Hw Hlit Hco :=
  try destruct (negb (isTextColumn _)); try discriminate;
  injection Hw as <-;
  rewrite matches_single, matchesCondition_column by assumption;
  unfold evalCompare, coerces in *;
  destruct (getProp record col) as [| |sb|sz|ss|sa|so];
  destruct v as [| |vb|vz|vs|va|vo];
  try discriminate; try reflexivity;
  try (cbv beta iota in Hco |- *;
       destruct (asBoolean (JStr vs)); try discriminate);
  reflexivity.

(** One pushed comparison agrees with the evaluator's, unless the
    evaluator coerces the literal. *)
Lemma compare_agrees record col ty op v w :
  (col =? "AND") = false -> (col =? "OR") = false ->
  Relations.isLiteral v || (op =? "pr") = true ->
  buildColumnFilter col ty op v = Some w ->
  coerces op (getProp record col) v = false ->
  matchesPrismaFilter record w
  = Some (evalCompare op (getProp record col) v).
Proof.
  intros HA HO Hlit Hw Hco.
  unfold buildColumnFilter in Hw.
  do 9 (split_op Hw; [ solve [compare_case record col v Hw Hlit Hco] | ]).
  split_op Hw; [|discriminate].
  injection Hw as <-.
  rewrite matches_single, matchesCondition_column by assumption.
  unfold evalCompare.
  destruct (getProp record col); reflexivity.
Qed.

(** Push-down agrees with the evaluator, for any column map. *)
Lemma pushdown_agrees columnMap record :
  plainColumns columnMap = true ->
  forall ast w,
    Relations.grammatical ast = true ->
    tryPushToDb ast columnMap = Some w ->
    columnsMirrorAttributes columnMap ast record ->
    literalsAsWritten columnMap ast record = true ->
    exists b,
      evaluateFilter ast (JObj record) = Some b /\
      matchesPrismaFilter record w = Some b.
Proof.
  intros Hplain.
  induction ast as [attr op v | op l IHl r IHr | inner _ | attr inner _];
    intros w Hg Hw Hmirror Hlit; simpl in Hw; try discriminate.
  - unfold pushCompareToDb in Hw. simpl in Hlit, Hg.
    destruct (lookupColumn columnMap (toLowerCase attr)) as [mapped|] eqn:Hl;
      [|discriminate].
    simpl in Hmirror. simpl. rewrite (Hmirror mapped Hl).
    destruct (lookupColumn_plain _ _ _ Hplain Hl) as [HA HO].
    apply negb_true_iff in Hlit.
    eexists. split; [reflexivity|].
    eapply compare_agrees; eassumption.
  - destruct Hmirror as [Hml Hmr]. simpl in Hg, Hlit.
    apply andb_prop in Hg as [Hgl Hgr].
    apply andb_prop in Hlit as [Hll Hlr].
    simpl.
    destruct (op =? "and");
      [ | destruct (op =? "or"); [ | discriminate ] ];
      destruct (tryPushToDb l columnMap) as [lw|] eqn:Hlw;
      destruct (tryPushToDb r columnMap) as [rw|] eqn:Hrw;
      try discriminate; injection Hw as <-;
      destruct (IHl lw Hgl eq_refl Hml Hll) as (bl & Hel & Hpl);
      destruct (IHr rw Hgr eq_refl Hmr Hlr) as (br & Her & Hpr).
    + rewrite matches_and, Hel, Hpl.
      destruct bl; [exists br | exists false]; auto.
    + rewrite matches_or, Hel, Hpl.
      destruct bl; [exists true | exists br]; auto.
Qed.

(** A pushable AST yields a where clause with at least one entry. *)
Lemma pushable_nonempty columnMap ast w :
  tryPushToDb ast columnMap = Some w -> w <> [].
Proof.
  destruct ast as [attr op v | op l r | inner | attr inner]; simpl;
    try discriminate.
  - unfold pushCompareToDb, buildColumnFilter.
    destruct (lookupColumn columnMap (toLowerCase attr)); [|discriminate].
    intros Hw.
    do 10 (split_op Hw;
           [ try destruct (negb (isTextColumn _)); try discriminate;
             injection Hw as <-; discriminate | ]).
    discriminate.
  - destruct (tryPushToDb l columnMap), (tryPushToDb r columnMap),
      (op =? "and"); try destruct (op =? "or"); try discriminate;
      intros [= <-]; discriminate.
Qed.

Lemma buildFilterResult_pushed ast columnMap :
  fetchAll (buildFilterResult ast columnMap) = false ->
  tryPushToDb ast columnMap = Some (dbWhere (buildFilterResult ast columnMap)).
Proof.
  unfold buildFilterResult.
  now destruct (tryPushToDb ast columnMap).
Qed.




(** C2.  A logical node with exactly one unpushable side is unpushable as
    a whole: the planner returns [null], and the filter result has an
    empty [dbWhere], [fetchAll = true] and the in-memory filter over the
    whole node. *)
Theorem logical_all_or_nothing :
  forall (columnMap : ColumnMap) (op : string) (l r : FilterNode),
    op = "and" \/ op = "or" ->
    (tryPushToDb l columnMap = None /\ tryPushToDb r columnMap <> None) \/
    (tryPushToDb l columnMap <> None /\ tryPushToDb r columnMap = None) ->
    pushLogicalToDb op l r columnMap = None /\
    dbWhere (buildFilterResult (Logical op l r) columnMap) = [] /\
    fetchAll (buildFilterResult (Logical op l r) columnMap) = true /\
    inMemoryFilter (buildFilterResult (Logical op l r) columnMap)
    = Some (Logical op l r).
Proof.
  intros columnMap op l r Hop Hone.
  assert (Hnone : tryPushToDb (Logical op l r) columnMap = None).
  { simpl.
    destruct Hone as [[Hl Hr] | [Hl Hr]];
      destruct (tryPushToDb l columnMap), (tryPushToDb r columnMap);
      try congruence;
      destruct (op =? "and"); try destruct (op =? "or"); reflexivity. }
  unfold pushLogicalToDb, buildFilterResult. rewrite Hnone. auto.
Qed.

(** [userName eq "john" and emails.value eq "x@y.com"] for users. *)
Lemma logical_all_or_nothing_witness :
  let ast := Logical "and" (Compare "userName" "eq" (JStr "john"))
                           (Compare "emails.value" "eq" (JStr "x@y.com")) in
  dbWhere (buildUserFilter (Some ast)) = [] /\
  fetchAll (buildUserFilter (Some ast)) = true /\
  inMemoryFilter (buildUserFilter (Some ast)) = Some ast.
Proof.
  intros ast.
  apply (logical_all_or_nothing USER_DB_COLUMNS "and"
           (Compare "userName" "eq" (JStr "john"))
           (Compare "emails.value" "eq" (JStr "x@y.com"))
           (or_introl eq_refl)).
  right. split; [discriminate | reflexivity].
Defined.

End FilterProps.

(* ================================================================== *)
(** * Properties of the Group PATCH engine                             *)
(* ================================================================== *)

Module GroupProps.
Import GroupPatch Statements.

Create HintDb patch discriminated.

(** ** Strict equality *)

Lemma strictEq_eq a b : strictEq a b = true -> a = b.
Proof.
  destruct a, b; simpl; try discriminate; intros H; try reflexivity.
  - now apply Bool.eqb_prop in H as ->.
  - now apply Z.eqb_eq in H as ->.
  - now apply String.eqb_eq in H as ->.
Qed.

Lemma sameValueZero_sym a b : sameValueZero a b = sameValueZero b a.
Proof.
  unfold sameValueZero.
  destruct a, b; simpl; try reflexivity.
  - now destruct b, b0.
  - apply Z.eqb_sym.
  - apply String.eqb_sym.
Qed.

Lemma sameValueZero_trans_l a b c :
  sameValueZero a b = true -> sameValueZero a c = sameValueZero b c.
Proof. intros H. now apply strictEq_eq in H as ->. Qed.

(** ** [mapSet] and [ensureUniqueMembers] *)

Lemma existsb_mapSet m x seen :
  existsb (fun y => sameValueZero (Member.value y) (Member.value x)) (mapSet seen m)
  = existsb (fun y => sameValueZero (Member.value y) (Member.value x)) seen
    || sameValueZero (Member.value m) (Member.value x).
Proof.
  induction seen as [|s r IH]; simpl.
  - now rewrite orb_false_r.
  - destruct (sameValueZero (Member.value s) (Member.value m)) eqn:E; simpl.
    + rewrite (sameValueZero_trans_l _ _ (Member.value x) E).
      destruct (sameValueZero (Member.value m) (Member.value x)); simpl;
        [reflexivity | now rewrite orb_false_r].
    + rewrite IH. now rewrite orb_assoc.
Qed.

Lemma mapSet_distinct seen m :
  distinctValues seen = true -> distinctValues (mapSet seen m) = true.
Proof.
  induction seen as [|s r IH]; simpl; [reflexivity|].
  intros H. apply andb_prop in H as [Hs Hr].
  destruct (sameValueZero (Member.value s) (Member.value m)) eqn:E; simpl.
  - rewrite Hr, andb_true_r.
    apply strictEq_eq in E. rewrite <- E. assumption.
  - rewrite (IH Hr), andb_true_r, existsb_mapSet.
    apply negb_true_iff in Hs. rewrite Hs. simpl.
    now rewrite sameValueZero_sym, E.
Qed.

Lemma fold_mapSet_distinct l acc :
  distinctValues acc = true ->
  distinctValues (fold_left mapSet l acc) = true.
Proof.
  revert acc. induction l as [|m r IH]; simpl; intros acc H;
    [assumption|].
  apply IH. now apply mapSet_distinct.
Qed.

Lemma ensureUniqueMembers_distinct l :
  distinctValues (ensureUniqueMembers l) = true.
Proof. now apply fold_mapSet_distinct. Qed.

Lemma lastWithValue_absent v l :
  existsb (fun x => sameValueZero (Member.value x) v) l = false ->
  lastWithValue v l = None.
Proof.
  induction l as [|m r IH]; simpl; [reflexivity|].
  intros H. apply orb_false_elim in H as [Hm Hr].
  now rewrite (IH Hr), Hm.
Qed.

Lemma lastWithValue_mapSet v seen m :
  distinctValues seen = true ->
  lastWithValue v (mapSet seen m)
  = if sameValueZero (Member.value m) v then Some m else lastWithValue v seen.
Proof.
  induction seen as [|s r IH]; simpl; [reflexivity|].
  intros H. apply andb_prop in H as [Hs Hr].
  apply negb_true_iff in Hs.
  destruct (sameValueZero (Member.value s) (Member.value m)) eqn:E; simpl.
  - apply strictEq_eq in E.
    destruct (sameValueZero (Member.value m) v) eqn:Ev.
    + rewrite lastWithValue_absent; [reflexivity|].
      apply strictEq_eq in Ev. now rewrite <- Ev, <- E.
    + rewrite E, Ev. reflexivity.
  - rewrite (IH Hr).
    destruct (sameValueZero (Member.value m) v) eqn:Ev; [reflexivity|].
    reflexivity.
Qed.

Lemma lastWithValue_app v a b :
  lastWithValue v (a ++ b)
  = match lastWithValue v b with
    | Some x => Some x
    | None => lastWithValue v a
    end.
Proof.
  induction a as [|m r IH]; simpl.
  - now destruct (lastWithValue v b).
  - rewrite IH. now destruct (lastWithValue v b).
Qed.

Lemma lastWithValue_fold v l acc :
  distinctValues acc = true ->
  lastWithValue v (fold_left mapSet l acc) = lastWithValue v (acc ++ l).
Proof.
  revert acc. induction l as [|m r IH]; simpl; intros acc H.
  - now rewrite app_nil_r.
  - rewrite (IH _ (mapSet_distinct _ m H)).
    rewrite !lastWithValue_app. simpl.
    destruct (lastWithValue v r); [reflexivity|].
    rewrite lastWithValue_mapSet by assumption.
    now destruct (sameValueZero (Member.value m) v).
Qed.

(** De-duplication keeps, for every value, the last entry supplied. *)
Lemma lastWithValue_ensureUnique v l :
  lastWithValue v (ensureUniqueMembers l) = lastWithValue v l.
Proof. unfold ensureUniqueMembers. now rewrite lastWithValue_fold. Qed.

(** In a list without duplicates the first and the last entry of a value
    are the same one. *)
Lemma find_last_distinct v l :
  distinctValues l = true -> findWithValue v l = lastWithValue v l.
Proof.
  induction l as [|m r IH]; simpl; [reflexivity|].
  intros H. apply andb_prop in H as [Hm Hr].
  apply negb_true_iff in Hm.
  destruct (sameValueZero (Member.value m) v) eqn:E.
  - rewrite lastWithValue_absent; [reflexivity|].
    apply strictEq_eq in E. now rewrite <- E.
  - rewrite (IH Hr). now destruct (lastWithValue v r).
Qed.

(** ** The engine's steps *)

Lemma pathIs_other p a b :
  pathIs p a = true -> a <> b -> pathIs p b = false.
Proof.
  destruct p as [x|]; simpl; [|discriminate].
  intros Ha Hne. apply String.eqb_eq in Ha. subst x.
  now apply String.eqb_neq.
Qed.

Lemma isOp_lowered operation name :
  isOp operation name = true -> lowered (op operation) = Some name.
Proof.
  unfold isOp. destruct (lowered (op operation)); [|discriminate].
  intros H. now apply String.eqb_eq in H as ->.
Qed.

Lemma applyOperation_add config st operation :
  isOp operation "add" = true ->
  applyOperation config st operation
  = (ms <- handleAdd operation (members st) (allowMultiMemberAdd config) ;;
     Ok {| displayName := displayName st; externalId := externalId st;
           members := ms; rawPayload := rawPayload st |}).
Proof.
  intros H. unfold applyOperation. now rewrite (isOp_lowered _ _ H).
Qed.

Lemma applyOperation_replace config st operation :
  isOp operation "replace" = true ->
  applyOperation config st operation
  = handleReplace operation (displayName st) (externalId st)
                  (members st) (rawPayload st).
Proof.
  intros H. unfold applyOperation. now rewrite (isOp_lowered _ _ H).
Qed.

Lemma applyOperation_remove config st operation :
  isOp operation "remove" = true ->
  applyOperation config st operation
  = (ms <- handleRemove operation (members st)
             (allowMultiMemberRemove config) (allowRemoveAllMembers config) ;;
     Ok {| displayName := displayName st; externalId := externalId st;
           members := ms; rawPayload := rawPayload st |}).
Proof.
  intros H. unfold applyOperation. now rewrite (isOp_lowered _ _ H).
Qed.

Lemma mapM_toMemberDto items l :
  mapM toMemberDto items = Ok l -> l = map memberOf items.
Proof.
  revert l. induction items as [|x r IH]; simpl; intros l H.
  - now injection H as <-.
  - destruct x as [| | | | | |o]; try discriminate.
    simpl in H. destruct (hasKey o "value"); [|discriminate].
    simpl in H. destruct (mapM toMemberDto r) as [ys|]; [|discriminate].
    simpl in H. injection H as <-. now rewrite (IH ys eq_refl).
Qed.

(** What an accepted [add] returns. *)
Lemma handleAdd_ok operation ms allow ms' :
  handleAdd operation ms allow = Ok ms' ->
  ms' = ensureUniqueMembers (ms ++ map memberOf (addedEntries operation)).
Proof.
  unfold handleAdd, addedEntries.
  destruct (negb (missing (lowered (path operation))) &&
            negb (pathIs (lowered (path operation)) "members"));
    [discriminate|].
  destruct (negb (truthy (value operation))); [discriminate|].
  match goal with
  | |- context [if ?c then throw _ _ else _] => destruct c; [discriminate|]
  end.
  destruct (mapM toMemberDto _) as [l|] eqn:E; [|discriminate].
  simpl. intros [= <-]. now rewrite (mapM_toMemberDto _ _ E).
Qed.

(** What an accepted [replace] does to the member list. *)
Lemma handleReplace_members operation dn ex ms raw st' :
  handleReplace operation dn ex ms raw = Ok st' ->
  members st'
  = match replacedEntries operation with
    | Some l => ensureUniqueMembers (map memberOf l)
    | None => ms
    end.
Proof.
  unfold handleReplace, replacedEntries.
  destruct (missing (lowered (path operation))).
  - destruct (value operation) as [| | | |s|items|o]; simpl;
      try discriminate.
    + now intros [= <-].
    + destruct (getProp (indexed 0 items) "members") as [| | | | |ms0|];
        simpl; try (now intros [= <-]).
      destruct (mapM toMemberDto ms0) as [l|] eqn:E; [|discriminate].
      simpl. intros [= <-]. simpl. now rewrite (mapM_toMemberDto _ _ E).
    + destruct (getProp o "members") as [| | | | |ms0|];
        simpl; try (now intros [= <-]).
      destruct (mapM toMemberDto ms0) as [l|] eqn:E; [|discriminate].
      simpl. intros [= <-]. simpl. now rewrite (mapM_toMemberDto _ _ E).
  - destruct (pathIs (lowered (path operation)) "displayname") eqn:Ed;
      [ rewrite (pathIs_other _ _ "members" Ed) by discriminate;
        destruct (value operation); simpl; try discriminate;
        now intros [= <-] | ].
    destruct (pathIs (lowered (path operation)) "externalid") eqn:Ee;
      [ rewrite (pathIs_other _ _ "members" Ee) by discriminate;
        destruct (value operation); simpl; now intros [= <-] | ].
    destruct (pathIs (lowered (path operation)) "members");
      [|discriminate].
    destruct (value operation) as [| | | | |items|]; try discriminate.
    destruct (mapM toMemberDto items) as [l|] eqn:E; [|discriminate].
    simpl. intros [= <-]. simpl. now rewrite (mapM_toMemberDto _ _ E).
Qed.

(** One accepted [add] or [replace]: the member list afterwards. *)
Lemma step_members config st operation st' :
  isOp operation "add" || isOp operation "replace" = true ->
  applyOperation config st operation = Ok st' ->
  members st'
  = if suppliesMembers operation
    then ensureUniqueMembers (suppliedBy (members st) operation)
    else members st.
Proof.
  intros Hop Hrun. unfold suppliesMembers, suppliedBy.
  destruct (isOp operation "add") eqn:Ha; simpl in *.
  - rewrite applyOperation_add in Hrun by assumption.
    destruct (handleAdd _ _ _) as [ms|] eqn:E; [|discriminate].
    injection Hrun as <-. simpl. now apply handleAdd_ok in E.
  - rewrite Hop.
    rewrite applyOperation_replace in Hrun by assumption.
    apply handleReplace_members in Hrun. rewrite Hrun.
    now destruct (replacedEntries operation).
Qed.

Lemma step_supplied_last operation ms seq v :
  (forall v, lastWithValue v ms = lastWithValue v seq) ->
  lastWithValue v (suppliedBy ms operation)
  = lastWithValue v (suppliedBy seq operation).
Proof.
  intros Hrel. unfold suppliedBy.
  destruct (isOp operation "add").
  - now rewrite !lastWithValue_app, Hrel.
  - destruct (isOp operation "replace"); [|apply Hrel].
    destruct (replacedEntries operation); [reflexivity | apply Hrel].
Qed.

Lemma suppliedBy_idle operation seq :
  suppliesMembers operation = false -> suppliedBy seq operation = seq.
Proof.
  unfold suppliesMembers, suppliedBy.
  destruct (isOp operation "add"); [discriminate|].
  destruct (isOp operation "replace"); [|reflexivity].
  now destruct (replacedEntries operation).
Qed.

Lemma run_members config operations :
  forall st st' seq,
    forallb (fun o => isOp o "add" || isOp o "replace") operations = true ->
    applyOperations config operations st = Ok st' ->
    (forall v, lastWithValue v (members st) = lastWithValue v seq) ->
    distinctValues (members st) = true \/
    existsb suppliesMembers operations = true ->
    distinctValues (members st') = true /\
    forall v, lastWithValue v (members st')
              = lastWithValue v (fold_left suppliedBy operations seq).
Proof.
  induction operations as [|o r IH]; simpl; intros st st' seq Hall Hrun Hrel Hd.
  - injection Hrun as <-. split; [|assumption].
    destruct Hd as [Hd|Hd]; [assumption | discriminate].
  - apply andb_prop in Hall as [Ho Hr].
    destruct (applyOperation config st o) as [st1|] eqn:E; [|discriminate].
    simpl in Hrun.
    pose proof (step_members _ _ _ _ Ho E) as Hm.
    destruct (suppliesMembers o) eqn:Es.
    + apply (IH st1 st' _ Hr Hrun).
      * intros v. rewrite Hm, lastWithValue_ensureUnique.
        now apply step_supplied_last.
      * left. rewrite Hm. apply ensureUniqueMembers_distinct.
    + rewrite (suppliedBy_idle _ _ Es).
      apply (IH st1 st' _ Hr Hrun).
      * intros v. rewrite Hm. apply Hrel.
      * rewrite Hm. simpl in Hd. assumption.
Qed.

(** C4 (as amended).  For every sequence of add/replace operations the
    engine accepts, on a state whose member list has no duplicate values
    or with at least one operation that supplies members: the returned
    member list has no two entries with the same [value], and the entry
    it holds for a value is the last one supplied for that value. *)
Theorem member_set_dedup :
  forall (config : GroupMemberPatchConfig) (operations : list PatchOperation)
         (state : GroupPatchState) (res : Res.GroupPatchResult),
    forallb (fun o => isOp o "add" || isOp o "replace") operations = true ->
    apply operations state config = Ok res ->
    distinctValues (members state) = true \/
    existsb suppliesMembers operations = true ->
    distinctValues (Res.members res) = true /\
    forall v, findWithValue v (Res.members res)
              = lastWithValue v (suppliedSequence state operations).
Proof.
  intros config operations state res Hall Hrun Hd.
  unfold apply in Hrun.
  destruct (applyOperations config operations _) as [st|] eqn:E;
    [|discriminate].
  injection Hrun as <-. simpl.
  destruct (run_members config operations _ st (members state) Hall E
              (fun v => eq_refl) Hd) as [Hdist Hlast].
  split; [assumption|].
  intros v. rewrite find_last_distinct by assumption. apply Hlast.
Qed.

(** Two adds of the member [a], the second with another display name. *)
Lemma member_set_dedup_witness :
  apply [Samples.addFirst; Samples.addSecond] Samples.emptyGroup
        Samples.strictConfig = Ok Samples.onceWithSecond /\
  distinctValues (Res.members Samples.onceWithSecond) = true /\
  forall v, findWithValue v (Res.members Samples.onceWithSecond)
            = lastWithValue v
                (suppliedSequence Samples.emptyGroup
                   [Samples.addFirst; Samples.addSecond]).
Proof.
  split; [reflexivity|].
  exact (member_set_dedup Samples.strictConfig
           [Samples.addFirst; Samples.addSecond] Samples.emptyGroup
           Samples.onceWithSecond eq_refl eq_refl (or_introl eq_refl)).
Defined.

(** C4 as stated fails on a state that already holds a duplicate: an
    accepted [replace] of [displayName] returns the member list as it
    is. *)
Lemma member_set_dedup_counterexample :
  ~ (forall (config : GroupMemberPatchConfig)
            (operations : list PatchOperation)
            (state : GroupPatchState) (res : Res.GroupPatchResult),
       forallb (fun o => isOp o "add" || isOp o "replace") operations = true ->
       apply operations state config = Ok res ->
       distinctValues (Res.members res) = true).
Proof.
  intros H.
  specialize (H Samples.defaultConfig [Samples.renameToSales] Samples.doubled
                {| Res.displayName := "Sales"; Res.externalId := None;
                   Res.payload := [];
                   Res.members := [Samples.bare "a"; Samples.bare "a"] |}
                eq_refl eq_refl).
  discriminate.
Qed.

(** ** Frame of [add] *)

Lemma applyOperations_app config a : forall b st,
  applyOperations config (a ++ b) st
  = (st' <- applyOperations config a st ;; applyOperations config b st').
Proof.
  induction a as [|o r IH]; simpl; intros b st; [reflexivity|].
  destruct (applyOperation config st o); simpl; [apply IH | reflexivity].
Qed.

Lemma run_add_frame config operations : forall st st',
  forallb (fun o => isOp o "add") operations = true ->
  applyOperations config operations st = Ok st' ->
  displayName st' = displayName st /\
  externalId st' = externalId st /\
  rawPayload st' = rawPayload st.
Proof.
  induction operations as [|o r IH]; simpl; intros st st' Hall Hrun.
  - injection Hrun as <-. auto.
  - apply andb_prop in Hall as [Ho Hr].
    rewrite applyOperation_add in Hrun by assumption.
    destruct (handleAdd _ _ _) as [ms|]; [|discriminate].
    simpl in Hrun. destruct (IH _ _ Hr Hrun) as (H1 & H2 & H3).
    simpl in *. auto.
Qed.

(** C10.  A batch of [add] operations the engine accepts changes the
    member list only: the returned [displayName], [externalId] and
    payload are those of the input state. *)
Theorem add_changes_members_only :
  forall (config : GroupMemberPatchConfig) (operations : list PatchOperation)
         (state : GroupPatchState) (res : Res.GroupPatchResult),
    forallb (fun o => isOp o "add") operations = true ->
    apply operations state config = Ok res ->
    Res.displayName res = displayName state /\
    Res.externalId res = externalId state /\
    Res.payload res = rawPayload state.
Proof.
  intros config operations state res Hall Hrun. unfold apply in Hrun.
  destruct (applyOperations config operations _) as [st|] eqn:E;
    [|discriminate].
  injection Hrun as <-. simpl.
  apply (run_add_frame config operations _ st Hall E).
Qed.

Lemma add_changes_members_only_witness :
  apply [Samples.addTwo] Samples.engineering Samples.defaultConfig
  = Ok Samples.engineeringPlusTwo /\
  Res.displayName Samples.engineeringPlusTwo
  = displayName Samples.engineering /\
  Res.externalId Samples.engineeringPlusTwo
  = externalId Samples.engineering /\
  Res.payload Samples.engineeringPlusTwo = rawPayload Samples.engineering.
Proof.
  split; [reflexivity|].
  exact (add_changes_members_only Samples.defaultConfig [Samples.addTwo]
           Samples.engineering Samples.engineeringPlusTwo eq_refl eq_refl).
Defined.

(** ** The multi-member gate *)

(** C6.  With [allowMultiMemberAdd] off, an [add] on the member list
    (path [members] in any letter case, or no path) that carries an array
    of more than one entry makes [handleAdd] throw [invalidValue] whatever
    the members are, and so does the whole batch once the operations
    before it have been accepted: no result, hence no member list with
    part of the entries, is returned. *)
Theorem multi_member_add_rejected :
  forall (config : GroupMemberPatchConfig)
         (before after : list PatchOperation) (operation : PatchOperation)
         (state st : GroupPatchState) (items : list JValue),
    allowMultiMemberAdd config = false ->
    isOp operation "add" = true ->
    missing (lowered (path operation)) = true \/
    pathIs (lowered (path operation)) "members" = true ->
    value operation = JArr items ->
    (1 < List.length items)%nat ->
    applyOperations config before state = Ok st ->
    (forall ms, handleAdd operation ms (allowMultiMemberAdd config)
                = throw 400 invalidValue) /\
    apply (before ++ operation :: after) state config = throw 400 invalidValue.
Proof.
  intros config before after operation state st items
         Hflag Hop Hpath Hval Hlen Hbefore.
  assert (Hadd : forall ms, handleAdd operation ms (allowMultiMemberAdd config)
                            = throw 400 invalidValue).
  { intros ms. unfold handleAdd. rewrite Hflag, Hval.
    replace (negb (missing (lowered (path operation))) &&
             negb (pathIs (lowered (path operation)) "members")) with false
      by (destruct Hpath as [-> | ->]; simpl;
          [reflexivity | now rewrite andb_false_r]).
    simpl. apply Nat.ltb_lt in Hlen. now rewrite Hlen. }
  split; [assumption|].
  unfold apply. rewrite applyOperations_app. simpl in Hbefore.
  destruct state; simpl in *. rewrite Hbefore. simpl.
  rewrite applyOperation_add by assumption. now rewrite Hadd.
Qed.

(** Scenario 4. *)
Lemma multi_member_add_rejected_witness :
  apply [Samples.addTwo] Samples.engineering Samples.strictConfig
  = throw 400 invalidValue.
Proof.
  exact (proj2 (multi_member_add_rejected Samples.strictConfig [] []
                  Samples.addTwo Samples.engineering Samples.engineering
                  [Samples.ref "u1"; Samples.ref "u2"]
                  eq_refl eq_refl (or_intror eq_refl) eq_refl
                  (le_n 2) eq_refl)).
Defined.

(** ** Unsupported paths *)

(** [add] and [replace] reject every path that names no supported
    target, whatever the value; [remove] does so when its value is not a
    non-empty array. *)
Lemma unsupported_path_rejected :
  forall (config : GroupMemberPatchConfig) (st : GroupPatchState)
         (operation : PatchOperation),
    let p := lowered (path operation) in
    missing p = false ->
    pathIs p "members" = false ->
    pathIs p "displayname" = false ->
    pathIs p "externalid" = false ->
    memberPathMatch p = None ->
    (isOp operation "add" = true \/ isOp operation "replace" = true ->
     applyOperation config st operation = throw 400 invalidPath) /\
    (isOp operation "remove" = true ->
     (forall x r, value operation <> JArr (x :: r)) ->
     applyOperation config st operation = throw 400 invalidPath).
Proof.
  intros config st operation p Hmiss Hm Hd He Hmatch. split.
  - intros [Hop|Hop].
    + rewrite applyOperation_add by assumption.
      unfold handleAdd. fold p. now rewrite Hmiss, Hm.
    + rewrite applyOperation_replace by assumption.
      unfold handleReplace. fold p. now rewrite Hmiss, Hd, He, Hm.
  - intros Hop Hval.
    rewrite applyOperation_remove by assumption.
    unfold handleRemove. fold p. rewrite Hmatch, Hm.
    destruct (value operation) as [| | | | |[|x r]|]; try reflexivity.
    now destruct (Hval x r).
Qed.

Lemma otherTarget_parts operation :
  otherTarget operation = true ->
  let p := lowered (path operation) in
  missing p = false /\ pathIs p "members" = false /\
  pathIs p "displayname" = false /\ pathIs p "externalid" = false /\
  memberPathMatch p = None.
Proof.
  intros H p. unfold otherTarget in H. fold p in H.
  repeat (apply andb_prop in H as [H ?]).
  repeat match goal with
         | X : negb _ = true |- _ => apply negb_true_iff in X
         end.
  destruct (memberPathMatch p); [discriminate|]. auto.
Qed.

(** C5 holds for [add] and [replace], and fails for [remove]: the branch
    for a non-empty value array runs before any look at the path.  For
    every operation whose path is present and names none of [members],
    [displayName], [externalId] and no member filter: an [add], a
    [replace], and a [remove] whose value is not a non-empty array are
    rejected with [invalidPath]; a [remove] with a non-empty value array
    is never rejected with [invalidPath]: it is rejected with
    [invalidValue] when the array has several items and
    [allowMultiMemberRemove] is off, and otherwise accepted, removing
    the listed members. *)
Theorem remove_with_values_ignores_path :
  forall (config : GroupMemberPatchConfig) (operation : PatchOperation)
         (state : GroupPatchState),
    otherTarget operation = true ->
    (isOp operation "add" = true \/ isOp operation "replace" = true \/
     (isOp operation "remove" = true /\
      Relations.carriesArray operation = false) ->
     apply [operation] state config = throw 400 invalidPath) /\
    (forall item others,
       isOp operation "remove" = true ->
       value operation = JArr (item :: others) ->
       apply [operation] state config
       = if negb (allowMultiMemberRemove config) &&
            (1 <? List.length (item :: others))%nat
         then throw 400 invalidValue
         else
           Ok {| Res.displayName := displayName state;
                 Res.externalId := externalId state;
                 Res.payload := rawPayload state;
                 Res.members :=
                   filter
                     (fun m =>
                        negb (setHas (membersToRemove (item :: others))
                                (Member.value m)))
                     (members state) |}).
Proof.
  intros config operation state Hother.
  destruct (otherTarget_parts _ Hother) as (Hmiss & Hm & Hd & He & Hmatch).
  set (st := {| displayName := displayName state;
                externalId := externalId state;
                members := members state;
                rawPayload := rawPayload state |}).
  destruct (unsupported_path_rejected config st operation
              Hmiss Hm Hd He Hmatch) as [Hwrite Hremove].
  split.
  - intros Hop. unfold apply. fold st. simpl.
    assert (Hstep : applyOperation config st operation
                    = throw 400 invalidPath).
    { destruct Hop as [Hop|[Hop|[Hop Harr]]].
      - apply Hwrite. now left.
      - apply Hwrite. now right.
      - apply Hremove; [assumption|].
        intros x r Hv. unfold Relations.carriesArray in Harr.
        rewrite Hv in Harr. discriminate. }
    now rewrite Hstep.
  - intros item others Hop Hval. unfold apply. fold st. simpl.
    rewrite applyOperation_remove by assumption.
    unfold handleRemove. rewrite Hval.
    destruct (allowMultiMemberRemove config), others; reflexivity.
Qed.

(** [remove] at [nickName] with the value array [[{value:user-1}]], on
    the group of [user-1] and [user-2]: accepted, and [user-1] is
    removed. *)
Lemma remove_with_values_ignores_path_witness :
  apply [Samples.removeByValueAtNickName] Samples.engineering
        Samples.strictConfig
  = Ok {| Res.displayName := "Engineering";
          Res.externalId := Some "grp-001";
          Res.payload := [];
          Res.members := [Samples.member "user-2" "User user-2"] |}.
Proof.
  exact (proj2 (remove_with_values_ignores_path Samples.strictConfig
                  Samples.removeByValueAtNickName Samples.engineering
                  eq_refl)
               (Samples.ref "user-1") [] eq_refl eq_refl).
Defined.

(** ** Idempotence of [replace] *)

Lemma storeOthers_assignAll obj : forall p,
  storeOthers p obj
  = assignAll p
      (filter (fun e => negb (fst e =? "displayName") &&
                        negb (fst e =? "externalId") &&
                        negb (fst e =? "members") &&
                        negb (fst e =? "schemas")) obj).
Proof.
  unfold storeOthers, assignAll.
  induction obj as [|[k v] r IH]; simpl; intros p; [reflexivity|].
  destruct (negb (k =? "displayName") && negb (k =? "externalId") &&
            negb (k =? "members") && negb (k =? "schemas")); simpl;
    apply IH.
Qed.

Lemma storeOthers_idempotent p obj :
  storeOthers (storeOthers p obj) obj = storeOthers p obj.
Proof.
  rewrite !storeOthers_assignAll. apply ObjProps.assignAll_idempotent.
Qed.

(** A [replace] that is accepted is accepted again on its own outcome
    and leaves it as it is. *)
Lemma handleReplace_idempotent operation dn ex ms raw st :
  handleReplace operation dn ex ms raw = Ok st ->
  handleReplace operation (displayName st) (externalId st) (members st)
                (rawPayload st) = Ok st.
Proof.
  unfold handleReplace.
  destruct (missing (lowered (path operation))).
  - destruct (value operation) as [| | | |s|items|o]; simpl;
      try discriminate.
    + now intros [= <-].
    + set (obj := indexed 0 items).
      destruct (match getProp obj "members" with
                | JArr ms0 =>
                    normalized <- mapM toMemberDto ms0 ;;
                    Ok (ensureUniqueMembers normalized)
                | _ => Ok ms
                end) as [ms1|] eqn:E; [|discriminate].
      simpl. intros [= <-]. simpl.
      rewrite storeOthers_idempotent.
      destruct (getProp obj "members") as [| | | | |ms0|];
        try (injection E as <-; simpl;
             destruct (getProp obj "displayName"), (hasKey obj "externalId");
             reflexivity).
      rewrite E. simpl.
      destruct (getProp obj "displayName"), (hasKey obj "externalId");
        reflexivity.
    + set (obj := o).
      destruct (match getProp obj "members" with
                | JArr ms0 =>
                    normalized <- mapM toMemberDto ms0 ;;
                    Ok (ensureUniqueMembers normalized)
                | _ => Ok ms
                end) as [ms1|] eqn:E; [|discriminate].
      simpl. intros [= <-]. simpl.
      rewrite storeOthers_idempotent.
      destruct (getProp obj "members") as [| | | | |ms0|];
        try (injection E as <-; simpl;
             destruct (getProp obj "displayName"), (hasKey obj "externalId");
             reflexivity).
      rewrite E. simpl.
      destruct (getProp obj "displayName"), (hasKey obj "externalId");
        reflexivity.
  - destruct (pathIs (lowered (path operation)) "displayname").
    { destruct (value operation); try discriminate. now intros [= <-]. }
    destruct (pathIs (lowered (path operation)) "externalid").
    { now intros [= <-]. }
    destruct (pathIs (lowered (path operation)) "members"); [|discriminate].
    destruct (value operation) as [| | | | |items|]; try discriminate.
    destruct (mapM toMemberDto items) as [l|]; [|discriminate].
    simpl. now intros [= <-].
Qed.

Lemma group_replace_idempotent config operation state res :
  isOp operation "replace" = true ->
  apply [operation] state config = Ok res ->
  apply [operation] (stateOfResult res) config = Ok res.
Proof.
  intros Hop. unfold apply. simpl.
  rewrite !applyOperation_replace by assumption. simpl.
  destruct (handleReplace operation (displayName state) (externalId state)
              (members state) (rawPayload state)) as [st|] eqn:E;
    [|discriminate].
  simpl. intros [= <-]. simpl.
  rewrite (handleReplace_idempotent _ _ _ _ _ _ E). reflexivity.
Qed.

End GroupProps.

(* ================================================================== *)
(** * Properties of the User PATCH engine                              *)
(* ================================================================== *)

Module UserProps.
Import UserPatch Statements.

(** ** Boolean coercion *)

Lemma stringOfZ_not_active z : (stringOfZ z =? "active") = false.
Proof.
  unfold stringOfZ. destruct (Z.to_int z) as [d|d]; simpl;
    destruct d; reflexivity.
Qed.

Lemma indexed_no_active items : forall i,
  hasKey (indexed i items) "active" = false.
Proof.
  induction items as [|x r IH]; simpl; intros i; [reflexivity|].
  now rewrite stringOfZ_not_active, IH.
Qed.

Lemma boolOfString_true s :
  toLowerCase s = "true" -> boolOfString s = Some true.
Proof. unfold boolOfString. now intros ->. Qed.

Lemma boolOfString_false s :
  toLowerCase s = "false" -> boolOfString s = Some false.
Proof. unfold boolOfString. now intros ->. Qed.

Lemma boolOfString_like s b :
  boolOfString s = Some b -> boolLike (JStr s) b.
Proof.
  unfold boolOfString.
  destruct (toLowerCase s =? "true") eqn:Et.
  - intros [= <-]. apply like_true. now apply String.eqb_eq.
  - destruct (toLowerCase s =? "false") eqn:Ef; [|discriminate].
    intros [= <-]. apply like_false. now apply String.eqb_eq.
Qed.

Lemma boolLike_extract v b :
  boolLike v b -> extractBooleanValue v = Ok b.
Proof.
  intros [b'|s H|s H]; simpl; [reflexivity| |].
  - now rewrite (boolOfString_true _ H).
  - now rewrite (boolOfString_false _ H).
Qed.

(** The extractor accepts what coerces, with that boolean. *)
Lemma extractBooleanValue_accepts v b :
  coercesTo v b -> extractBooleanValue v = Ok b.
Proof.
  intros [v' b' H | o v' b' Hk Hg H].
  - now apply boolLike_extract.
  - simpl. rewrite Hk, Hg.
    destruct H as [b''|s H|s H]; [reflexivity| |].
    + now rewrite (boolOfString_true _ H).
    + now rewrite (boolOfString_false _ H).
Qed.

(** The extractor accepts nothing else, and then goes to its final
    [throw]. *)
Lemma extractBooleanValue_cases v :
  (exists b, extractBooleanValue v = Ok b /\ coercesTo v b) \/
  extractBooleanValue v = notBoolean v.
Proof.
  destruct v as [| |b|z|s|items|o]; simpl; auto.
  - left. exists b. split; [reflexivity|]. apply coerces_direct, like_bool.
  - destruct (boolOfString s) as [b|] eqn:E; [|now right].
    left. exists b. split; [reflexivity|].
    apply coerces_direct. now apply boolOfString_like.
  - rewrite indexed_no_active. now right.
  - destruct (hasKey o "active") eqn:Hk; [|now right].
    destruct (getProp o "active") as [| |b|z|s|items|o'] eqn:Hg; auto.
    + left. exists b. split; [reflexivity|].
      eapply coerces_nested; eauto. apply like_bool.
    + destruct (boolOfString s) as [b|] eqn:E; [|now right].
      left. exists b. split; [reflexivity|].
      eapply coerces_nested; eauto. now apply boolOfString_like.
Qed.

Section WithPaths.

Variable P : ScimPatchPath.

Lemma applyOperation_add_or_replace config st operation :
  isOp operation "add" = true \/ isOp operation "replace" = true ->
  exists o, (o = "add" \/ o = "replace") /\
    applyOperation P config st operation
    = applyAddOrReplace P o (path operation) (lowered (path operation))
        (value operation) st config.
Proof.
  intros [H|H]; unfold applyOperation; rewrite (GroupProps.isOp_lowered _ _ H);
    simpl; eauto.
Qed.

(** C7.  An [add] or [replace] on [active], the path in any letter case:
    a value that is a boolean, the word true or false in any letter
    case, or an object whose [active] property is one of these, sets the
    extracted [active] field to that boolean; in particular
    [replace active "False"] yields [false].  Any other value is
    rejected, but not always with [invalidValue]: the message of that
    failure holds [String(value)], and where this cannot be evaluated (an
    object that has a [toString] property, or an array with such an
    item) the engine raises the [TypeError] of the runtime instead. *)
Theorem active_coercion :
  forall (config : PatchConfig) (operation : PatchOperation)
         (state : UserPatchState),
    isOp operation "add" = true \/ isOp operation "replace" = true ->
    lowered (path operation) = Some "active" ->
    (forall b, coercesTo (value operation) b ->
       exists res, apply P [operation] state config = Ok res /\
                   Res.active (Res.extractedFields res) = b) /\
    ((forall b, ~ coercesTo (value operation) b) ->
       apply P [operation] state config
       = if stringThrows (value operation) then Throw TypeError
         else throw 400 invalidValue) /\
    (exists res, apply P [Samples.deactivate] state config = Ok res /\
                 Res.active (Res.extractedFields res) = false).
Proof.
  intros config operation state Hop Hpath.
  destruct (applyOperation_add_or_replace config state operation Hop)
    as (o & _ & Hrun).
  unfold apply. simpl. rewrite Hrun.
  unfold applyAddOrReplace. rewrite Hpath. simpl.
  split; [|split].
  - intros b Hb. rewrite (extractBooleanValue_accepts _ _ Hb). simpl.
    eexists. split; reflexivity.
  - intros Hnone.
    destruct (extractBooleanValue_cases (value operation))
      as [(b & _ & Hb) | ->]; [now destruct (Hnone b)|].
    unfold notBoolean. now destruct (stringThrows (value operation)).
  - eexists. split; reflexivity.
Qed.

(** ** Reserved attributes *)

Lemma serverManaged_reserved key :
  serverManaged key = true -> reservedHas (toLowerCase key) = true.
Proof.
  unfold serverManaged.
  destruct (toLowerCase key =? "id") eqn:E1;
    [apply String.eqb_eq in E1; now rewrite E1|].
  destruct (toLowerCase key =? "username") eqn:E2;
    [apply String.eqb_eq in E2; now rewrite E2|].
  destruct (toLowerCase key =? "externalid") eqn:E3;
    [apply String.eqb_eq in E3; now rewrite E3|].
  destruct (toLowerCase key =? "active") eqn:E4;
    [apply String.eqb_eq in E4; now rewrite E4|].
  discriminate.
Qed.

Lemma stripped_keys payload key :
  In key (keys (stripReservedAttributes payload)) ->
  serverManaged key = false.
Proof.
  unfold keys, stripReservedAttributes. rewrite in_map_iff.
  intros ((k, v) & <- & Hin). apply filter_In in Hin as [_ Hkeep].
  simpl in *. apply andb_prop in Hkeep as [_ Hlow].
  destruct (serverManaged k) eqn:E; [|reflexivity].
  now rewrite (serverManaged_reserved _ E) in Hlow.
Qed.

(** C8.  Whatever the operations wrote, the payload a successful
    [apply] returns has no key equal, without regard to letter case, to
    [id], [userName], [externalId] or [active]. *)
Theorem reserved_keys_stripped :
  forall (config : PatchConfig) (operations : list PatchOperation)
         (state : UserPatchState) (res : Res.UserPatchResult),
    apply P operations state config = Ok res ->
    forall key, In key (keys (Res.payload res)) -> serverManaged key = false.
Proof.
  intros config operations state res Hrun key Hin. unfold apply in Hrun.
  destruct (applyOperations P config operations state) as [st|];
    [|discriminate].
  injection Hrun as <-. simpl in Hin. now apply stripped_keys in Hin.
Qed.

End WithPaths.

(** [replace active] with the object [{ toString: x }] raises a
    [TypeError], where [replace active] with the number 1 is rejected
    with [invalidValue]. *)
Lemma active_coercion_witness :
  apply Samples.samplePaths [Samples.activeFromObject] Samples.jdoe
        Samples.plainPatch = Throw TypeError /\
  apply Samples.samplePaths [Samples.activeFromNumber] Samples.jdoe
        Samples.plainPatch = throw 400 invalidValue.
Proof.
  assert (Hnot : forall v, (forall b, ~ boolLike v b) -> asRecord v = None \/
                   (exists o, v = JObj o /\ hasKey o "active" = false) ->
                   forall b, ~ coercesTo v b).
  { intros v Hv Hshape b Hc. inversion Hc as [v' b' H | o x b' Hk Hg H];
      subst; [exact (Hv b H)|].
    destruct Hshape as [Hr | (o' & [= <-] & Hk')]; [discriminate|].
    now rewrite Hk in Hk'. }
  split.
  - refine (proj1 (proj2 (active_coercion Samples.samplePaths
                            Samples.plainPatch Samples.activeFromObject
                            Samples.jdoe (or_intror eq_refl) eq_refl)) _).
    apply Hnot; [intros b H; inversion H | right; eexists; split; reflexivity].
  - refine (proj1 (proj2 (active_coercion Samples.samplePaths
                            Samples.plainPatch Samples.activeFromNumber
                            Samples.jdoe (or_intror eq_refl) eq_refl)) _).
    apply Hnot; [intros b H; inversion H | now left].
Defined.

(** The reserved keys of a no-path [add] do not reach the payload. *)
Lemma reserved_keys_stripped_witness :
  apply Samples.samplePaths [Samples.addReserved] Samples.jdoe
        Samples.plainPatch = Ok Samples.jdoeWithTitle /\
  forall key, In key (keys (Res.payload Samples.jdoeWithTitle)) ->
              serverManaged key = false.
Proof.
  split; [reflexivity|].
  exact (reserved_keys_stripped Samples.samplePaths Samples.plainPatch
           [Samples.addReserved] Samples.jdoe Samples.jdoeWithTitle eq_refl).
Defined.

(** ** Stripping and assignments *)

Local Abbreviation kept k :=
  (negb (reservedHas k) && negb (reservedHas (toLowerCase k))).

Lemma reservedHas_lower k :
  reservedHas k = true -> reservedHas (toLowerCase k) = true.
Proof.
  unfold reservedHas, RESERVED_ATTRIBUTES. cbn [existsb].
  repeat match goal with
         | |- (?a =? k) || _ = true -> _ =>
             let E := fresh "E" in
             destruct (a =? k) eqn:E;
             [ apply String.eqb_eq in E; subst k; reflexivity
             | cbn [orb] ]
         end.
  discriminate.
Qed.

Lemma kept_lower k : kept k = negb (reservedHas (toLowerCase k)).
Proof.
  destruct (reservedHas k) eqn:E; simpl; [|reflexivity].
  now rewrite (reservedHas_lower _ E).
Qed.

Lemma strip_idempotent p :
  stripReservedAttributes (stripReservedAttributes p)
  = stripReservedAttributes p.
Proof.
  unfold stripReservedAttributes.
  induction p as [|[k v] r IH]; simpl; [reflexivity|].
  destruct (kept k) eqn:E; simpl; [rewrite E; now f_equal | assumption].
Qed.

Lemma strip_set_reserved p k v :
  kept k = false ->
  stripReservedAttributes (setProp p k v) = stripReservedAttributes p.
Proof.
  intros Hk. unfold stripReservedAttributes.
  induction p as [|[k' v'] r IH]; simpl.
  - now rewrite Hk.
  - destruct (k' =? k) eqn:E; simpl.
    + apply String.eqb_eq in E. subst k'. now rewrite Hk.
    + now rewrite IH.
Qed.

Lemma strip_set_kept p k v :
  kept k = true ->
  stripReservedAttributes (setProp p k v)
  = setProp (stripReservedAttributes p) k v.
Proof.
  intros Hk. unfold stripReservedAttributes.
  induction p as [|[k' v'] r IH]; simpl.
  - now rewrite Hk.
  - destruct (k' =? k) eqn:E; simpl.
    + apply String.eqb_eq in E. subst k'. rewrite Hk. simpl.
      now rewrite String.eqb_refl.
    + destruct (kept k') eqn:Ek; simpl; [rewrite E; now f_equal|].
      assumption.
Qed.

(** An assignment followed by stripping, made twice, is as made once. *)
Lemma strip_set_stable p k v :
  stripReservedAttributes
    (setProp (stripReservedAttributes (setProp p k v)) k v)
  = stripReservedAttributes (setProp p k v).
Proof.
  destruct (kept k) eqn:Hk.
  - rewrite !(strip_set_kept _ _ _ Hk), strip_idempotent.
    now rewrite ObjProps.setProp_setProp.
  - rewrite !(strip_set_reserved _ _ _ Hk). apply strip_idempotent.
Qed.

(** ** Dot notation *)

Lemma findParentKey_lower p parent :
  toLowerCase (findParentKey p parent) = toLowerCase parent.
Proof.
  unfold findParentKey.
  destruct (find _ (keys p)) as [k|] eqn:E; [|reflexivity].
  apply find_some in E as [_ E]. now apply String.eqb_eq.
Qed.

Lemma keys_setProp p k v :
  keys (setProp p k v) = if hasKey p k then keys p else keys p ++ [k].
Proof.
  unfold keys. induction p as [|[k' v'] r IH]; simpl; [reflexivity|].
  destruct (k' =? k) eqn:E; simpl; [reflexivity|].
  rewrite IH. now destruct (hasKey r k).
Qed.

Lemma hasKey_In p k : hasKey p k = true <-> In k (keys p).
Proof.
  unfold keys. induction p as [|[k' v'] r IH]; simpl; [easy|].
  rewrite orb_true_iff, IH, String.eqb_eq. tauto.
Qed.

Lemma find_app_none {A} (f : A -> bool) l l' :
  find f l = None -> find f (l ++ l') = find f l'.
Proof.
  induction l as [|x r IH]; simpl; [reflexivity|].
  destruct (f x); [discriminate | assumption].
Qed.

Lemma findParentKey_setProp p parent V :
  findParentKey (setProp p (findParentKey p parent) V) parent
  = findParentKey p parent.
Proof.
  unfold findParentKey at 1 3. rewrite keys_setProp.
  unfold findParentKey.
  destruct (find _ (keys p)) as [k|] eqn:E.
  - pose proof (find_some _ _ E) as [Hin _].
    apply hasKey_In in Hin. now rewrite Hin, E.
  - destruct (hasKey p parent) eqn:Hk.
    + apply hasKey_In in Hk.
      pose proof (find_none _ _ E _ Hk) as Hn. simpl in Hn.
      now rewrite String.eqb_refl in Hn.
    + rewrite (find_app_none _ _ _ E). simpl. now rewrite String.eqb_refl.
Qed.

Lemma findParentKey_strip p parent :
  reservedHas (toLowerCase parent) = false ->
  findParentKey (stripReservedAttributes p) parent = findParentKey p parent.
Proof.
  intros Hfree. unfold findParentKey, stripReservedAttributes, keys.
  induction p as [|[k v] r IH]; simpl; [reflexivity|].
  destruct (toLowerCase k =? toLowerCase parent) eqn:Em.
  - apply String.eqb_eq in Em.
    rewrite kept_lower, Em, Hfree. simpl.
    now rewrite Em, String.eqb_refl.
  - destruct (kept k); simpl; [rewrite Em|]; assumption.
Qed.

Lemma assign_again o k v : assign (assign o k v) k v = assign o k v.
Proof.
  unfold assign.
  destruct ((k =? "__proto__") && negb (hasKey o k)) eqn:E.
  - now rewrite E.
  - rewrite ObjProps.hasKey_setProp_same, andb_false_r.
    apply ObjProps.setProp_setProp.
Qed.

Lemma hasKey_strip_absent p k :
  hasKey p k = false -> hasKey (stripReservedAttributes p) k = false.
Proof.
  unfold stripReservedAttributes.
  induction p as [|[k' v] r IH]; simpl; [reflexivity|].
  intros H. apply orb_false_elim in H as [Hk Hr].
  destruct (kept k'); simpl; [rewrite Hk|]; now apply IH.
Qed.

(** A dot-notation assignment followed by stripping, made twice, is as
    made once. *)
Lemma applyDotNotation_stable p originalPath v :
  stripReservedAttributes
    (applyDotNotation
       (stripReservedAttributes (applyDotNotation p originalPath v))
       originalPath v)
  = stripReservedAttributes (applyDotNotation p originalPath v).
Proof.
  unfold applyDotNotation.
  destruct (splitPath originalPath) as [parent child].
  set (pk := findParentKey p parent).
  destruct (reachesPrototype p pk) eqn:Hproto.
  - unfold reachesPrototype in Hproto.
    apply andb_prop in Hproto as [Hname Hown].
    apply String.eqb_eq in Hname. apply negb_true_iff in Hown.
    assert (Hfree : reservedHas (toLowerCase parent) = false).
    { rewrite <- (findParentKey_lower p parent). fold pk.
      now rewrite Hname. }
    rewrite (findParentKey_strip p parent Hfree). fold pk.
    unfold reachesPrototype.
    rewrite (hasKey_strip_absent p pk Hown), Hname. simpl.
    apply strip_idempotent.
  - assert (Hshape : exists X,
               match getProp p pk with
               | JObj existing =>
                   setProp p pk (JObj (assign existing child v))
               | _ => setProp p pk (JObj [(child, v)])
               end = setProp p pk (JObj X) /\ assign X child v = X).
    { destruct (getProp p pk) as [| | | | | |existing];
        try (exists [(child, v)]; split;
             [reflexivity
             | unfold assign; simpl; rewrite String.eqb_refl;
               now rewrite andb_false_r]).
      exists (assign existing child v). split; [reflexivity|].
      apply assign_again. }
    destruct Hshape as (X & -> & HX).
    destruct (reservedHas (toLowerCase parent)) eqn:Hres.
    + assert (Hdrop : forall q, kept (findParentKey q parent) = false).
      { intros q. now rewrite kept_lower, findParentKey_lower, Hres. }
      rewrite (strip_set_reserved _ _ _ (Hdrop p)).
      set (q := stripReservedAttributes p).
      destruct (reachesPrototype q (findParentKey q parent));
        [apply strip_idempotent|].
      destruct (getProp q (findParentKey q parent));
        rewrite (strip_set_reserved _ _ _ (Hdrop q));
        apply strip_idempotent.
    + assert (Hkeep : kept pk = true).
      { unfold pk. now rewrite kept_lower, findParentKey_lower, Hres. }
      rewrite (strip_set_kept _ _ _ Hkeep).
      set (q := setProp (stripReservedAttributes p) pk (JObj X)).
      assert (Hpk : findParentKey q parent = pk).
      { unfold q. rewrite <- (strip_set_kept _ _ _ Hkeep).
        rewrite findParentKey_strip by assumption.
        apply findParentKey_setProp. }
      rewrite Hpk.
      assert (Hown : reachesPrototype q pk = false).
      { unfold reachesPrototype, q.
        now rewrite ObjProps.hasKey_setProp_same, andb_false_r. }
      rewrite Hown.
      assert (Hget : getProp q pk = JObj X)
        by apply ObjProps.getProp_setProp_same.
      rewrite Hget, HX. unfold q.
      rewrite ObjProps.setProp_setProp.
      rewrite <- (strip_set_kept _ _ _ Hkeep). apply strip_idempotent.
Qed.

(** ** Repeating a [replace] *)

(** What the engine does by itself for a [replace] is repeatable: made
    again on the state rebuilt from its outcome, the operation is accepted
    and gives the same outcome.  Three branches hand the payload to the
    structural updates of [scim-patch-path.ts]; for them this holds when
    those updates are repeatable in the sense of
    [structuralUpdatesStable]. *)
Section ReplaceTwice.

Variable P : ScimPatchPath.
Hypothesis HP : structuralUpdatesStable P.

(** The state a caller rebuilds from the outcome of the loop. *)
Local Abbreviation again st :=
  {| userName := userName st; displayName := displayName st;
     externalId := externalId st; active := active st;
     rawPayload := stripReservedAttributes (rawPayload st) |}.

(** The loop variables agree up to what stripping removes. *)
Local Abbreviation sameOutcome st2 st1 :=
  (userName st2 = userName st1 /\
   displayName st2 = displayName st1 /\
   externalId st2 = externalId st1 /\
   active st2 = active st1 /\
   stripReservedAttributes (rawPayload st2)
   = stripReservedAttributes (rawPayload st1)).

Ltac same_outcome :=
  eexists; split; [reflexivity|]; simpl;
  repeat split; try reflexivity;
  auto using strip_idempotent, strip_set_stable, applyDotNotation_stable.

Lemma stable_again (update : Obj -> Result Obj) st st1 :
  stableUnderStrip update ->
  (rawPayload' <- update (rawPayload st) ;;
   Ok {| userName := userName st; displayName := displayName st;
         externalId := externalId st; active := active st;
         rawPayload := rawPayload' |}) = Ok st1 ->
  exists st2,
    (rawPayload' <- update (rawPayload (again st1)) ;;
     Ok {| userName := userName (again st1);
           displayName := displayName (again st1);
           externalId := externalId (again st1);
           active := active (again st1);
           rawPayload := rawPayload' |}) = Ok st2 /\
    sameOutcome st2 st1.
Proof.
  intros Hstable Hrun.
  destruct (update (rawPayload st)) as [raw1|] eqn:E; [|discriminate].
  simpl in Hrun. injection Hrun as <-. simpl.
  destruct (Hstable _ _ E) as (p2 & -> & Hp2). simpl.
  eexists. split; [reflexivity|]. simpl. auto.
Qed.

Lemma mergeNoPath_again obj st st1 :
  mergeNoPath P obj st = Ok st1 ->
  exists st2, mergeNoPath P obj (again st1) = Ok st2 /\ sameOutcome st2 st1.
Proof.
  destruct HP as (_ & _ & Hmerge).
  unfold mergeNoPath.
  set (u0 := normalizeObjectKeys obj).
  destruct (hasKey u0 "userName") eqn:H1.
  - destruct (extractStringValue (getProp u0 "userName")) as [un|];
      [|discriminate]; simpl.
    set (u1 := deleteProp u0 "userName").
    destruct (hasKey u1 "displayName") eqn:H2;
      [ destruct (extractNullableStringValue (getProp u1 "displayName"))
          as [dn|]; [|discriminate] | ]; simpl;
      (destruct (hasKey u1 "externalId") eqn:H3;
       [ destruct (extractNullableStringValue (getProp u1 "externalId"))
           as [ex|]; [|discriminate] | ]; simpl;
       match goal with
       | |- context [hasKey ?u2 "active"] =>
           destruct (hasKey u2 "active") eqn:H4;
           [ destruct (extractBooleanValue (getProp u2 "active"))
               as [ac|]; [|discriminate] | ]; simpl;
           match goal with
           | |- context [resolveNoPathValue P _ ?u3] =>
               intros Hrun;
               destruct (resolveNoPathValue P (rawPayload st) u3)
                 as [raw1|] eqn:E; [|discriminate];
               simpl in Hrun; injection Hrun as <-; simpl;
               destruct (Hmerge u3 _ _ E) as (p2 & -> & Hp2); simpl;
               eexists; split; [reflexivity|]; simpl; auto
           end
       end).
  - simpl.
    set (u1 := u0).
    destruct (hasKey u1 "displayName") eqn:H2;
      [ destruct (extractNullableStringValue (getProp u1 "displayName"))
          as [dn|]; [|discriminate] | ]; simpl;
      (destruct (hasKey u1 "externalId") eqn:H3;
       [ destruct (extractNullableStringValue (getProp u1 "externalId"))
           as [ex|]; [|discriminate] | ]; simpl;
       match goal with
       | |- context [hasKey ?u2 "active"] =>
           destruct (hasKey u2 "active") eqn:H4;
           [ destruct (extractBooleanValue (getProp u2 "active"))
               as [ac|]; [|discriminate] | ]; simpl;
           match goal with
           | |- context [resolveNoPathValue P _ ?u3] =>
               intros Hrun;
               destruct (resolveNoPathValue P (rawPayload st) u3)
                 as [raw1|] eqn:E; [|discriminate];
               simpl in Hrun; injection Hrun as <-; simpl;
               destruct (Hmerge u3 _ _ E) as (p2 & -> & Hp2); simpl;
               eexists; split; [reflexivity|]; simpl; auto
           end
       end).
Qed.

(** One accepted [replace], made again on the state rebuilt from its
    outcome, is accepted and gives the same outcome. *)
Lemma replace_again config originalPath v st st1 :
  applyAddOrReplace P "replace" originalPath (lowered originalPath) v st
                    config = Ok st1 ->
  exists st2,
    applyAddOrReplace P "replace" originalPath (lowered originalPath) v
                      (again st1) config = Ok st2 /\
    sameOutcome st2 st1.
Proof.
  destruct HP as (Hext & Hvp & _).
  unfold applyAddOrReplace.
  destruct (pathIs (lowered originalPath) "active").
  { destruct (extractBooleanValue v) as [b|]; [|discriminate]; simpl.
    intros [= <-]. same_outcome. }
  destruct (pathIs (lowered originalPath) "username").
  { destruct (extractStringValue v) as [u|]; [|discriminate]; simpl.
    intros [= <-]. same_outcome. }
  destruct (pathIs (lowered originalPath) "displayname").
  { destruct (extractNullableStringValue v) as [d|]; [|discriminate]; simpl.
    intros [= <-]. same_outcome. }
  destruct (pathIs (lowered originalPath) "externalid").
  { destruct (extractNullableStringValue v) as [e|]; [|discriminate]; simpl.
    intros [= <-]. same_outcome. }
  destruct (present originalPath (isExtensionPath P)) as [p|].
  { destruct (parseExtensionPath P p) as [[e|]|]; simpl; try discriminate.
    - apply (stable_again (fun raw => applyExtensionUpdate P raw e v)).
      apply Hext.
    - intros [= <-]. same_outcome. }
  destruct (present originalPath (isValuePath P)) as [p|].
  { destruct (parseValuePath P p) as [[vp|]|]; simpl; try discriminate.
    - apply (stable_again (fun raw => applyValuePathUpdate P raw vp v)).
      apply Hvp.
    - intros [= <-]. same_outcome. }
  destruct (if verbosePatch config then present originalPath hasDot
            else None) as [p|].
  { simpl. intros [= <-]. same_outcome. }
  destruct (present originalPath (fun _ => true)) as [p|].
  { simpl. intros [= <-]. same_outcome. }
  destruct (missing (lowered originalPath)).
  - destruct (asRecord v) as [obj|].
    + apply mergeNoPath_again.
    + intros [= <-]. same_outcome.
  - intros [= <-]. same_outcome.
Qed.

Lemma user_replace_idempotent config operation state res :
  isOp operation "replace" = true ->
  apply P [operation] state config = Ok res ->
  apply P [operation] (stateOfResult res) config = Ok res.
Proof.
  intros Hop. unfold apply. simpl.
  unfold applyOperation. rewrite (GroupProps.isOp_lowered _ _ Hop). simpl.
  destruct (applyAddOrReplace P "replace" (path operation)
              (lowered (path operation)) (value operation) state config)
    as [st1|] eqn:E; [|discriminate].
  simpl. intros [= <-]. unfold stateOfResult. simpl.
  destruct (replace_again _ _ _ _ _ E) as (st2 & -> & H1 & H2 & H3 & H4 & H5).
  simpl. now rewrite H1, H2, H3, H4, H5.
Qed.

End ReplaceTwice.

End UserProps.

(* ================================================================== *)
(** * The User PATCH engine and the objects of its caller              *)
(* ================================================================== *)

Module UserHeapProps.
Import UserPatchHeap.

(** On an accepted batch the engine over the store returns the payload
    the engine over values returns. *)
Lemma store_run_agrees_on_sample :
  exists (res : Res.UserPatchResult) (after : Heap)
         (res' : UserPatch.Res.UserPatchResult),
    apply Samples.storePaths [Samples.storedRenameGiven] Samples.storedJdoe
          Samples.verbosePatchOn Samples.callerHeap = (Ok res, after) /\
    UserPatch.apply Samples.samplePaths [Samples.renameGiven] Samples.john
          Samples.verbosePatchOn = Ok res' /\
    reify 2 after (VRef (Res.payload res)) = JObj (UserPatch.Res.payload res').
Proof. do 3 eexists. repeat split; reflexivity. Qed.

(** C3 fails.  With dot-notation paths enabled, [replace] at
    [name.givenName] assigns into the object the caller's payload refers
    to under [name]: the copy the engine works on is a copy of the top
    level only.  When the next operation of the batch makes [apply]
    throw, the caller's nested object keeps the new value. *)
Theorem failed_batch_changes_nested_input :
  forall (P : ScimPatchPath),
    isExtensionPath P "name.givenName" = false ->
    isValuePath P "name.givenName" = false ->
    exists after : Heap,
      apply P Samples.renameThenFail Samples.storedJdoe
            Samples.verbosePatchOn Samples.callerHeap
      = (throw 400 noTarget, after) /\
      reify 2 Samples.callerHeap (VRef (rawPayload Samples.storedJdoe))
      = JObj [("name", JObj [("givenName", JStr "John")])] /\
      reify 2 after (VRef (rawPayload Samples.storedJdoe))
      = JObj [("name", JObj [("givenName", JStr "Jane")])].
Proof.
  intros P Hext Hvp.
  eexists. split; [|split; [reflexivity|]].
  - unfold apply, bindM. simpl.
    unfold applyOperation. simpl.
    unfold applyAddOrReplace. simpl.
    rewrite Hext, Hvp. simpl. reflexivity.
  - reflexivity.
Qed.

Lemma failed_batch_changes_nested_input_witness :
  exists after : Heap,
    apply Samples.storePaths Samples.renameThenFail Samples.storedJdoe
          Samples.verbosePatchOn Samples.callerHeap
    = (throw 400 noTarget, after) /\
    reify 2 Samples.callerHeap (VRef (rawPayload Samples.storedJdoe))
    = JObj [("name", JObj [("givenName", JStr "John")])] /\
    reify 2 after (VRef (rawPayload Samples.storedJdoe))
    = JObj [("name", JObj [("givenName", JStr "Jane")])].
Proof.
  exact (failed_batch_changes_nested_input Samples.storePaths
           eq_refl eq_refl).
Defined.

End UserHeapProps.

(* ================================================================== *)
(** * Further properties of the planner and of the predicate evaluator *)
(* ================================================================== *)

Module FilterLaws.
Import Filter Prisma Statements Relations FilterProps.

(** ** The planner *)

Lemma tryPushToDb_attr_case columnMap : forall a b,
  sameUpToAttrCase a b -> tryPushToDb a columnMap = tryPushToDb b columnMap.
Proof.
  induction a as [p o v | o l IHl r IHr | i IHi | p i IHi];
    destruct b as [p' o' v' | o' l' r' | i' | p' i']; simpl;
    try contradiction; try reflexivity.
  - intros (Hp & <- & <-). unfold pushCompareToDb. now rewrite Hp.
  - intros (<- & Hl & Hr). now rewrite (IHl _ Hl), (IHr _ Hr).
Qed.

(** X1.  The planner does not see the letter case of attribute names:
    two filters that differ only there get the same where clause and the
    same [fetchAll], for users and for groups. *)
Theorem planner_ignores_attribute_case :
  forall a b : FilterNode,
    sameUpToAttrCase a b ->
    dbWhere (buildUserFilter (Some a)) = dbWhere (buildUserFilter (Some b)) /\
    fetchAll (buildUserFilter (Some a)) = fetchAll (buildUserFilter (Some b)) /\
    dbWhere (buildGroupFilter (Some a)) = dbWhere (buildGroupFilter (Some b)) /\
    fetchAll (buildGroupFilter (Some a))
    = fetchAll (buildGroupFilter (Some b)).
Proof.
  intros a b H. simpl. unfold buildFilterResult.
  rewrite (tryPushToDb_attr_case USER_DB_COLUMNS a b H).
  rewrite (tryPushToDb_attr_case GROUP_DB_COLUMNS a b H).
  destruct (tryPushToDb b USER_DB_COLUMNS), (tryPushToDb b GROUP_DB_COLUMNS);
    auto.
Qed.

Lemma planner_ignores_attribute_case_witness :
  dbWhere (buildUserFilter (Some (Compare "UserName" "eq" (JStr "test"))))
  = dbWhere (buildUserFilter (Some (Compare "userName" "eq" (JStr "test")))).
Proof.
  apply (planner_ignores_attribute_case
           (Compare "UserName" "eq" (JStr "test"))
           (Compare "userName" "eq" (JStr "test"))).
  simpl. auto.
Defined.

(** X2.  A filter result is of one of two kinds and never a mix: a
    push-down (a where clause with at least one entry, no in-memory
    filter, [fetchAll] off) or a fallback (an empty where clause, the
    in-memory filter over the whole filter, [fetchAll] on). *)
Theorem filter_result_is_pushdown_or_fallback :
  forall (ast : FilterNode) (columnMap : ColumnMap),
    let result := buildFilterResult ast columnMap in
    (fetchAll result = false /\ dbWhere result <> [] /\
     inMemoryFilter result = None) \/
    (fetchAll result = true /\ dbWhere result = [] /\
     inMemoryFilter result = Some ast).
Proof.
  intros ast columnMap. simpl. unfold buildFilterResult.
  destruct (tryPushToDb ast columnMap) as [w|] eqn:E; simpl.
  - left. repeat split. eapply pushable_nonempty; eassumption.
  - right. auto.
Qed.

Lemma subnode_unpushable columnMap : forall ast sub,
  In sub (subnodes ast) ->
  tryPushToDb sub columnMap = None ->
  tryPushToDb ast columnMap = None.
Proof.
  induction ast as [p o v | o l IHl r IHr | i IHi | p i IHi];
    intros sub Hin Hsub; simpl in Hin.
  - destruct Hin as [<- | []]. assumption.
  - destruct Hin as [<- | Hin]; [assumption|].
    apply in_app_or in Hin. simpl.
    destruct Hin as [Hin|Hin].
    + rewrite (IHl _ Hin Hsub).
      destruct (o =? "and"); [reflexivity|].
      now destruct (o =? "or").
    + rewrite (IHr _ Hin Hsub).
      destruct (tryPushToDb l columnMap);
        destruct (o =? "and"); try reflexivity;
        now destruct (o =? "or").
  - reflexivity.
  - reflexivity.
Qed.

(** X3.  Push-down is all or nothing at every depth: when any node of a
    filter, however deeply nested, cannot be pushed on its own, the whole
    filter falls back to in-memory evaluation. *)
Theorem unpushable_subnode_forces_fallback :
  forall (columnMap : ColumnMap) (ast sub : FilterNode),
    In sub (subnodes ast) ->
    tryPushToDb sub columnMap = None ->
    buildFilterResult ast columnMap
    = {| dbWhere := []; inMemoryFilter := Some ast; fetchAll := true |}.
Proof.
  intros columnMap ast sub Hin Hsub. unfold buildFilterResult.
  now rewrite (subnode_unpushable columnMap ast sub Hin Hsub).
Qed.

(** [userName eq "a" and (active eq true or not (id pr))] *)
Lemma unpushable_subnode_forces_fallback_witness :
  fetchAll
    (buildFilterResult
       (Logical "and" (Compare "userName" "eq" (JStr "a"))
          (Logical "or" (Compare "active" "eq" (JBool true))
             (Not (Compare "id" "pr" JUndefined))))
       USER_DB_COLUMNS) = true.
Proof.
  rewrite (unpushable_subnode_forces_fallback USER_DB_COLUMNS
             (Logical "and" (Compare "userName" "eq" (JStr "a"))
                (Logical "or" (Compare "active" "eq" (JBool true))
                   (Not (Compare "id" "pr" JUndefined))))
             (Not (Compare "id" "pr" JUndefined))).
  - reflexivity.
  - simpl. auto 10.
  - reflexivity.
Defined.

(** ** The where clauses the planner produces *)

Lemma buildColumnFilter_shape col ty o v w :
  buildColumnFilter col ty o v = Some w -> exists cond, w = [(col, cond)].
Proof.
  unfold buildColumnFilter. intros Hw.
  do 10 (split_op Hw;
         [ try destruct (negb (isTextColumn _)); try discriminate;
           injection Hw as <-; eexists; reflexivity | ]).
  discriminate.
Qed.

Lemma pushed_evaluable columnMap record :
  plainColumns columnMap = true ->
  forall ast w,
    tryPushToDb ast columnMap = Some w ->
    exists b, matchesPrismaFilter record w = Some b.
Proof.
  intros Hplain.
  induction ast as [p o v | o l IHl r IHr | i _ | p i _];
    intros w Hw; simpl in Hw; try discriminate.
  - unfold pushCompareToDb in Hw.
    destruct (lookupColumn columnMap (toLowerCase p)) as [mapped|] eqn:Hl;
      [|discriminate].
    destruct (lookupColumn_plain _ _ _ Hplain Hl) as [HA HO].
    destruct (buildColumnFilter_shape _ _ _ _ _ Hw) as (cond & ->).
    rewrite matches_single, matchesCondition_column by assumption.
    destruct cond; eexists; reflexivity.
  - destruct (tryPushToDb l columnMap) as [lw|]; [|
      destruct (o =? "and"); [discriminate|];
      destruct (o =? "or"); discriminate ].
    destruct (tryPushToDb r columnMap) as [rw|]; [|
      destruct (o =? "and"); [discriminate|];
      destruct (o =? "or"); discriminate ].
    destruct (IHl lw eq_refl) as (bl & Hbl).
    destruct (IHr rw eq_refl) as (br & Hbr).
    destruct (o =? "and");
      [ | destruct (o =? "or"); [ | discriminate ] ];
      injection Hw as <-.
    + rewrite matches_and, Hbl, Hbr. destruct bl; eexists; reflexivity.
    + rewrite matches_or, Hbl, Hbr. destruct bl; eexists; reflexivity.
Qed.



(** X5.  A pushed [and] is the conjunction and a pushed [or] the
    disjunction of what its two sides decide on the record. *)
Theorem pushed_logical_is_connective :
  forall (columnMap : ColumnMap) (o : string) (l r : FilterNode)
         (w : Obj) (record : Obj),
    plainColumns columnMap = true ->
    tryPushToDb (Logical o l r) columnMap = Some w ->
    exists lw rw bl br,
      tryPushToDb l columnMap = Some lw /\
      tryPushToDb r columnMap = Some rw /\
      matchesPrismaFilter record lw = Some bl /\
      matchesPrismaFilter record rw = Some br /\
      (o = "and" \/ o = "or") /\
      matchesPrismaFilter record w
      = Some (if o =? "and" then bl && br else bl || br).
Proof.
  intros columnMap o l r w record Hplain Hw. simpl in Hw.
  destruct (tryPushToDb l columnMap) as [lw|] eqn:El; [|
    destruct (o =? "and"); [discriminate|];
    destruct (o =? "or"); discriminate ].
  destruct (tryPushToDb r columnMap) as [rw|] eqn:Er; [|
    destruct (o =? "and"); [discriminate|];
    destruct (o =? "or"); discriminate ].
  destruct (pushed_evaluable columnMap record Hplain l lw El) as (bl & Hbl).
  destruct (pushed_evaluable columnMap record Hplain r rw Er) as (br & Hbr).
  exists lw, rw, bl, br. repeat split; try assumption.
  - destruct (o =? "and") eqn:Ea; [left; now apply String.eqb_eq|].
    destruct (o =? "or") eqn:Eo; [right; now apply String.eqb_eq|].
    discriminate.
  - destruct (o =? "and");
      [ | destruct (o =? "or"); [ | discriminate ] ];
      injection Hw as <-.
    + rewrite matches_and, Hbl, Hbr. now destruct bl.
    + rewrite matches_or, Hbl, Hbr. now destruct bl.
Qed.

Lemma pushed_logical_is_connective_witness :
  exists lw rw bl br,
    tryPushToDb (Compare "userName" "eq" (JStr "john")) USER_DB_COLUMNS
    = Some lw /\
    tryPushToDb (Compare "active" "eq" (JBool true)) USER_DB_COLUMNS
    = Some rw /\
    matchesPrismaFilter [("userName", JStr "John")] lw = Some bl /\
    matchesPrismaFilter [("userName", JStr "John")] rw = Some br /\
    ("and" = "and" \/ "and" = "or") /\
    matchesPrismaFilter [("userName", JStr "John")]
      [("AND", JArr [JObj [("userName", JStr "john")];
                     JObj [("active", JBool true)]])]
    = Some (if "and" =? "and" then bl && br else bl || br).
Proof.
  exact (pushed_logical_is_connective USER_DB_COLUMNS "and"
           (Compare "userName" "eq" (JStr "john"))
           (Compare "active" "eq" (JBool true))
           _ [("userName", JStr "John")] eq_refl eq_refl).
Defined.

(** X6.  For a string, number or boolean literal, the pushed [ne] is on
    every record the negation of the pushed [eq]; in particular it
    matches a record whose column is missing or null.  With the literal
    [null], [ne] is pushed as the presence test of [pr]. *)
Theorem pushed_ne_negates_eq :
  forall (columnMap : ColumnMap) (attr : string) (v : JValue)
         (weq wne : Obj) (record : Obj),
    plainColumns columnMap = true ->
    isLiteral v = true ->
    tryPushToDb (Compare attr "eq" v) columnMap = Some weq ->
    tryPushToDb (Compare attr "ne" v) columnMap = Some wne ->
    matchesPrismaFilter record wne
    = option_map negb (matchesPrismaFilter record weq) /\
    tryPushToDb (Compare attr "ne" JNull) columnMap
    = tryPushToDb (Compare attr "pr" v) columnMap.
Proof.
  intros columnMap attr v weq wne record Hplain Hlit Heq Hne.
  simpl in *. unfold pushCompareToDb in *.
  destruct (lookupColumn columnMap (toLowerCase attr)) as [mapped|] eqn:Hl;
    [|discriminate].
  destruct (lookupColumn_plain _ _ _ Hplain Hl) as [HA HO].
  split; [|reflexivity].
  injection Heq as <-. injection Hne as <-.
  rewrite !matches_single, !matchesCondition_column by assumption.
  destruct v; try discriminate; reflexivity.
Qed.

Lemma pushed_ne_negates_eq_witness :
  matchesPrismaFilter [("displayName", JStr "x")]
    [("userName", JObj [("not", JStr "admin")])]
  = option_map negb
      (matchesPrismaFilter [("displayName", JStr "x")]
         [("userName", JStr "admin")]).
Proof.
  exact (proj1 (pushed_ne_negates_eq USER_DB_COLUMNS "userName"
                  (JStr "admin") _ _ [("displayName", JStr "x")]
                  eq_refl eq_refl eq_refl eq_refl)).
Defined.

(** ** The predicate evaluator on arbitrary where clauses *)

Lemma matches_AND record cs :
  matchesPrismaFilter record [("AND", JArr (map JObj cs))]
  = (fix every (l : list Obj) : option bool :=
       match l with
       | [] => Some true
       | c :: r =>
           match matchesPrismaFilter record c with
           | Some true => every r
           | other => other
           end
       end) cs.
Proof.
  rewrite matches_single.
  change (matchesCondition record "AND" (JArr (map JObj cs)))
    with ((fix every (l : list JValue) : option bool :=
             match l with
             | [] => Some true
             | JObj f :: r =>
                 match (fix entries (f : Obj) : option bool :=
                          match f with
                          | [] => Some true
                          | (k, c) :: r' =>
                              match matchesCondition record k c with
                              | Some true => entries r'
                              | other => other
                              end
                          end) f with
                 | Some true => every r
                 | other => other
                 end
             | _ :: _ => None
             end) (map JObj cs)).
  induction cs as [|c r IH]; [reflexivity|].
  cbn [map]. rewrite clause_entries. now rewrite IH.
Qed.

Lemma matches_OR record cs :
  matchesPrismaFilter record [("OR", JArr (map JObj cs))]
  = (fix some (l : list Obj) : option bool :=
       match l with
       | [] => Some false
       | c :: r =>
           match matchesPrismaFilter record c with
           | Some false => some r
           | other => other
           end
       end) cs.
Proof.
  rewrite matches_single.
  change (matchesCondition record "OR" (JArr (map JObj cs)))
    with ((fix some (l : list JValue) : option bool :=
             match l with
             | [] => Some false
             | JObj f :: r =>
                 match (fix entries (f : Obj) : option bool :=
                          match f with
                          | [] => Some true
                          | (k, c) :: r' =>
                              match matchesCondition record k c with
                              | Some true => entries r'
                              | other => other
                              end
                          end) f with
                 | Some false => some r
                 | other => other
                 end
             | _ :: _ => None
             end) (map JObj cs)).
  induction cs as [|c r IH]; [reflexivity|].
  cbn [map]. rewrite clause_entries. now rewrite IH.
Qed.

(** X7.  [AND] over any list of clauses that each decide the record is
    "all of them", [OR] is "at least one of them"; with no clause at all
    [AND] accepts and [OR] rejects. *)
Theorem compound_clauses_are_all_and_any :
  forall (record : Obj) (clauses : list Obj) (decides : Obj -> bool),
    (forall c, In c clauses ->
               matchesPrismaFilter record c = Some (decides c)) ->
    matchesPrismaFilter record [("AND", JArr (map JObj clauses))]
    = Some (forallb decides clauses) /\
    matchesPrismaFilter record [("OR", JArr (map JObj clauses))]
    = Some (existsb decides clauses).
Proof.
  intros record clauses decides Hall.
  rewrite matches_AND, matches_OR.
  induction clauses as [|c r IH]; [split; reflexivity|].
  assert (Hc := Hall c (or_introl eq_refl)).
  destruct IH as [IHand IHor].
  { intros c' Hin. apply Hall. now right. }
  rewrite Hc. cbn [forallb existsb].
  destruct (decides c); simpl; split; auto.
Qed.

Lemma compound_clauses_are_all_and_any_witness :
  matchesPrismaFilter [("userName", JStr "bob")]
    [("OR", JArr [JObj [("userName", JStr "al")];
                  JObj [("userName", JStr "BOB")]])]
  = Some true.
Proof.
  refine (proj2 (compound_clauses_are_all_and_any
                  [("userName", JStr "bob")]
                  [[("userName", JStr "al")]; [("userName", JStr "BOB")]]
                  (fun c => match matchesPrismaFilter
                                    [("userName", JStr "bob")] c with
                            | Some b => b
                            | None => false
                            end) _)).
  intros c [<- | [<- | []]]; reflexivity.
Defined.

(** X8.  The entries of a where clause are conjoined: a clause with
    several entries decides every record exactly as the [AND] of its
    entries taken one by one. *)
Theorem entries_are_conjoined :
  forall (record : Obj) (filter : Obj),
    matchesPrismaFilter record filter
    = matchesPrismaFilter record
        [("AND", JArr (map JObj (map (fun e => [e]) filter)))].
Proof.
  intros record filter. rewrite matches_AND.
  induction filter as [|[k c] r IH]; [reflexivity|].
  cbn [map]. rewrite matches_single. simpl. now rewrite IH.
Qed.

(** ** Letter case *)

Lemma toLowerCase_toStr_case v v' :
  sameUpToCase v v' -> toLowerCase (toStr v) = toLowerCase (toStr v').
Proof.
  destruct v, v'; simpl; intros H; try discriminate;
    try (injection H as <-); try rewrite H; reflexivity.
Qed.

Lemma compare_case_blind record record' col ty o v v' w w' :
  (col =? "AND") = false -> (col =? "OR") = false ->
  isLiteral v || (o =? "pr") = true ->
  sameUpToCase v v' ->
  sameUpToCase (getProp record col) (getProp record' col) ->
  buildColumnFilter col ty o v = Some w ->
  buildColumnFilter col ty o v' = Some w' ->
  matchesPrismaFilter record w = matchesPrismaFilter record' w'.
Proof.
  intros HA HO Hlit Hv Hs Hw Hw'.
  unfold buildColumnFilter in Hw, Hw'.
  do 10 (split_op Hw;
         [ simpl in Hw'; try destruct (negb (isTextColumn _));
           try discriminate;
           injection Hw as <-; injection Hw' as <-;
           rewrite !matches_single, !matchesCondition_column by assumption;
           solve
             [ destruct v, v'; simpl in Hv, Hlit;
               try discriminate Hv; try discriminate Hlit;
               try (injection Hv as <-);
               destruct (getProp record col), (getProp record' col);
               simpl in Hs; try discriminate Hs;
               try (injection Hs as <-);
               unfold matchOperator; simpl;
               try rewrite Hv; try rewrite Hs; reflexivity ]
         | ]).
  discriminate.
Qed.

Lemma pushed_case_blind columnMap record record' :
  plainColumns columnMap = true ->
  sameRecordUpToCase record record' ->
  forall a b w w',
    grammatical a = true ->
    sameUpToLiteralCase a b ->
    tryPushToDb a columnMap = Some w ->
    tryPushToDb b columnMap = Some w' ->
    matchesPrismaFilter record w = matchesPrismaFilter record' w'.
Proof.
  intros Hplain Hrec.
  induction a as [p o v | o l IHl r IHr | i _ | p i _];
    destruct b as [p' o' v' | o' l' r' | i' | p' i'];
    intros w w' Hg Hsame Hw Hw'; simpl in Hsame, Hw, Hw', Hg;
    try contradiction; try discriminate.
  - destruct Hsame as (<- & <- & Hv). unfold pushCompareToDb in *.
    destruct (lookupColumn columnMap (toLowerCase p)) as [mapped|] eqn:Hl;
      [|discriminate].
    destruct (lookupColumn_plain _ _ _ Hplain Hl) as [HA HO].
    eapply compare_case_blind; eauto.
  - destruct Hsame as (<- & Hl & Hr).
    apply andb_prop in Hg as [Hgl Hgr].
    destruct (tryPushToDb l columnMap) as [lw|]; [|
      destruct (o =? "and"); [discriminate|];
      destruct (o =? "or"); discriminate ].
    destruct (tryPushToDb r columnMap) as [rw|]; [|
      destruct (o =? "and"); [discriminate|];
      destruct (o =? "or"); discriminate ].
    destruct (tryPushToDb l' columnMap) as [lw'|] eqn:El'; [|
      destruct (o =? "and"); [discriminate|];
      destruct (o =? "or"); discriminate ].
    destruct (tryPushToDb r' columnMap) as [rw'|] eqn:Er'; [|
      destruct (o =? "and"); [discriminate|];
      destruct (o =? "or"); discriminate ].
    specialize (IHl l' lw lw' Hgl Hl eq_refl El').
    specialize (IHr r' rw rw' Hgr Hr eq_refl Er').
    destruct (o =? "and");
      [ | destruct (o =? "or"); [ | discriminate ] ];
      injection Hw as <-; injection Hw' as <-.
    + now rewrite !matches_and, IHl, IHr.
    + now rewrite !matches_or, IHl, IHr.
Qed.

(** X9.  Pushed predicates are blind to letter case on both sides: two
    filters of the grammar that differ only in the letter case of their
    string literals, evaluated on two records that differ only in the
    letter case of their string columns, decide alike. *)
Theorem pushed_predicates_ignore_letter_case :
  forall (a b : FilterNode) (record record' : Obj),
    grammatical a = true ->
    sameUpToLiteralCase a b ->
    sameRecordUpToCase record record' ->
    fetchAll (buildUserFilter (Some a)) = false ->
    fetchAll (buildUserFilter (Some b)) = false /\
    matchesPrismaFilter record (dbWhere (buildUserFilter (Some a)))
    = matchesPrismaFilter record' (dbWhere (buildUserFilter (Some b))).
Proof.
  intros a b record record' Hg Hsame Hrec Hpush. simpl in *.
  apply buildFilterResult_pushed in Hpush.
  assert (Hb : exists w', tryPushToDb b USER_DB_COLUMNS = Some w').
  { clear Hrec. revert b Hsame Hpush Hg.
    generalize (dbWhere (buildFilterResult a USER_DB_COLUMNS)).
    induction a as [p o v | o l IHl r IHr | i _ | p i _];
      destruct b as [p' o' v' | o' l' r' | i' | p' i'];
      intros Hsame Hw Hg; simpl in Hsame, Hw, Hg |- *;
      try contradiction; try discriminate.
    - destruct Hsame as (<- & <- & Hv). unfold pushCompareToDb in *.
      destruct (lookupColumn USER_DB_COLUMNS (toLowerCase p)) as [mapped|];
        [|discriminate].
      unfold buildColumnFilter in *.
      do 10 (split_op Hw;
             [ simpl; try destruct (negb (isTextColumn _));
               try discriminate; eexists; reflexivity | ]).
      discriminate.
    - destruct Hsame as (<- & Hl & Hr).
      apply andb_prop in Hg as [Hgl Hgr].
      destruct (tryPushToDb l USER_DB_COLUMNS) as [lw|] eqn:El; [|
        destruct (o =? "and"); [discriminate|];
        destruct (o =? "or"); discriminate ].
      destruct (tryPushToDb r USER_DB_COLUMNS) as [rw|] eqn:Er; [|
        destruct (o =? "and"); [discriminate|];
        destruct (o =? "or"); discriminate ].
      destruct (IHl lw l' Hl eq_refl Hgl) as (lw' & ->).
      destruct (IHr rw r' Hr eq_refl Hgr) as (rw' & ->).
      destruct (o =? "and"); [eexists; reflexivity|].
      destruct (o =? "or"); [eexists; reflexivity | discriminate]. }
  destruct Hb as (w' & Hb). unfold buildFilterResult at 1 3.
  rewrite Hb. simpl. split; [reflexivity|].
  eapply (pushed_case_blind USER_DB_COLUMNS record record' eq_refl Hrec a b);
    eassumption.
Qed.

(** [userName sw "JO"] on [John] against [userName sw "jo"] on [JOHN]. *)
Lemma pushed_predicates_ignore_letter_case_witness :
  matchesPrismaFilter [("userName", JStr "John")]
    (dbWhere (buildUserFilter (Some (Compare "userName" "sw" (JStr "JO")))))
  = matchesPrismaFilter [("userName", JStr "JOHN")]
      (dbWhere (buildUserFilter (Some (Compare "userName" "sw" (JStr "jo"))))).
Proof.
  refine (proj2 (pushed_predicates_ignore_letter_case
                   (Compare "userName" "sw" (JStr "JO"))
                   (Compare "userName" "sw" (JStr "jo"))
                   [("userName", JStr "John")] [("userName", JStr "JOHN")]
                   eq_refl _ _ eq_refl)).
  - simpl. auto.
  - intros k. unfold sameUpToCase. cbn -[String.eqb toLowerCase].
    destruct ("userName" =? k); reflexivity.
Defined.

End FilterLaws.

(* ================================================================== *)
(** * Further laws of the Group PATCH engine                           *)
(* ================================================================== *)

Module GroupLaws.
Import GroupPatch Statements Relations Samples ObjProps GroupProps.

(** ** De-duplication *)

Lemma mapSet_fresh seen m :
  hasValue (Member.value m) seen = false -> mapSet seen m = seen ++ [m].
Proof.
  unfold hasValue. induction seen as [|s r IH]; simpl; [reflexivity|].
  intros H. apply orb_false_elim in H as [Hs Hr].
  rewrite Hs. now rewrite (IH Hr).
Qed.

Lemma distinct_before acc m r :
  distinctValues (acc ++ m :: r) = true ->
  hasValue (Member.value m) acc = false.
Proof.
  unfold hasValue. induction acc as [|a acc' IH]; simpl; [reflexivity|].
  intros H. apply andb_prop in H as [Ha Hr].
  apply negb_true_iff in Ha. rewrite existsb_app in Ha.
  apply orb_false_elim in Ha as [_ Ha]. simpl in Ha.
  apply orb_false_elim in Ha as [Ha _].
  rewrite sameValueZero_sym, Ha. simpl. now apply IH.
Qed.

Lemma fold_mapSet_fixed l : forall acc,
  distinctValues (acc ++ l) = true -> fold_left mapSet l acc = acc ++ l.
Proof.
  induction l as [|m r IH]; simpl; intros acc H.
  - now rewrite app_nil_r.
  - rewrite (mapSet_fresh acc m (distinct_before acc m r H)).
    rewrite IH; rewrite <- app_assoc; [reflexivity | assumption].
Qed.

Lemma length_mapSet seen m :
  (List.length (mapSet seen m) <= S (List.length seen))%nat.
Proof.
  induction seen as [|s r IH]; simpl; [lia|].
  destruct (sameValueZero _ _); simpl; lia.
Qed.

Lemma length_fold_mapSet l : forall acc,
  (List.length (fold_left mapSet l acc)
   <= List.length acc + List.length l)%nat.
Proof.
  induction l as [|m r IH]; simpl; intros acc; [lia|].
  specialize (IH (mapSet acc m)).
  pose proof (length_mapSet acc m). lia.
Qed.

(** X10.  [ensureUniqueMembers] leaves a list without duplicate values
    as it is, order included; so de-duplicating twice is de-duplicating
    once; and it never returns more entries than it was given. *)
Theorem dedup_fixes_duplicate_free_lists :
  forall l : list GroupMemberDto,
    (distinctValues l = true -> ensureUniqueMembers l = l) /\
    ensureUniqueMembers (ensureUniqueMembers l) = ensureUniqueMembers l /\
    (List.length (ensureUniqueMembers l) <= List.length l)%nat.
Proof.
  intros l.
  assert (Hfix : forall l', distinctValues l' = true ->
                            ensureUniqueMembers l' = l').
  { intros l' H. apply (fold_mapSet_fixed l' [] H). }
  split; [apply Hfix|]. split.
  - apply Hfix, ensureUniqueMembers_distinct.
  - apply (length_fold_mapSet l []).
Qed.

Lemma dedup_fixes_duplicate_free_lists_witness :
  distinctValues (members engineering) = true /\
  ensureUniqueMembers (members engineering) = members engineering.
Proof.
  split; [reflexivity|].
  exact (proj1 (dedup_fixes_duplicate_free_lists (members engineering))
               eq_refl).
Defined.

(** ** Remove *)

Lemma filter_none {A} (l : list A) : filter (fun _ => false) l = [].
Proof. induction l; simpl; auto. Qed.

Lemma filter_twice {A} (f g : A -> bool) (l : list A) :
  filter f (filter g l) = filter (fun x => g x && f x) l.
Proof.
  induction l as [|x r IH]; simpl; [reflexivity|].
  destruct (g x); simpl; [destruct (f x)|]; now rewrite IH.
Qed.

Lemma filter_again {A} (f : A -> bool) (l : list A) :
  filter f (filter f l) = filter f l.
Proof.
  induction l as [|x r IH]; simpl; [reflexivity|].
  destruct (f x) eqn:E; simpl; [rewrite E|]; now rewrite IH.
Qed.

(** What an accepted [remove] returns: the members that pass a test, or
    none at all. *)
Lemma handleRemove_ok operation ms multi all ms' :
  handleRemove operation ms multi all = Ok ms' ->
  exists keep, ms' = filter keep ms /\
               handleRemove operation ms' multi all = Ok (filter keep ms').
Proof.
  unfold handleRemove.
  destruct (value operation) as [| | | | |[|item others]|];
    try (destruct (memberPathMatch (lowered (path operation))) as [v|];
         [ intros [= <-]; eexists; split; reflexivity
         | destruct (pathIs (lowered (path operation)) "members");
           [ destruct (negb all); [discriminate|];
             intros [= <-]; exists (fun _ => false);
             now rewrite filter_none
           | discriminate ] ]).
  destruct (negb multi && _); [discriminate|].
  intros [= <-]. eexists; split; reflexivity.
Qed.

Lemma remove_step config st operation st' :
  isOp operation "remove" = true ->
  applyOperation config st operation = Ok st' ->
  displayName st' = displayName st /\
  externalId st' = externalId st /\
  rawPayload st' = rawPayload st /\
  exists keep, members st' = filter keep (members st).
Proof.
  intros Hop Hrun. rewrite applyOperation_remove in Hrun by assumption.
  destruct (handleRemove _ _ _ _) as [ms|] eqn:E; [|discriminate].
  injection Hrun as <-. simpl.
  destruct (handleRemove_ok _ _ _ _ _ E) as (keep & -> & _).
  repeat split. now exists keep.
Qed.

Lemma run_remove config operations : forall st st',
  forallb (fun o => isOp o "remove") operations = true ->
  applyOperations config operations st = Ok st' ->
  displayName st' = displayName st /\
  externalId st' = externalId st /\
  rawPayload st' = rawPayload st /\
  exists keep, members st' = filter keep (members st).
Proof.
  induction operations as [|o r IH]; simpl; intros st st' Hall Hrun.
  - injection Hrun as <-. repeat split.
    exists (fun _ => true). symmetry. apply forallb_filter_id.
    now induction (members st).
  - apply andb_prop in Hall as [Ho Hr].
    destruct (applyOperation config st o) as [st1|] eqn:E; [|discriminate].
    simpl in Hrun.
    destruct (remove_step _ _ _ _ Ho E) as (H1 & H2 & H3 & keep1 & H4).
    destruct (IH _ _ Hr Hrun) as (K1 & K2 & K3 & keep2 & K4).
    rewrite K1, K2, K3, K4, H1, H2, H3, H4. repeat split.
    eexists. apply filter_twice.
Qed.

(** X11.  A batch of [remove] operations the engine accepts only drops
    members: the returned member list is the input list with some entries
    left out, in the same order, and [displayName], [externalId] and the
    payload are those of the input state. *)
Theorem remove_only_drops_members :
  forall (config : GroupMemberPatchConfig) (operations : list PatchOperation)
         (state : GroupPatchState) (res : Res.GroupPatchResult),
    forallb (fun o => isOp o "remove") operations = true ->
    apply operations state config = Ok res ->
    Res.displayName res = displayName state /\
    Res.externalId res = externalId state /\
    Res.payload res = rawPayload state /\
    exists keep, Res.members res = filter keep (members state).
Proof.
  intros config operations state res Hall Hrun. unfold apply in Hrun.
  destruct (applyOperations _ _ _) as [st|] eqn:E; [|discriminate].
  injection Hrun as <-. simpl.
  exact (run_remove config operations _ st Hall E).
Qed.

Lemma remove_only_drops_members_witness :
  exists res,
    apply [removeOne [("value", JStr "user-1")]] engineering defaultConfig
    = Ok res /\
    Res.displayName res = "Engineering".
Proof.
  eexists. split; [reflexivity|].
  refine (proj1 (remove_only_drops_members defaultConfig
                   [removeOne [("value", JStr "user-1")]] engineering _
                   eq_refl eq_refl)).
Defined.

(** X12.  [remove] is idempotent: an accepted [remove], made again on its
    own outcome, is accepted again and changes nothing. *)
Theorem remove_is_idempotent :
  forall (config : GroupMemberPatchConfig) (operation : PatchOperation)
         (state : GroupPatchState) (res : Res.GroupPatchResult),
    isOp operation "remove" = true ->
    apply [operation] state config = Ok res ->
    apply [operation] (stateOfResult res) config = Ok res.
Proof.
  intros config operation state res Hop Hrun.
  unfold apply in *. simpl in *.
  rewrite applyOperation_remove in Hrun by assumption.
  rewrite applyOperation_remove by assumption. simpl in *.
  destruct (handleRemove operation (members state) _ _) as [ms|] eqn:E;
    [|discriminate].
  injection Hrun as <-. simpl.
  destruct (handleRemove_ok _ _ _ _ _ E) as (keep & -> & ->).
  simpl. now rewrite filter_again.
Qed.

Lemma remove_is_idempotent_witness :
  exists res,
    apply [removeOne [("value", JStr "user-1")]] engineering defaultConfig
    = Ok res /\
    apply [removeOne [("value", JStr "user-1")]] (stateOfResult res)
      defaultConfig
    = Ok res.
Proof.
  eexists. split; [reflexivity|].
  exact (remove_is_idempotent defaultConfig
           (removeOne [("value", JStr "user-1")])
           engineering _ eq_refl eq_refl).
Defined.

(** ** Removal through a path filter *)

Lemma lowerChar_lowerChar c : lowerChar (lowerChar c) = lowerChar c.
Proof. destruct c as [[] [] [] [] [] [] [] []]; reflexivity. Qed.

Lemma toLowerCase_toLowerCase s : toLowerCase (toLowerCase s) = toLowerCase s.
Proof.
  induction s as [|c r IH]; simpl; [reflexivity|].
  now rewrite lowerChar_lowerChar, IH.
Qed.

Lemma toLowerCase_append a b :
  toLowerCase (String.append a b)
  = String.append (toLowerCase a) (toLowerCase b).
Proof. induction a as [|c r IH]; simpl; [reflexivity | now rewrite IH]. Qed.

Lemma lower_tail c r :
  toLowerCase (String c r) = String c r ->
  lowerChar c = c /\ toLowerCase r = r.
Proof. simpl. intros [= Hc Hr]. auto. Qed.

Lemma stripLit_lower l : forall s s',
  toLowerCase s = s -> stripLit l s = Some s' -> toLowerCase s' = s'.
Proof.
  induction l as [|a l' IH]; intros s s' Hs H; simpl in H.
  - now injection H as <-.
  - destruct s as [|b r]; [discriminate|].
    destruct (Ascii.eqb _ _); [|discriminate].
    apply lower_tail in Hs as [_ Hr]. exact (IH r s' Hr H).
Qed.

(** What the pattern captures from a lower-case text is lower-case. *)
Lemma matchPieces_lower p : forall s cap v,
  toLowerCase s = s -> toLowerCase cap = cap ->
  matchPieces p s cap = Some v -> toLowerCase v = v.
Proof.
  induction p as [|piece rest IH]; intros s cap v Hs Hcap H.
  - simpl in H. destruct (s =? ""); [|discriminate]. now injection H as <-.
  - destruct piece as [l| | |].
    + simpl in H. destruct (stripLit l s) as [s'|] eqn:E; [|discriminate].
      exact (IH s' cap v (stripLit_lower l s s' Hs E) Hcap H).
    + cbn [matchPieces] in H. revert v Hs H.
      induction s as [|c r IHs]; intros v Hs H; [discriminate|].
      apply lower_tail in Hs as [_ Hr].
      destruct (isSpace c); [|discriminate].
      match type of H with
      | match ?f r with _ => _ end = _ => destruct (f r) as [x|] eqn:E
      end.
      * injection H as <-. exact (IHs x Hr eq_refl).
      * exact (IH r cap v Hr Hcap H).
    + cbn [matchPieces] in H.
      destruct s as [|c r]; [exact (IH _ cap v Hs Hcap H)|].
      destruct (Ascii.eqb c quoteChar); [|exact (IH _ cap v Hs Hcap H)].
      destruct (matchPieces rest r cap) as [x|] eqn:E.
      * injection H as <-.
        apply lower_tail in Hs as [_ Hr]. exact (IH r cap x Hr Hcap E).
      * exact (IH _ cap v Hs Hcap H).
    + cbn [matchPieces] in H. clear Hcap.
      match type of H with
      | ?f s _ = _ =>
          assert (G : forall s acc v,
                    toLowerCase s = s -> toLowerCase acc = acc ->
                    f s acc = Some v -> toLowerCase v = v)
      end.
      { clear s v Hs H.
        induction s as [|c r IHs]; intros acc v Hs Hacc H; [discriminate|].
        apply lower_tail in Hs as [Hc Hr].
        destruct (Ascii.eqb c quoteChar); [discriminate|].
        assert (Hacc' :
                  toLowerCase (String.append acc (String c EmptyString))
                  = String.append acc (String c EmptyString)).
        { rewrite toLowerCase_append, Hacc. simpl. now rewrite Hc. }
        match type of H with
        | match ?g with _ => _ end = _ => destruct g as [x|] eqn:E
        end.
        - injection H as <-. exact (IHs _ x Hr Hacc' E).
        - exact (IH r _ v Hr Hacc' H). }
      exact (G s EmptyString v Hs eq_refl H).
Qed.

Lemma memberPathMatch_lower path v :
  memberPathMatch (lowered path) = Some v -> toLowerCase v = v.
Proof.
  destruct path as [p|]; [|discriminate]. intros H.
  exact (matchPieces_lower memberPathPattern (toLowerCase p) EmptyString v
           (toLowerCase_toLowerCase p) eq_refl H).
Qed.

(** X13.  Removal through a path filter, [members[value eq ...]], never
    reaches a member whose [value] holds an upper-case letter: the path
    is lower-cased before the value is taken from it, and the values are
    then compared as they are. *)
Theorem path_filter_misses_upper_case_values :
  forall (config : GroupMemberPatchConfig) (operation : PatchOperation)
         (state : GroupPatchState) (res : Res.GroupPatchResult)
         (m : GroupMemberDto) (s : string),
    isOp operation "remove" = true ->
    carriesArray operation = false ->
    pathIs (lowered (path operation)) "members" = false ->
    apply [operation] state config = Ok res ->
    In m (members state) ->
    Member.value m = JStr s ->
    toLowerCase s <> s ->
    In m (Res.members res).
Proof.
  intros config operation state res m s Hop Harr Hpath Hrun Hin Hm Hs.
  unfold apply in Hrun. simpl in Hrun.
  rewrite applyOperation_remove in Hrun by assumption. simpl in Hrun.
  destruct (handleRemove _ _ _ _) as [ms|] eqn:E; [|discriminate].
  injection Hrun as <-. simpl.
  assert (Hms : exists v, toLowerCase v = v /\
                  ms = filter (fun m => negb (strictEq (Member.value m)
                                                       (JStr v)))
                              (members state)).
  { unfold handleRemove in E. unfold carriesArray in Harr.
    destruct (value operation) as [| | | | |[|item others]|];
      try discriminate Harr;
      (destruct (memberPathMatch (lowered (path operation))) as [v|] eqn:Ev;
       [ injection E as <-; exists v; split;
         [ exact (memberPathMatch_lower _ _ Ev) | reflexivity ]
       | rewrite Hpath in E; discriminate ]). }
  destruct Hms as (v & Hv & ->).
  apply filter_In. split; [assumption|].
  rewrite Hm. simpl. apply negb_true_iff, String.eqb_neq.
  intros ->. now apply Hs.
Qed.

(** A member called [User-1] survives the removal of
    [members[value eq Q User-1 Q]], where Q is the double quote; one
    called [user-1] does not. *)
Lemma path_filter_misses_upper_case_values_witness :
  (exists res,
     apply [removeWhere "User-1"] (groupOfOne "User-1") defaultConfig
     = Ok res /\
     In (bare "User-1") (Res.members res)) /\
  (exists res,
     apply [removeWhere "user-1"] (groupOfOne "user-1") defaultConfig
     = Ok res /\
     Res.members res = []).
Proof.
  split; eexists; (split; [reflexivity|]); [|reflexivity].
  refine (path_filter_misses_upper_case_values defaultConfig
            (removeWhere "User-1") (groupOfOne "User-1") _
            (bare "User-1") "User-1" eq_refl eq_refl eq_refl eq_refl _
            eq_refl _).
  - now left.
  - discriminate.
Defined.

(** ** Batches *)

(** X14.  A batch is the sequence of its parts: applying [a ++ b] is
    applying [a] and then, if that is accepted, [b] to the state made of
    its result; if [a] is rejected so is the whole, with the same
    failure. *)
Theorem batch_is_sequence_of_parts :
  forall (config : GroupMemberPatchConfig) (a b : list PatchOperation)
         (state : GroupPatchState),
    apply (a ++ b) state config
    = (r <- apply a state config ;; apply b (stateOfResult r) config).
Proof.
  intros config a b state. unfold apply.
  rewrite applyOperations_app.
  destruct (applyOperations config a _) as [st|]; simpl; [|reflexivity].
  now destruct st.
Qed.

Lemma mapM_toMemberDto_status items x :
  mapM toMemberDto items = Throw x ->
  x = Patch {| status := 400; scimType := invalidValue |}.
Proof.
  induction items as [|y r IH]; simpl; [discriminate|].
  destruct (toMemberDto y) as [z|x'] eqn:E; simpl.
  - destruct (mapM toMemberDto r); simpl; [discriminate|].
    intros [= <-]. now apply IH.
  - intros [= <-]. unfold toMemberDto in E.
    destruct y as [| | | | | |o]; try (now injection E as <-).
    destruct (hasKey o "value"); [discriminate | now injection E as <-].
Qed.

Ltac thrown H :=
  first [ discriminate H
        | injection H as <-; eexists;
          split; [reflexivity | split; [reflexivity | discriminate]] ].

Lemma applyOperation_status config st operation x :
  applyOperation config st operation = Throw x ->
  exists e : PatchError,
    x = e /\ status e = 400%Z /\ scimType e <> noTarget.
Proof.
  assert (Hm : forall items x', mapM toMemberDto items = Throw x' ->
                 exists e : PatchError,
                   x' = e /\ status e = 400%Z /\ scimType e <> noTarget).
  { intros items x' H. apply mapM_toMemberDto_status in H as ->.
    eexists. split; [reflexivity | split; [reflexivity | discriminate]]. }
  unfold applyOperation.
  destruct (lowered (op operation)) as [o|]; [|intros H; thrown H].
  destruct ((o =? "") || negb (supportedOp o)); [intros H; thrown H|].
  destruct (o =? "replace").
  - unfold handleReplace.
    destruct (missing (lowered (path operation))).
    + destruct (value operation) as [| | | |s|items|obj]; simpl;
        try (intros H; thrown H).
      * destruct (getProp (indexed 0 items) "members") as [| | | | |ms0|];
          simpl; try discriminate.
        destruct (mapM toMemberDto ms0) eqn:E; simpl; [discriminate|].
        intros [= <-]. exact (Hm _ _ E).
      * destruct (getProp obj "members") as [| | | | |ms0|];
          simpl; try discriminate.
        destruct (mapM toMemberDto ms0) eqn:E; simpl; [discriminate|].
        intros [= <-]. exact (Hm _ _ E).
    + destruct (pathIs (lowered (path operation)) "displayname");
        [destruct (value operation); intros H; thrown H|].
      destruct (pathIs (lowered (path operation)) "externalid");
        [discriminate|].
      destruct (pathIs (lowered (path operation)) "members");
        [|intros H; thrown H].
      destruct (value operation) as [| | | | |items|];
        try (intros H; thrown H).
      destruct (mapM toMemberDto items) eqn:E; simpl; [discriminate|].
      intros [= <-]. exact (Hm _ _ E).
  - destruct (o =? "add").
    + unfold handleAdd.
      destruct (negb (missing (lowered (path operation))) && _);
        [intros H; thrown H|].
      destruct (negb (truthy (value operation))); [intros H; thrown H|].
      match goal with
      | |- context [if ?c then throw _ _ else _] =>
          destruct c; [intros H; thrown H|]
      end.
      destruct (mapM toMemberDto _) eqn:E; simpl; [discriminate|].
      intros [= <-]. exact (Hm _ _ E).
    + unfold handleRemove.
      destruct (value operation) as [| | | | |[|item others]|];
        try (destruct (memberPathMatch (lowered (path operation)));
             [ discriminate
             | destruct (pathIs (lowered (path operation)) "members");
               [ destruct (negb (allowRemoveAllMembers config));
                 [intros H; thrown H | discriminate]
               | intros H; thrown H ] ]).
      destruct (negb (allowMultiMemberRemove config) && _);
        [intros H; thrown H | discriminate].
Qed.

(** X15.  Whatever the batch, the state and the configuration, what the
    group engine throws is a [PatchError], never a raw exception: a
    failure of status 400, typed [invalidValue] or [invalidPath] and
    never [noTarget]. *)
Theorem group_rejections_are_400 :
  forall (config : GroupMemberPatchConfig) (operations : list PatchOperation)
         (state : GroupPatchState) (x : Exception),
    apply operations state config = Throw x ->
    exists e : PatchError,
      x = e /\ status e = 400%Z /\ scimType e <> noTarget.
Proof.
  intros config operations state x. unfold apply.
  generalize {| displayName := displayName state;
                externalId := externalId state;
                members := members state;
                rawPayload := rawPayload state |}.
  induction operations as [|o r IH]; simpl; intros st H; [discriminate|].
  destruct (applyOperation config st o) as [st1|x1] eqn:E; simpl in H.
  - exact (IH st1 H).
  - injection H as <-. exact (applyOperation_status _ _ _ _ E).
Qed.

Lemma group_rejections_are_400_witness :
  exists e : PatchError,
    apply [addTwo] engineering strictConfig = Throw e /\ status e = 400%Z.
Proof.
  destruct (group_rejections_are_400 strictConfig [addTwo] engineering
              (Patch {| status := 400; scimType := invalidValue |})
              eq_refl) as (e & He & Hs & _).
  exists e. split; [now rewrite <- He | exact Hs].
Defined.

Lemma applyOperation_unknown config st operation :
  knownOp operation = false ->
  applyOperation config st operation
  = throw 400%Z invalidValue.
Proof.
  unfold knownOp, isOp, applyOperation.
  destruct (lowered (op operation)) as [o|]; [|reflexivity].
  unfold supportedOp. intros H.
  apply orb_false_elim in H as [H Hrm].
  apply orb_false_elim in H as [Hadd Hrep].
  rewrite Hadd, Hrep, Hrm. simpl. now rewrite orb_true_r.
Qed.

(** X16.  A batch that holds, anywhere, an operation whose [op] is
    missing or is not [add], [replace] or [remove] in some letter case is
    never accepted. *)
Theorem unknown_op_rejects_batch :
  forall (config : GroupMemberPatchConfig) (operations : list PatchOperation)
         (state : GroupPatchState) (operation : PatchOperation),
    In operation operations ->
    knownOp operation = false ->
    exists e : PatchError, apply operations state config = Throw e.
Proof.
  intros config operations state operation Hin Hop. unfold apply.
  generalize {| displayName := displayName state;
                externalId := externalId state;
                members := members state;
                rawPayload := rawPayload state |}.
  induction operations as [|o r IH]; simpl; intros st; [contradiction|].
  destruct Hin as [-> | Hin].
  - rewrite applyOperation_unknown by assumption. simpl.
    unfold throw. eauto.
  - destruct (applyOperation config st o) as [st1|x1] eqn:E; simpl.
    + exact (IH Hin st1).
    + destruct (applyOperation_status _ _ _ _ E) as (e & -> & _). eauto.
Qed.

Lemma unknown_op_rejects_batch_witness :
  exists e : PatchError,
    apply [renameToSales;
           {| op := Some "move"; path := None; value := JUndefined |}]
          engineering defaultConfig = Throw e.
Proof.
  refine (unknown_op_rejects_batch defaultConfig _ engineering
            {| op := Some "move"; path := None; value := JUndefined |}
            _ eq_refl).
  right. now left.
Defined.

(** ** The payload *)

Lemma hasKey_storeOthers k obj : forall payload,
  In k ownAttributes ->
  hasKey (storeOthers payload obj) k = hasKey payload k.
Proof.
  unfold storeOthers.
  induction obj as [|[key v] r IH]; simpl; intros payload Hk;
    [reflexivity|].
  rewrite IH by assumption.
  destruct (negb (key =? "displayName") && negb (key =? "externalId") &&
            negb (key =? "members") && negb (key =? "schemas")) eqn:E;
    [|reflexivity].
  rewrite hasKey_setProp.
  replace (key =? k) with false; [apply orb_false_r|].
  symmetry. apply String.eqb_neq. intros ->.
  simpl in Hk. destruct Hk as [<-|[<-|[<-|[<-|[]]]]]; discriminate E.
Qed.

Lemma payload_step config st operation st' k :
  In k ownAttributes ->
  applyOperation config st operation = Ok st' ->
  hasKey (rawPayload st') k = hasKey (rawPayload st) k.
Proof.
  intros Hk. unfold applyOperation.
  destruct (lowered (op operation)) as [o|]; [|discriminate].
  destruct ((o =? "") || negb (supportedOp o)); [discriminate|].
  destruct (o =? "replace").
  - unfold handleReplace.
    destruct (missing (lowered (path operation))).
    + destruct (value operation) as [| | | |s|items|obj]; simpl;
        try discriminate.
      * now intros [= <-].
      * destruct (match getProp (indexed 0 items) "members" with
                  | JArr ms => _ | _ => _ end); simpl; [|discriminate].
        intros [= <-]. simpl. now apply hasKey_storeOthers.
      * destruct (match getProp obj "members" with
                  | JArr ms => _ | _ => _ end); simpl; [|discriminate].
        intros [= <-]. simpl. now apply hasKey_storeOthers.
    + destruct (pathIs (lowered (path operation)) "displayname");
        [destruct (value operation); try discriminate; now intros [= <-]|].
      destruct (pathIs (lowered (path operation)) "externalid");
        [now intros [= <-]|].
      destruct (pathIs (lowered (path operation)) "members");
        [|discriminate].
      destruct (value operation) as [| | | | |items|]; try discriminate.
      destruct (mapM toMemberDto items); simpl; [|discriminate].
      now intros [= <-].
  - destruct (o =? "add").
    + destruct (handleAdd _ _ _); simpl; [|discriminate]. now intros [= <-].
    + destruct (handleRemove _ _ _ _); simpl; [|discriminate].
      now intros [= <-].
Qed.

(** X17.  The engine never moves a group's own attributes into the
    payload: for each of [displayName], [externalId], [members] and
    [schemas], the payload of an accepted batch holds that key exactly
    when the payload of the input state did. *)
Theorem own_attributes_stay_out_of_payload :
  forall (config : GroupMemberPatchConfig) (operations : list PatchOperation)
         (state : GroupPatchState) (res : Res.GroupPatchResult) (k : string),
    In k ownAttributes ->
    apply operations state config = Ok res ->
    hasKey (Res.payload res) k = hasKey (rawPayload state) k.
Proof.
  intros config operations state res k Hk. unfold apply.
  change (rawPayload state)
    with (rawPayload {| displayName := displayName state;
                        externalId := externalId state;
                        members := members state;
                        rawPayload := rawPayload state |}) at 2.
  generalize {| displayName := displayName state;
                externalId := externalId state;
                members := members state;
                rawPayload := rawPayload state |}.
  intros st H.
  destruct (applyOperations config operations st) as [st'|] eqn:E;
    [|discriminate].
  injection H as <-. simpl. revert st E.
  induction operations as [|o r IH]; simpl; intros st E.
  - now injection E as <-.
  - destruct (applyOperation config st o) as [st1|] eqn:E1; [|discriminate].
    simpl in E. rewrite (IH st1 E).
    exact (payload_step _ _ _ _ _ Hk E1).
Qed.

Lemma own_attributes_stay_out_of_payload_witness :
  exists res,
    apply [replaceWhole] engineering defaultConfig = Ok res /\
    hasKey (Res.payload res) "displayName" = false /\
    hasKey (Res.payload res) "team" = true.
Proof.
  eexists. split; [reflexivity|]. split; [|reflexivity].
  refine (own_attributes_stay_out_of_payload defaultConfig [replaceWhole]
            engineering _ "displayName" _ eq_refl).
  now left.
Defined.

(** ** Add *)

Lemma hasValue_mapSet v seen m :
  hasValue v (mapSet seen m)
  = hasValue v seen || sameValueZero (Member.value m) v.
Proof.
  exact (existsb_mapSet m {| Member.value := v; Member.display := JUndefined;
                             Member.type := JUndefined |} seen).
Qed.

Lemma hasValue_fold v l : forall acc,
  hasValue v (fold_left mapSet l acc) = hasValue v acc || hasValue v l.
Proof.
  induction l as [|m r IH]; simpl; intros acc.
  - now rewrite orb_false_r.
  - rewrite IH, hasValue_mapSet. now rewrite orb_assoc.
Qed.

Lemma hasValue_app v a b :
  hasValue v (a ++ b) = hasValue v a || hasValue v b.
Proof. apply existsb_app. Qed.

(** X18.  An accepted [add] yields the union: a value is among the
    returned members exactly when it was among the members before or
    among the entries supplied; the list grows by at most the number of
    entries supplied, which is at most one when adding several members at
    once is switched off. *)
Theorem add_yields_union :
  forall (config : GroupMemberPatchConfig) (operation : PatchOperation)
         (state : GroupPatchState) (res : Res.GroupPatchResult),
    isOp operation "add" = true ->
    apply [operation] state config = Ok res ->
    (forall v,
       hasValue v (Res.members res)
       = hasValue v (members state)
         || hasValue v (map memberOf (addedEntries operation))) /\
    (List.length (Res.members res)
     <= List.length (members state)
        + List.length (addedEntries operation))%nat /\
    (allowMultiMemberAdd config = false ->
     List.length (Res.members res) <= S (List.length (members state)))%nat.
Proof.
  intros config operation state res Hop Hrun.
  unfold apply in Hrun. simpl in Hrun.
  rewrite applyOperation_add in Hrun by assumption. simpl in Hrun.
  destruct (handleAdd _ _ _) as [ms|] eqn:E; [|discriminate].
  injection Hrun as <-. simpl.
  pose proof (handleAdd_ok _ _ _ _ E) as ->.
  assert (Hlen : (List.length
                    (ensureUniqueMembers
                       (members state
                        ++ map memberOf (addedEntries operation)))
                  <= List.length (members state)
                     + List.length (addedEntries operation))%nat).
  { pose proof (length_fold_mapSet
                  (members state ++ map memberOf (addedEntries operation))
                  []) as H.
    rewrite length_app, length_map in H. exact H. }
  split; [|split; [exact Hlen|]].
  - intros v. unfold ensureUniqueMembers.
    rewrite hasValue_fold, hasValue_app. reflexivity.
  - intros Hstrict. unfold handleAdd in E. rewrite Hstrict in E.
    destruct (negb (missing (lowered (path operation))) && _);
      [discriminate|].
    destruct (negb (truthy (value operation))); [discriminate|].
    fold (addedEntries operation) in E. simpl in E.
    destruct (1 <? List.length (addedEntries operation))%nat eqn:El;
      [discriminate|].
    apply Nat.ltb_ge in El. lia.
Qed.

Lemma add_yields_union_witness :
  exists res,
    apply [addTwo] engineering defaultConfig = Ok res /\
    hasValue (JStr "u2") (Res.members res) = true.
Proof.
  eexists. split; [reflexivity|].
  exact (proj1 (add_yields_union defaultConfig addTwo engineering _
                  eq_refl eq_refl) (JStr "u2")).
Defined.

(** ** Add and remove *)

Lemma fresh_value_kept v l :
  hasValue v l = false ->
  forallb (fun m => negb (setHas [v] (Member.value m))) l = true.
Proof.
  unfold hasValue, setHas.
  induction l as [|x r IH]; cbn [existsb forallb]; [reflexivity|].
  intros H. apply orb_false_elim in H as [Hx Hr].
  rewrite orb_false_r, sameValueZero_sym, Hx. simpl. exact (IH Hr).
Qed.

(** X19.  Adding a member that is not yet in a group without duplicates
    and removing it again gives back the member list as it was, entries
    and order, under every configuration. *)
Theorem add_then_remove_restores_members :
  forall (config : GroupMemberPatchConfig) (state : GroupPatchState)
         (entry : Obj) (id : string),
    distinctValues (members state) = true ->
    hasValue (JStr id) (members state) = false ->
    hasKey entry "value" = true ->
    getProp entry "value" = JStr id ->
    apply [addOne entry; removeOne entry] state config
    = Ok {| Res.displayName := displayName state;
            Res.externalId := externalId state;
            Res.payload := rawPayload state;
            Res.members := members state |}.
Proof.
  intros config state entry id Hd Hfresh Hk Hv.
  set (m := {| Member.value := JStr id;
               Member.display := getProp entry "display";
               Member.type := getProp entry "type" |}).
  assert (Hadd : handleAdd (addOne entry) (members state)
                   (allowMultiMemberAdd config)
                 = Ok (members state ++ [m])).
  { unfold handleAdd. simpl. rewrite Hk, Hv. simpl.
    rewrite andb_false_r. simpl. f_equal.
    unfold ensureUniqueMembers. change (fold_left mapSet (members state ++ [m]) [])
      with (fold_left mapSet (members state ++ [m]) ([] ++ [])).
    rewrite fold_left_app. simpl.
    rewrite (fold_mapSet_fixed (members state) [] Hd). simpl.
    now apply mapSet_fresh. }
  assert (Hrem : handleRemove (removeOne entry) (members state ++ [m])
                   (allowMultiMemberRemove config)
                   (allowRemoveAllMembers config)
                 = Ok (members state)).
  { unfold handleRemove. simpl. rewrite Hk, Hv, andb_false_r. f_equal.
    rewrite filter_app. simpl. rewrite String.eqb_refl. simpl.
    rewrite app_nil_r. apply forallb_filter_id.
    exact (fresh_value_kept (JStr id) (members state) Hfresh). }
  unfold apply. simpl.
  unfold applyOperation at 1. simpl. rewrite Hadd. simpl.
  unfold applyOperation. simpl. rewrite Hrem. reflexivity.
Qed.

Lemma add_then_remove_restores_members_witness :
  apply [addOne [("value", JStr "user-3")];
         removeOne [("value", JStr "user-3")]] engineering strictConfig
  = Ok {| Res.displayName := "Engineering";
          Res.externalId := Some "grp-001";
          Res.payload := [];
          Res.members := members engineering |}.
Proof.
  exact (add_then_remove_restores_members strictConfig engineering
           [("value", JStr "user-3")] "user-3"
           eq_refl eq_refl eq_refl eq_refl).
Defined.

End GroupLaws.

(* ================================================================== *)
(** * Further laws of the User PATCH engine                            *)
(* ================================================================== *)

Module UserLaws.
Import UserPatch Statements Relations Samples ObjProps UserProps.

(** ** Dotted paths *)

Lemma getProp_deleteProp_same o k : getProp (deleteProp o k) k = JUndefined.
Proof.
  unfold deleteProp. induction o as [|[k' v] r IH]; simpl; [reflexivity|].
  destruct (k' =? k) eqn:E; simpl; [assumption|]. now rewrite E.
Qed.

(** X20.  For a dotted path whose parent and child are not [__proto__]:
    what [applyDotNotation] writes is the entry the payload then holds
    there, whatever it held before and in whatever letter case it
    spelled the parent; and after [removeDotNotation] at the same path
    the parent object has no entry for the child. *)
Theorem dotted_write_then_read :
  forall (rawPayload : Obj) (originalPath : string) (value : JValue),
    ordinaryNames rawPayload originalPath = true ->
    readDotted (applyDotNotation rawPayload originalPath value) originalPath
    = value /\
    readDotted
      (removeDotNotation (applyDotNotation rawPayload originalPath value)
         originalPath)
      originalPath
    = JUndefined.
Proof.
  intros rawPayload originalPath value.
  unfold ordinaryNames, readDotted, removeDotNotation, applyDotNotation.
  destruct (splitPath originalPath) as [parentAttr childAttr].
  set (parentKey := findParentKey rawPayload parentAttr).
  intros Hnames. apply andb_prop in Hnames as [Hchild Hparent].
  apply negb_true_iff in Hchild, Hparent.
  assert (Hkey : forall V,
            findParentKey (setProp rawPayload parentKey V) parentAttr
            = parentKey)
    by (intros V; apply findParentKey_setProp).
  assert (Hown : forall o, reachesPrototype o parentKey = false)
    by (intros o; unfold reachesPrototype; now rewrite Hparent).
  assert (Hassign : forall o v, assign o childAttr v = setProp o childAttr v)
    by (intros o v; unfold assign; now rewrite Hchild).
  rewrite Hown.
  destruct (getProp rawPayload parentKey) as [| | | | | |existing];
    try change [(childAttr, value)] with (setProp [] childAttr value);
    rewrite ?Hassign, ?Hkey, ?Hown, ?getProp_setProp_same;
    (split; [reflexivity|]);
    rewrite ?setProp_setProp, ?Hkey, ?getProp_setProp_same;
    apply getProp_deleteProp_same.
Qed.

(** [name.givenName] on the payload of the sample user. *)
Lemma dotted_write_then_read_witness :
  readDotted (applyDotNotation (rawPayload jdoe) "NAME.givenName"
                (JStr "Jane")) "NAME.givenName"
  = JStr "Jane".
Proof.
  exact (proj1 (dotted_write_then_read (rawPayload jdoe) "NAME.givenName"
                  (JStr "Jane") eq_refl)).
Defined.

(** ** Paths *)

Lemma toLowerCase_empty s : (toLowerCase s =? "") = (s =? "").
Proof. now destruct s. Qed.

Lemma missing_lowered path : missing (lowered path) = missing path.
Proof. destruct path as [p|]; simpl; [apply toLowerCase_empty | reflexivity]. Qed.

Lemma pathIs_missing path k :
  missing path = true -> k <> "" -> pathIs (lowered path) k = false.
Proof.
  destruct path as [p|]; [|reflexivity].
  unfold missing, lowered, option_map, pathIs.
  intros Hp Hk. apply String.eqb_eq in Hp. subst p. cbn [toLowerCase].
  apply String.eqb_neq. congruence.
Qed.

Lemma hasKey_filter_sub (f : string * JValue -> bool) o k :
  hasKey o k = false -> hasKey (filter f o) k = false.
Proof.
  induction o as [|[k' v] r IH]; simpl; [reflexivity|].
  intros H. apply orb_false_elim in H as [Hk Hr].
  destruct (f (k', v)); simpl; [rewrite Hk|]; now apply IH.
Qed.

Lemma hasKey_filter_out (f : string * JValue -> bool) o k :
  (forall v, f (k, v) = false) -> hasKey (filter f o) k = false.
Proof.
  intros Hf. induction o as [|[k' v] r IH]; simpl; [reflexivity|].
  destruct (f (k', v)) eqn:E; simpl; [|assumption].
  rewrite IH, orb_false_r. apply String.eqb_neq. intros ->.
  now rewrite Hf in E.
Qed.

Section Laws.

Variable P : ScimPatchPath.

(** ** Rejections *)

Lemma user_applyOperation_unknown config st operation :
  knownOp operation = false ->
  applyOperation P config st operation = throw 400%Z invalidValue.
Proof.
  unfold knownOp, isOp, applyOperation.
  destruct (lowered (op operation)) as [o|]; [|reflexivity].
  unfold supportedOp. intros H.
  apply orb_false_elim in H as [H Hrm].
  apply orb_false_elim in H as [Hadd Hrep].
  rewrite Hadd, Hrep, Hrm. simpl. now rewrite orb_true_r.
Qed.

Lemma user_applyOperation_remove config st operation :
  isOp operation "remove" = true ->
  applyOperation P config st operation
  = applyRemove P (path operation) (lowered (path operation)) st config.
Proof.
  intros H. unfold applyOperation.
  now rewrite (GroupProps.isOp_lowered _ _ H).
Qed.

Lemma applyRemove_pathless config st path :
  missing path = true ->
  applyRemove P path (lowered path) st config = throw 400%Z noTarget.
Proof.
  intros Hp. unfold applyRemove.
  rewrite (pathIs_missing path "active" Hp) by discriminate.
  assert (Hnone : forall pred, present path pred = None).
  { intros pred. destruct path as [p|]; [|reflexivity]. simpl in *.
    now rewrite Hp. }
  rewrite !Hnone. now destruct (verbosePatch config).
Qed.

(** A batch with an operation that fails on every state is rejected. *)
Lemma failing_step_rejects config operations operation :
  In operation operations ->
  (forall st, exists e, applyOperation P config st operation = Throw e) ->
  forall state, exists e, apply P operations state config = Throw e.
Proof.
  intros Hin Hfail state. unfold apply. revert state.
  induction operations as [|o r IH]; simpl; intros st; [contradiction|].
  destruct Hin as [-> | Hin].
  - destruct (Hfail st) as (e & ->). simpl. eauto.
  - destruct (applyOperation P config st o) as [st1|e1]; simpl; [|eauto].
    exact (IH Hin st1).
Qed.

(** X21.  A batch that holds, anywhere, an operation whose [op] is
    missing or is not [add], [replace] or [remove] in some letter case is
    never accepted by the user engine; on its own such an operation
    fails with status 400, [invalidValue]. *)
Theorem unknown_op_rejects_user_batch :
  forall (config : PatchConfig) (operations : list PatchOperation)
         (state : UserPatchState) (operation : PatchOperation),
    In operation operations ->
    knownOp operation = false ->
    (exists e, apply P operations state config = Throw e) /\
    apply P [operation] state config = throw 400%Z invalidValue.
Proof.
  intros config operations state operation Hin Hop. split.
  - apply (failing_step_rejects config operations operation Hin).
    intros st. rewrite user_applyOperation_unknown by assumption.
    unfold throw. eauto.
  - unfold apply. simpl.
    now rewrite user_applyOperation_unknown by assumption.
Qed.

(** X22.  A [remove] without a path is never accepted, wherever it
    stands in a batch; on its own it fails with status 400, [noTarget]. *)
Theorem remove_needs_a_path :
  forall (config : PatchConfig) (operations : list PatchOperation)
         (state : UserPatchState) (operation : PatchOperation),
    In operation operations ->
    isOp operation "remove" = true ->
    missing (path operation) = true ->
    (exists e, apply P operations state config = Throw e) /\
    apply P [operation] state config = throw 400%Z noTarget.
Proof.
  intros config operations state operation Hin Hop Hpath. split.
  - apply (failing_step_rejects config operations operation Hin).
    intros st. rewrite user_applyOperation_remove by assumption.
    rewrite applyRemove_pathless by assumption. unfold throw. eauto.
  - unfold apply. simpl.
    rewrite user_applyOperation_remove by assumption.
    now rewrite applyRemove_pathless by assumption.
Qed.

End Laws.

Lemma unknown_op_rejects_user_batch_witness :
  apply samplePaths [{| op := Some "move"; path := None;
                        value := JUndefined |}] jdoe plainPatch
  = throw 400%Z invalidValue.
Proof.
  refine (proj2 (unknown_op_rejects_user_batch samplePaths plainPatch
                   [{| op := Some "move"; path := None;
                       value := JUndefined |}] jdoe
                   {| op := Some "move"; path := None; value := JUndefined |}
                   _ eq_refl)).
  now left.
Defined.

Lemma remove_needs_a_path_witness :
  apply samplePaths [{| op := Some "Remove"; path := None;
                        value := JUndefined |}] jdoe plainPatch
  = throw 400%Z noTarget.
Proof.
  refine (proj2 (remove_needs_a_path samplePaths plainPatch
                   [{| op := Some "Remove"; path := None;
                       value := JUndefined |}] jdoe
                   {| op := Some "Remove"; path := None;
                      value := JUndefined |}
                   _ eq_refl eq_refl)).
  now left.
Defined.

(** ** What an operation leaves alone *)

Section Frames.

Variable P : ScimPatchPath.

Lemma present_always path :
  missing path = false -> exists p, present path (fun _ => true) = Some p.
Proof.
  destruct path as [p|]; simpl; [|discriminate].
  intros ->. simpl. eauto.
Qed.

Lemma elsewhere_step config st operation st' :
  elsewhere operation = true ->
  applyOperation P config st operation = Ok st' ->
  fieldsOf st' = fieldsOf st.
Proof.
  unfold elsewhere, firstClassPath. intros He.
  apply andb_prop in He as [Hpath Hfirst].
  apply negb_true_iff in Hpath, Hfirst.
  apply orb_false_elim in Hfirst as [Hfirst Hex].
  apply orb_false_elim in Hfirst as [Hfirst Hdn].
  apply orb_false_elim in Hfirst as [Hac Hun].
  destruct (present_always _ Hpath) as (p0 & Hp0).
  assert (Hwith : forall r : Result Obj,
            (rawPayload' <- r ;;
             Ok {| userName := userName st; displayName := displayName st;
                   externalId := externalId st; active := active st;
                   rawPayload := rawPayload' |}) = Ok st' ->
            fieldsOf st' = fieldsOf st).
  { intros [raw|e]; simpl; [|discriminate]. now intros [= <-]. }
  unfold applyOperation.
  destruct (lowered (op operation)) as [o|]; [|discriminate].
  destruct ((o =? "") || negb (supportedOp o)); [discriminate|].
  destruct ((o =? "add") || (o =? "replace")).
  - unfold applyAddOrReplace. rewrite Hac, Hun, Hdn, Hex.
    destruct (present (path operation) (isExtensionPath P)) as [p|].
    { destruct (parseExtensionPath P p) as [[e|]|]; simpl;
        [apply Hwith | now intros [= <-] | discriminate]. }
    destruct (present (path operation) (isValuePath P)) as [p|].
    { destruct (parseValuePath P p) as [[vp|]|]; simpl;
        [apply Hwith | now intros [= <-] | discriminate]. }
    destruct (if verbosePatch config then _ else None) as [p|];
      [apply Hwith|].
    rewrite Hp0. apply Hwith.
  - unfold applyRemove. rewrite Hac.
    destruct (present (path operation) (isExtensionPath P)) as [p|].
    { destruct (parseExtensionPath P p) as [[e|]|]; simpl;
        [apply Hwith | now intros [= <-] | discriminate]. }
    destruct (present (path operation) (isValuePath P)) as [p|].
    { destruct (parseValuePath P p) as [[vp|]|]; simpl;
        [apply Hwith | now intros [= <-] | discriminate]. }
    destruct (if verbosePatch config then _ else None) as [p|];
      [apply Hwith|].
    rewrite Hp0. apply Hwith.
Qed.

(** X23.  The extracted attributes change only through their own paths:
    a batch the engine accepts, each of whose operations has a path
    other than [active], [userName], [displayName] and [externalId],
    returns the four extracted attributes of the input state, whatever
    the operations, their values and the imported path helpers do. *)
Theorem other_paths_keep_extracted_fields :
  forall (config : PatchConfig) (operations : list PatchOperation)
         (state : UserPatchState) (res : Res.UserPatchResult),
    forallb elsewhere operations = true ->
    apply P operations state config = Ok res ->
    Res.extractedFields res = fieldsOf state.
Proof.
  intros config operations state res Hall. unfold apply.
  destruct (applyOperations P config operations state) as [st|] eqn:E;
    [|discriminate].
  simpl. intros [= <-]. simpl. change (fieldsOf st = fieldsOf state).
  revert state E.
  induction operations as [|o r IH]; simpl in *; intros state E.
  - now injection E as <-.
  - apply andb_prop in Hall as [Ho Hr].
    destruct (applyOperation P config state o) as [st1|] eqn:E1;
      [|discriminate].
    simpl in E. rewrite (IH Hr st1 E).
    exact (elsewhere_step _ _ _ _ Ho E1).
Qed.

(** X24.  Removing a top-level attribute is blind to letter case: after
    an accepted [remove] at a plain path, the payload holds no key that
    equals the path up to letter case. *)
Theorem plain_remove_ignores_key_case :
  forall (config : PatchConfig) (operation : PatchOperation)
         (state : UserPatchState) (res : Res.UserPatchResult)
         (p k : string),
    isOp operation "remove" = true ->
    path operation = Some p ->
    plainPath P config p = true ->
    apply P [operation] state config = Ok res ->
    toLowerCase k = toLowerCase p ->
    hasKey (Res.payload res) k = false.
Proof.
  intros config operation state res p k Hop Hp Hplain Hrun Hk.
  unfold apply in Hrun. simpl in Hrun.
  rewrite user_applyOperation_remove in Hrun by assumption.
  rewrite Hp in Hrun. unfold plainPath in Hplain.
  apply andb_prop in Hplain as [Hplain Hdot].
  apply andb_prop in Hplain as [Hplain Hvp].
  apply andb_prop in Hplain as [Hne Hext].
  apply negb_true_iff in Hne, Hext, Hvp, Hdot.
  unfold applyRemove in Hrun. simpl in Hrun.
  destruct (toLowerCase p =? "active") eqn:Hact.
  - injection Hrun as <-. simpl.
    apply hasKey_filter_out. intros v. simpl.
    apply String.eqb_eq in Hact. rewrite Hk, Hact.
    now rewrite andb_false_r.
  - rewrite Hne, Hext, Hvp in Hrun. simpl in Hrun.
    assert (Hflat : (if verbosePatch config
                     then if hasDot p then Some p else None
                     else None) = None).
    { destruct (verbosePatch config); [|reflexivity].
      simpl in Hdot. now rewrite Hdot. }
    rewrite Hflat in Hrun. simpl in Hrun. injection Hrun as <-. simpl.
    unfold stripReservedAttributes. apply hasKey_filter_sub.
    unfold removeAttribute. rewrite Hne.
    apply hasKey_filter_out. intros v. simpl.
    now rewrite Hk, String.eqb_refl.
Qed.

(** X25.  An accepted [add] or [replace] of [displayName] is mirrored in
    the payload, which then holds under [displayName] the extracted
    value; one of [userName] or [externalId] leaves the payload as it
    was. *)
Theorem display_name_is_mirrored :
  forall (config : PatchConfig) (operation : PatchOperation)
         (state : UserPatchState) (res : Res.UserPatchResult),
    isOp operation "add" = true \/ isOp operation "replace" = true ->
    apply P [operation] state config = Ok res ->
    (lowered (path operation) = Some "displayname" ->
     getProp (Res.payload res) "displayName"
     = ofNullable (Res.displayName (Res.extractedFields res))) /\
    (lowered (path operation) = Some "username" \/
     lowered (path operation) = Some "externalid" ->
     Res.payload res = stripReservedAttributes (rawPayload state)).
Proof.
  intros config operation state res Hop Hrun.
  unfold apply in Hrun. simpl in Hrun.
  destruct (applyOperation_add_or_replace P config state operation Hop)
    as (o & _ & Heq).
  rewrite Heq in Hrun. clear Heq. unfold applyAddOrReplace in Hrun.
  split.
  - intros Hpath. rewrite Hpath in Hrun. simpl in Hrun.
    destruct (extractNullableStringValue (value operation)) as [val|];
      [|discriminate].
    simpl in Hrun. injection Hrun as <-. simpl.
    rewrite strip_set_kept by reflexivity. apply getProp_setProp_same.
  - intros [Hpath|Hpath]; rewrite Hpath in Hrun; simpl in Hrun.
    + destruct (extractStringValue (value operation)); [|discriminate].
      simpl in Hrun. now injection Hrun as <-.
    + destruct (extractNullableStringValue (value operation));
        [|discriminate].
      simpl in Hrun. now injection Hrun as <-.
Qed.

(** X26.  An [add] or [replace] without a path whose value is not an
    object or array is accepted and ignored: the result is the input
    state, its payload stripped of the reserved keys. *)
Theorem pathless_scalar_is_ignored :
  forall (config : PatchConfig) (operation : PatchOperation)
         (state : UserPatchState),
    isOp operation "add" = true \/ isOp operation "replace" = true ->
    missing (path operation) = true ->
    asRecord (value operation) = None ->
    apply P [operation] state config
    = Ok {| Res.payload := stripReservedAttributes (rawPayload state);
            Res.extractedFields := fieldsOf state |}.
Proof.
  intros config operation state Hop Hpath Hval.
  unfold apply. simpl.
  destruct (applyOperation_add_or_replace P config state operation Hop)
    as (o & _ & ->).
  unfold applyAddOrReplace.
  rewrite !pathIs_missing by (assumption || discriminate).
  assert (Hnone : forall pred, present (path operation) pred = None).
  { intros pred. destruct (path operation) as [p|]; [|reflexivity].
    simpl in *. now rewrite Hpath. }
  rewrite !Hnone, missing_lowered, Hpath, Hval.
  now destruct (verbosePatch config).
Qed.

End Frames.

Lemma other_paths_keep_extracted_fields_witness :
  exists res,
    apply samplePaths [retitle] jdoe plainPatch = Ok res /\
    Res.extractedFields res = fieldsOf jdoe.
Proof.
  eexists. split; [reflexivity|].
  exact (other_paths_keep_extracted_fields samplePaths plainPatch [retitle]
           jdoe _ eq_refl eq_refl).
Defined.

(** [remove TITLE] on a payload that holds [title]. *)
Lemma plain_remove_ignores_key_case_witness :
  hasKey (Res.payload jdoeManager) "title" = true /\
  exists res,
    apply samplePaths
      [{| op := Some "remove"; path := Some "TITLE"; value := JUndefined |}]
      (stateOfResult jdoeManager) plainPatch = Ok res /\
    hasKey (Res.payload res) "title" = false.
Proof.
  split; [reflexivity|]. eexists. split; [reflexivity|].
  exact (plain_remove_ignores_key_case samplePaths plainPatch
           {| op := Some "remove"; path := Some "TITLE";
              value := JUndefined |}
           (stateOfResult jdoeManager) _ "TITLE" "title"
           eq_refl eq_refl eq_refl eq_refl eq_refl).
Defined.

(** [replace displayName] with [Jane]. *)
Lemma display_name_is_mirrored_witness :
  exists res,
    apply samplePaths
      [{| op := Some "replace"; path := Some "displayName";
          value := JStr "Jane" |}] jdoe plainPatch = Ok res /\
    getProp (Res.payload res) "displayName"
    = ofNullable (Res.displayName (Res.extractedFields res)).
Proof.
  eexists. split; [reflexivity|].
  exact (proj1 (display_name_is_mirrored samplePaths plainPatch
                  {| op := Some "replace"; path := Some "displayName";
                     value := JStr "Jane" |} jdoe _
                  (or_intror eq_refl) eq_refl) eq_refl).
Defined.

(** [{op:add, value:x}] *)
Lemma pathless_scalar_is_ignored_witness :
  apply samplePaths
    [{| op := Some "add"; path := None; value := JStr "x" |}] jdoe plainPatch
  = Ok {| Res.payload := stripReservedAttributes (rawPayload jdoe);
          Res.extractedFields := fieldsOf jdoe |}.
Proof.
  exact (pathless_scalar_is_ignored samplePaths plainPatch
           {| op := Some "add"; path := None; value := JStr "x" |} jdoe
           (or_introl eq_refl) eq_refl eq_refl).
Defined.

End UserLaws.

(* ================================================================== *)
(** * Laws of the services' pure parts                                 *)
(* ================================================================== *)

Module ServiceLaws.
Import Service.

(** ** Boolean-like strings *)

Lemma sanitizedString_again s :
  sanitizeValue true (sanitizedString s) = sanitizedString s.
Proof.
  unfold sanitizedString.
  destruct (toLowerCase s =? "true") eqn:Et; [reflexivity|].
  destruct (toLowerCase s =? "false") eqn:Ef; [reflexivity|].
  cbn [sanitizeValue]. unfold sanitizedString. now rewrite Et, Ef.
Qed.

Lemma sanitizeValue_again v :
  forall entry,
    sanitizeValue entry (sanitizeValue entry v) = sanitizeValue entry v.
Proof.
  induction v using JValue_tree_ind; intros entry; try reflexivity.
  - cbn [sanitizeValue]. destruct entry; [|reflexivity].
    apply sanitizedString_again.
  - cbn [sanitizeValue]. f_equal. rewrite map_map.
    apply map_ext_Forall.
    eapply Forall_impl; [|eassumption]. intros x Hx. apply Hx.
  - cbn [sanitizeValue]. f_equal. rewrite map_map.
    apply map_ext_Forall.
    eapply Forall_impl; [|eassumption]. intros [k x] Hx. simpl in *.
    now rewrite Hx.
Qed.

(** X27.  Sanitizing a payload twice is sanitizing it once, and it keeps
    the keys of the payload and their order. *)
Theorem sanitizing_is_idempotent :
  forall obj : Obj,
    sanitizeBooleanStrings (sanitizeBooleanStrings obj)
    = sanitizeBooleanStrings obj /\
    keys (sanitizeBooleanStrings obj) = keys obj.
Proof.
  intros obj. unfold sanitizeBooleanStrings, keys. split.
  - rewrite map_map. apply map_ext. intros [k v]. simpl.
    now rewrite sanitizeValue_again.
  - rewrite map_map. now apply map_ext.
Qed.

(** X28.  The conversion does not reach the strings of a list held
    directly under a key: such a list is left as it is, whatever it
    spells, while the same strings one list further in are converted. *)
Theorem listed_strings_are_kept :
  forall (key : string) (strings : list string),
    sanitizeBooleanStrings [(key, JArr (map JStr strings))]
    = [(key, JArr (map JStr strings))] /\
    sanitizeBooleanStrings [(key, JArr [JArr (map JStr strings)])]
    = [(key, JArr [JArr (map sanitizedString strings)])].
Proof.
  intros key strings.
  assert (Hitem : map (sanitizeValue false) (map JStr strings)
                  = map JStr strings)
    by (rewrite map_map; now apply map_ext).
  assert (Hentry : map (sanitizeValue true) (map JStr strings)
                   = map sanitizedString strings)
    by (rewrite map_map; now apply map_ext).
  unfold sanitizeBooleanStrings.
  cbn [map fst snd]. cbn [sanitizeValue negb].
  cbn [map]. cbn [sanitizeValue negb].
  now rewrite Hitem, Hentry.
Qed.

(** ** Pages *)

Section Pages.

Variable MAX_COUNT : Z.
Variable SCIM_LIST_RESPONSE_SCHEMA : string.
Variable Resource : Type.

Local Abbreviation respond :=
  (listResponse MAX_COUNT SCIM_LIST_RESPONSE_SCHEMA (Resource := Resource)).

Lemma firstn_more (n : nat) (l : list Resource) :
  firstn (Nat.min n (List.length l)) l = firstn n l.
Proof.
  destruct (Nat.le_ge_cases n (List.length l)) as [H|H].
  - now rewrite Nat.min_l.
  - rewrite Nat.min_r by assumption.
    now rewrite firstn_all, firstn_all2.
Qed.

Lemma page_closed_form startIndex count (resources : list Resource) :
  Resources (respond startIndex count resources)
  = firstn (Z.to_nat (Z.min count MAX_COUNT))
           (skipn (Z.to_nat (startIndex - 1)) resources).
Proof.
  unfold listResponse, slice. cbn [Resources].
  set (len := List.length resources).
  set (skip := Z.max (startIndex - 1) 0).
  set (take := Z.max (Z.min (if (count >? MAX_COUNT)%Z then MAX_COUNT
                             else count) MAX_COUNT) 0).
  assert (Htake : Z.to_nat take = Z.to_nat (Z.min count MAX_COUNT)).
  { unfold take. destruct (count >? MAX_COUNT)%Z eqn:E; lia. }
  assert (Hskip : Z.to_nat skip = Z.to_nat (startIndex - 1))
    by (unfold skip; lia).
  assert (H0 : (0 <= skip)%Z) by (unfold skip; lia).
  assert (H1 : (0 <= take)%Z) by (unfold take; lia).
  replace (skip <? 0)%Z with false by (symmetry; apply Z.ltb_ge; lia).
  replace (skip + take <? 0)%Z with false
    by (symmetry; apply Z.ltb_ge; lia).
  rewrite <- Htake, <- Hskip.
  destruct (Z_le_gt_dec (Z.of_nat len) skip) as [Hout|Hin].
  - rewrite !skipn_all2 by (fold len; lia). now rewrite !firstn_nil.
  - replace (Z.to_nat (Z.min skip (Z.of_nat len))) with (Z.to_nat skip)
      by lia.
    rewrite <- (firstn_more (Z.to_nat take)). f_equal.
    rewrite length_skipn. fold len. lia.
Qed.

(** X29.  The page of a listing is a window of the resources: the items
    from position [startIndex] on (from the first when [startIndex] is
    below one), at most [count] and at most [MAX_COUNT] of them (none
    when either is negative).  So [itemsPerPage] never exceeds
    [MAX_COUNT] nor [totalResults], and the cap applied to [count] on
    entry changes nothing. *)
Theorem page_is_a_window :
  forall (startIndex count : Z) (resources : list Resource),
    let response := listResponse MAX_COUNT SCIM_LIST_RESPONSE_SCHEMA startIndex count
                      resources in
    Resources response
    = firstn (Z.to_nat (Z.min count MAX_COUNT))
             (skipn (Z.to_nat (startIndex - 1)) resources) /\
    itemsPerPage response
    = Nat.min (Z.to_nat (Z.min count MAX_COUNT))
              (totalResults response - Z.to_nat (startIndex - 1)) /\
    (itemsPerPage response <= Z.to_nat MAX_COUNT)%nat /\
    (itemsPerPage response <= totalResults response)%nat.
Proof.
  intros startIndex count resources response.
  pose proof (page_closed_form startIndex count resources) as Hpage.
  fold response in Hpage.
  assert (Hitems : itemsPerPage response = List.length (Resources response))
    by reflexivity.
  assert (Htotal : totalResults response = List.length resources)
    by reflexivity.
  rewrite Hitems, Hpage, Htotal, length_firstn, length_skipn.
  repeat split; lia.
Qed.

Lemma firstn_plus (a b : nat) : forall l : list Resource,
  firstn a l ++ firstn b (skipn a l) = firstn (a + b) l.
Proof.
  induction a as [|a IH]; intros l; [reflexivity|].
  destruct l as [|x r]; simpl.
  - now rewrite firstn_nil.
  - now rewrite IH.
Qed.

(** X30.  Consecutive pages tile the listing: for a start index of at
    least one and two counts that together stay within [MAX_COUNT], the
    page of the first count followed by the page that starts right after
    it is the page of both counts together. *)
Theorem consecutive_pages_tile :
  forall (startIndex count count' : Z) (resources : list Resource),
    (1 <= startIndex)%Z ->
    (0 <= count)%Z -> (0 <= count')%Z ->
    (count + count' <= MAX_COUNT)%Z ->
    Resources (listResponse MAX_COUNT SCIM_LIST_RESPONSE_SCHEMA
                 startIndex count resources)
    ++ Resources (listResponse MAX_COUNT SCIM_LIST_RESPONSE_SCHEMA
                    (startIndex + count) count' resources)
    = Resources (listResponse MAX_COUNT SCIM_LIST_RESPONSE_SCHEMA
                   startIndex (count + count') resources).
Proof.
  intros startIndex count count' resources Hs Hc Hc' Hmax.
  rewrite !page_closed_form.
  replace (Z.to_nat (Z.min count MAX_COUNT)) with (Z.to_nat count) by lia.
  replace (Z.to_nat (Z.min count' MAX_COUNT)) with (Z.to_nat count') by lia.
  replace (Z.to_nat (Z.min (count + count') MAX_COUNT))
    with (Z.to_nat count + Z.to_nat count')%nat by lia.
  replace (Z.to_nat (startIndex + count - 1))
    with (Z.to_nat count + Z.to_nat (startIndex - 1))%nat by lia.
  rewrite <- skipn_skipn. apply firstn_plus.
Qed.

End Pages.

(** Two pages of two out of five resources, with at most ten a page. *)
Lemma consecutive_pages_tile_witness :
  Resources (listResponse 10 "ListResponse" 1 2 [1; 2; 3; 4; 5]%nat)
  ++ Resources (listResponse 10 "ListResponse" 3 2 [1; 2; 3; 4; 5]%nat)
  = [1; 2; 3; 4]%nat.
Proof.
  exact (consecutive_pages_tile 10 "ListResponse" nat 1 2 2
           [1; 2; 3; 4; 5]%nat
           ltac:(lia) ltac:(lia) ltac:(lia) ltac:(lia)).
Defined.

End ServiceLaws.
